(** * Course notebooks for python-control: a model of the notebook code

  The repository is a set of Jupyter notebooks.  Their code cells define a
  handful of small Python functions (system dynamics, flatness maps, the
  right-hand side of a Riccati equation) and otherwise call an external
  control-systems library.

  This development has two layers.

  - The functions defined in the notebooks are translated to Rocq
    functions.  Python floats are modelled as real numbers ([R]), so the
    statements below are about exact real arithmetic and say nothing about
    rounding; the one exception is [KincarFloat], where the flatness maps
    run on binary64 floats.  Python exceptions are modelled by the
    [result] type.

  - The statement structure of every code cell is transcribed as a value of
    type [Outline.notebook]; properties that speak about "every cell" are
    computed from that transcription. *)

From Stdlib Require Import Reals Lra Lia.
From Stdlib Require Floats.
From stdpp Require Import base gmap strings list.

(** ** Python values, exceptions and parameter dictionaries *)

Module Py.

(** The values the notebooks store in parameter dictionaries: numbers
    (Python [int] and [float], both read as reals), strings, and [None]
    (what [dict.get] returns for a missing key). *)
Inductive pyval :=
| VNum (r : R)
| VStr (s : string)
| VNone.

Inductive exn :=
| KeyError (key : string)
| IndexError
| TypeError
| ZeroDivisionError
| ValueError (msg : string) (arg : pyval)
| ImportError (module : string).

(** The outcome of a call: a value, an exception, or [NonReal] when a
  floating-point operation left the real numbers (a division of a NumPy
  float by zero, or a tangent at a pole, gives [inf] or [nan] and a
  warning, not an exception).  The model does not follow a computation
  past that point. *)
Inductive result (A : Type) :=
| Ok (a : A)
| Raise (e : exn)
| NonReal.
Arguments Ok {A} a.
Arguments Raise {A} e.
Arguments NonReal {A}.

#[export] Instance result_ret : MRet result := fun A a => Ok a.
#[export] Instance result_bind : MBind result := fun A B k m =>
  match m with
  | Ok a => k a
  | Raise e => Raise e
  | NonReal => NonReal
  end.

(** [params[key]] *)
Definition getitem (params : gmap string pyval) (key : string) : result pyval :=
  match params !! key with
  | Some v => Ok v
  | None => Raise (KeyError key)
  end.

(** [params.get(key, default)] *)
Definition get (params : gmap string pyval) (key : string) (default : pyval) : pyval :=
  match params !! key with
  | Some v => v
  | None => default
  end.

(** [x[i]] on a sequence of floats. *)
Definition index (x : list R) (i : nat) : result R :=
  match x !! i with
  | Some r => Ok r
  | None => Raise IndexError
  end.

(** A parameter used in arithmetic must be a number. *)
Definition as_num (v : pyval) : result R :=
  match v with
  | VNum r => Ok r
  | _ => Raise TypeError
  end.

(** [a / b] on Python numbers. *)
Definition div (a b : R) : result R :=
  if Req_dec_T b 0 then Raise ZeroDivisionError else Ok (a / b)%R.

(** [np.clip(a, a_min, a_max)], which is
    [minimum(a_max, maximum(a, a_min))]. *)
Definition np_clip (a a_min a_max : R) : R := Rmin a_max (Rmax a a_min).

(** [a / b] where [a] is a NumPy float: division by zero gives [inf] or
    [nan], not an exception. *)
Definition np_div (a b : R) : result R :=
  if Req_dec_T b 0 then NonReal else Ok (a / b)%R.

(** [np.tan], undefined where the cosine vanishes. *)
Definition np_tan (a : R) : result R :=
  if Req_dec_T (cos a) 0 then NonReal else Ok (tan a).

(** [np.arctan2(y, x)]: the angle of the point [(x, y)], in [(-pi, pi]],
    and [0] at the origin.  The real numbers have one zero: where NumPy
    tells [-0.0] from [0.0] (for [y = -0.0] and [x < 0] it returns [-pi],
    and at the origin its result follows the signs of both zeros), this is
    the value for [0.0]. *)
Definition np_arctan2 (y x : R) : R :=
  if Rlt_dec 0 x then atan (y / x)
  else if Rlt_dec x 0 then
    (if Rle_dec 0 y then atan (y / x) + PI else atan (y / x) - PI)%R
  else if Rlt_dec 0 y then (PI / 2)%R
  else if Rlt_dec y 0 then (- (PI / 2))%R
  else 0%R.

(** [zflag[i][j]] on a list of float arrays. *)
Definition index2 (z : list (list R)) (i j : nat) : result R :=
  match z !! i with
  | Some row => index row j
  | None => Raise IndexError
  end.

(** [v == s] for a string literal [s]. *)
Definition is_str (v : pyval) (s : string) : bool :=
  match v with
  | VStr s' => bool_decide (s' = s)
  | _ => false
  end.

(** [np.sign] *)
Definition np_sign (a : R) : R :=
  if Rlt_dec 0 a then 1%R else if Rlt_dec a 0 then (-1)%R else 0%R.

End Py.

Import Py.

(** ** The servomechanism (frequency-domain notebook) *)

Module Servomech.
Local Open Scope R_scope.

Definition servomech_params : gmap string pyval :=
  {[ "J" := VNum 100; "b" := VNum 10; "k" := VNum 1; "r" := VNum 1;
     "l" := VNum 2; "eps" := VNum (1/100) ]}.

(** [servomech_update(t, x, u, params)].  The parameters are read with
    [map(params.get, ...)], so a missing one is [None] and fails only when
    it is used in arithmetic. *)
Definition servomech_update (t : R) (x u : list R)
    (params : gmap string pyval) : result (list R) :=
  theta ← index x 0;
  thetadot ← index x 1;
  tau ← index u 0;
  let J := get params "J" VNone in
  let b := get params "b" VNone in
  let k := get params "k" VNone in
  let r := get params "r" VNone in
  J' ← as_num J;
  invJ ← div 1 J';
  b' ← as_num b;
  k' ← as_num k;
  r' ← as_num r;
  let dthetadot := invJ * (- b' * thetadot - k' * r' * sin theta + tau) in
  Ok [thetadot; dthetadot].

(** [servomech_output(t, x, u, params)] *)
Definition servomech_output (t : R) (x u : list R)
    (params : gmap string pyval) : result (list R) :=
  l ← getitem params "l";
  x0 ← index x 0;
  l' ← as_num l;
  Ok [l' * x0].

(** [u_e = servomech.params['k'] * servomech.params['r'] * np.sin(theta_e)] *)
Definition u_e (params : gmap string pyval) (theta_e : R) : result R :=
  k ← getitem params "k";
  r ← getitem params "r";
  k' ← as_num k;
  r' ← as_num r;
  Ok (k' * r' * sin theta_e).

End Servomech.

(** ** The inverted pendulum and its proportional controller *)

Module Invpend.
Local Open Scope R_scope.

Definition invpend_params : gmap string pyval :=
  {[ "m" := VNum 1; "l" := VNum 1; "b" := VNum (1/2); "g" := VNum 1 ]}.

(** The saturated input [usat = np.clip(u[0], -umax, umax)] with
    [umax = params.get('umax', 1)]. *)
Definition usat (u : list R) (params : gmap string pyval) : result R :=
  let umax := get params "umax" (VNum 1) in
  u0 ← index u 0;
  umax' ← as_num umax;
  Ok (np_clip u0 (- umax') umax').

(** [invpend_update(t, x, u, params)] *)
Definition invpend_update (t : R) (x u : list R)
    (params : gmap string pyval) : result (list R) :=
  m ← getitem params "m";
  l ← getitem params "l";
  b ← getitem params "b";
  g ← getitem params "g";
  us ← usat u params;
  x1 ← index x 1;
  b' ← as_num b;
  m' ← as_num m;
  bm ← div (- b') m';
  g' ← as_num g;
  l' ← as_num l;
  glm ← div (g' * l') m';
  x0 ← index x 0;
  um ← div us m';
  Ok [x1; bm * x1 + glm * sin (x0 + um)].

(** [propctrl_output(t, x, u, params)]; the controller has no state. *)
Definition propctrl_output (t : R) (x u : list R)
    (params : gmap string pyval) : result R :=
  let kp := get params "kp" (VNum 1) in
  kp' ← as_num kp;
  u0 ← index u 0;
  u1 ← index u 1;
  Ok (- kp' * (u0 - u1)).

(** The closed loop
    [clsys = ct.interconnect([invpend, propctrl], inputs=['r'],
    outputs=['theta', 'tau'], params={'kp': 1})].
    [interconnect] wires signals of the same name: [invpend] is built with
    no output function, so its outputs [theta], [thdot] are its states;
    [propctrl] reads [theta] and the external input [r], and its output
    [tau] is the input of [invpend].  A subsystem is evaluated with its own
    parameters, overridden by those of the closed loop, overridden by those
    of the call. *)
Definition clsys_params : gmap string pyval := {[ "kp" := VNum 1 ]}.

Definition clsys_update (t : R) (x r : list R)
    (params : gmap string pyval) : result (list R) :=
  theta ← index x 0;
  r0 ← index r 0;
  tau ← propctrl_output t [] [theta; r0] (params ∪ clsys_params);
  invpend_update t x [tau] (params ∪ clsys_params ∪ invpend_params).

(** Component [i] of the closed-loop state derivative at state
    [[x0, x1]] and reference [r], for the gain [kp]. *)
Definition clsys_rhs (kp : R) (i : nat) (x0 x1 r : R) : R :=
  match clsys_update 0 [x0; x1] [r] {[ "kp" := VNum kp ]} with
  | Ok dx => nth i dx 0
  | _ => 0
  end.

(** The state matrix of a linearization of a two-state system with right
    hand side [f] at the state [(x0, x1)]: the Jacobian of [f] there. *)
Definition is_state_matrix (f : nat -> R -> R -> R) (x0 x1 : R)
    (A : (R * R) * (R * R)) : Prop :=
  let '((a00, a01), (a10, a11)) := A in
  derivable_pt_lim (fun h => f 0%nat h x1) x0 a00 /\
  derivable_pt_lim (fun h => f 0%nat x0 h) x1 a01 /\
  derivable_pt_lim (fun h => f 1%nat h x1) x0 a10 /\
  derivable_pt_lim (fun h => f 1%nat x0 h) x1 a11.

(** Complex numbers as pairs (real part, imaginary part). *)
Definition Cmul (z w : R * R) : R * R :=
  (fst z * fst w - snd z * snd w, fst z * snd w + snd z * fst w).
Definition Csub (z w : R * R) : R * R := (fst z - fst w, snd z - snd w).
Definition Creal (a : R) : R * R := (a, 0).

(** [det(s I - A)] for a 2 x 2 real matrix [A] and a complex [s]. *)
Definition char_poly (A : (R * R) * (R * R)) (s : R * R) : R * R :=
  let '((a00, a01), (a10, a11)) := A in
  Csub (Cmul (Csub s (Creal a00)) (Csub s (Creal a11)))
       (Creal (a01 * a10)).

(** The poles of a state-space system are the eigenvalues of its state
    matrix. *)
Definition is_pole (A : (R * R) * (R * R)) (s : R * R) : Prop :=
  char_poly A s = (0, 0).

End Invpend.

(** ** The kinematic car and its flatness maps (optimal control notebook) *)

Module Kincar.
Local Open Scope R_scope.

(** [_kincar_flat_forward(x, u, params={})]: the flat flag of the state [x]
    and the input [u], a list of two arrays
    [[x, dx/dt, d2x/dt2]; [y, dy/dt, d2y/dt2]]. *)
Definition _kincar_flat_forward (x u : list R)
    (params : gmap string pyval) : result (list (list R)) :=
  let b := get params "wheelbase" (VNum 3) in
  x0 ← index x 0;
  x1 ← index x 1;
  u0 ← index u 0;
  x2 ← index x 2;
  let z01 := u0 * cos x2 in
  let z11 := u0 * sin x2 in
  b' ← as_num b;
  q ← np_div u0 b';
  u1 ← index u 1;
  tn ← np_tan u1;
  let thdot := q * tn in
  let z02 := - u0 * thdot * sin x2 in
  let z12 := u0 * thdot * cos x2 in
  Ok [[x0; z01; z02]; [x1; z11; z12]].

(** The heading recovered by [_kincar_flat_reverse], by direction:
    ['f'] forward, ['r'] reverse, anything else is refused. *)
Definition heading (dir : pyval) (zflag : list (list R)) : result R :=
  if is_str dir "f" then
    z11 ← index2 zflag 1 1;
    z01 ← index2 zflag 0 1;
    Ok (np_arctan2 z11 z01)
  else if is_str dir "r" then
    z11 ← index2 zflag 1 1;
    z01 ← index2 zflag 0 1;
    Ok (np_arctan2 (- z11) (- z01))
  else Raise (ValueError "unknown direction:" dir).

(** [_kincar_flat_reverse(zflag, params={})]: the state and the input of a
    flat flag, returned as the pair [(x, u)]. *)
Definition _kincar_flat_reverse (zflag : list (list R))
    (params : gmap string pyval) : result (list R * list R) :=
  let b := get params "wheelbase" (VNum 3) in
  let dir := get params "dir" (VStr "f") in
  z00 ← index2 zflag 0 0;
  z10 ← index2 zflag 1 0;
  x2 ← heading dir zflag;
  z01 ← index2 zflag 0 1;
  z11 ← index2 zflag 1 1;
  let u0 := z01 * cos x2 + z11 * sin x2 in
  z12 ← index2 zflag 1 2;
  z02 ← index2 zflag 0 2;
  let thdot_v := z12 * cos x2 - z02 * sin x2 in
  b' ← as_num b;
  d ← np_div (u0 ^ 2) b';
  Ok ([z00; z10; x2], [u0; np_arctan2 thdot_v d]).

(** [_kincar_update(t, x, u, params)] *)
Definition _kincar_update (t : R) (x u : list R)
    (params : gmap string pyval) : result (list R) :=
  let b := get params "wheelbase" (VNum 3) in
  x2 ← index x 2;
  u0 ← index u 0;
  b' ← as_num b;
  q ← np_div u0 b';
  u1 ← index u 1;
  tn ← np_tan u1;
  Ok [cos x2 * u0; sin x2 * u0; q * tn].

(** [_kincar_output(t, x, u, params)] *)
Definition _kincar_output (t : R) (x u : list R)
    (params : gmap string pyval) : result (list R) := Ok x.

End Kincar.

(** ** The flatness maps in binary64 arithmetic *)

(** The same two functions with Python's floats as they are: IEEE 754
    binary64 numbers, whose sums, products and quotients are correctly
    rounded.  NumPy's [cos], [sin], [tan] and [arctan2] come from the
    platform's mathematical library, whose rounding is not specified; they
    are the fields of a record [libm], and [conforming] states the values
    that the C standard (Annex F) fixes for them, and that the tangent of
    an argument of magnitude at most one is finite.  The parameters are
    the wheelbase [b] and the direction [dir] that the code reads from
    [params]. *)
Module KincarFloat.
Import PrimFloat.
Local Open Scope float_scope.

Record libm := {
  np_cos : float -> float;
  np_sin : float -> float;
  np_tan : float -> float;
  np_arctan2 : float -> float -> float
}.

Definition conforming (m : libm) : Prop :=
  np_cos m 0 = 1 /\
  np_sin m 0 = 0 /\
  (forall a, (abs a <=? 1) = true -> is_finite (np_tan m a) = true) /\
  (forall x, (0 <? x) = true -> np_arctan2 m 0 x = 0) /\
  np_arctan2 m 0 0 = 0 /\
  np_arctan2 m neg_zero 0 = neg_zero.

(** The defaults of [params.get('wheelbase', 3.)] and
    [params.get('dir', 'f')]. *)
Definition default_wheelbase : float := 3.
Definition default_dir : string := "f".

(** [x[i]] on an array of floats. *)
Definition index (x : list float) (i : nat) : result float :=
  match x !! i with
  | Some r => Ok r
  | None => Raise IndexError
  end.

(** [zflag[i][j]] *)
Definition index2 (z : list (list float)) (i j : nat) : result float :=
  match z !! i with
  | Some row => index row j
  | None => Raise IndexError
  end.

(** [_kincar_flat_forward(x, u, params)] with [params['wheelbase'] = b]. *)
Definition _kincar_flat_forward (m : libm) (x u : list float) (b : float)
    : result (list (list float)) :=
  x0 ← index x 0;
  x1 ← index x 1;
  u0 ← index u 0;
  x2 ← index x 2;
  let z01 := u0 * np_cos m x2 in
  let z11 := u0 * np_sin m x2 in
  u1 ← index u 1;
  let thdot := (u0 / b) * np_tan m u1 in
  let z02 := - u0 * thdot * np_sin m x2 in
  let z12 := u0 * thdot * np_cos m x2 in
  Ok [[x0; z01; z02]; [x1; z11; z12]].

(** The heading recovered by [_kincar_flat_reverse], by direction. *)
Definition heading (m : libm) (dir : string) (zflag : list (list float))
    : result float :=
  if decide (dir = "f") then
    z11 ← index2 zflag 1 1;
    z01 ← index2 zflag 0 1;
    Ok (np_arctan2 m z11 z01)
  else if decide (dir = "r") then
    z11 ← index2 zflag 1 1;
    z01 ← index2 zflag 0 1;
    Ok (np_arctan2 m (- z11) (- z01))
  else Raise (ValueError "unknown direction:" (VStr dir)).

(** [_kincar_flat_reverse(zflag, params)] with [params['wheelbase'] = b]
    and [params['dir'] = dir].  The square [u[0]**2] is the product of
    [u[0]] with itself. *)
Definition _kincar_flat_reverse (m : libm) (zflag : list (list float))
    (b : float) (dir : string) : result (list float * list float) :=
  z00 ← index2 zflag 0 0;
  z10 ← index2 zflag 1 0;
  x2 ← heading m dir zflag;
  z01 ← index2 zflag 0 1;
  z11 ← index2 zflag 1 1;
  let u0 := z01 * np_cos m x2 + z11 * np_sin m x2 in
  z12 ← index2 zflag 1 2;
  z02 ← index2 zflag 0 2;
  let thdot_v := z12 * np_cos m x2 - z02 * np_sin m x2 in
  let u1 := np_arctan2 m thdot_v (u0 * u0 / b) in
  Ok ([z00; z10; x2], [u0; u1]).

(** The round trip of the claim, under the default parameters. *)
Definition roundtrip (m : libm) (x u : list float)
    : result (list float * list float) :=
  zflag ← _kincar_flat_forward m x u default_wheelbase;
  _kincar_flat_reverse m zflag default_wheelbase default_dir.

(** A library that meets [conforming] (and is otherwise arbitrary). *)
Definition trivial_libm : libm :=
  {| np_cos := fun _ => 1;
     np_sin := fun _ => 0;
     np_tan := fun _ => 0;
     np_arctan2 := fun y _ => y |}.

End KincarFloat.

(** ** The Riccati differential equation (optimal control notebook) *)

Module Riccati.
Local Open Scope R_scope.

(** A two-dimensional float array, as the list of its rows. *)
Abbreviation matrix := (list (list R)).

(** [l] cut into consecutive pieces of length [k] (row-major reshape). *)
Fixpoint chunks_aux {A} (fuel k : nat) (l : list A) : list (list A) :=
  match fuel with
  | O => []
  | S fuel' =>
      match l with
      | [] => []
      | _ => take k l :: chunks_aux fuel' k (drop k l)
      end
  end.

Definition chunks {A} (k : nat) (l : list A) : list (list A) :=
  chunks_aux (length l) k l.

(** [np.reshape(x, (n, n))] of a vector; NumPy's [ValueError] names the
    sizes, which the model leaves out. *)
Definition reshape2 (n : nat) (x : list R) : result matrix :=
  if decide (length x = (n * n)%nat) then Ok (chunks n x)
  else Raise (ValueError "cannot reshape array" VNone).

(** [np.reshape(M, (-1))]: the rows one after the other. *)
Definition flatten (M : matrix) : list R := concat M.

(** [np.reshape(y, (n, n, -1))] of a two-dimensional array, in row-major
    order: the last axis gets the length [k] that makes the sizes agree, and
    entry [[i][j]] of the result is an array of that length (empty for an
    empty [y]). *)
Definition reshape3 (n : nat) (y : matrix) : result (list matrix) :=
  let flat := concat y in
  let k := (length flat / (n * n))%nat in
  if decide ((n * n * k)%nat = length flat /\ (0 < n)%nat)
  then Ok (if decide (k = 0%nat) then replicate n (replicate n [])
           else chunks n (chunks k flat))
  else Raise (ValueError "cannot reshape array" VNone).

Definition dot (u v : list R) : R := foldr Rplus 0 (zip_with Rmult u v).

(** [M.T] *)
Fixpoint transpose (M : matrix) : matrix :=
  match M with
  | [] => []
  | [r] => (fun a => [a]) <$> r
  | r :: M' => zip_with cons r (transpose M')
  end.

(** [M @ N], [M + N] and [M - N] on arrays of matching shapes.  (On other
    shapes NumPy raises or broadcasts; the cells only combine the square
    matrices [P], [A], [Qx] and the [n x m] matrix [B], and the properties
    below fix these shapes.) *)
Definition matmul (M N : matrix) : matrix :=
  (fun row => dot row <$> transpose N) <$> M.
Definition madd (M N : matrix) : matrix := zip_with (zip_with Rplus) M N.
Definition msub (M N : matrix) : matrix := zip_with (zip_with Rminus) M N.

(** The part of a linear system that the Riccati cell reads:
    [sys.A], [sys.B] and [sys.nstates]. *)
Record linsys := { sys_A : matrix; sys_B : matrix }.
Definition nstates (sys : linsys) : nat := length (sys_A sys).

(** What [scipy.integrate.solve_ivp] returns: the time points [t] and the
    array [y], one row per state and one column per time point. *)
Record ode_solution := { sol_t : list R; sol_y : matrix }.

(** What the Riccati cells leave behind: the reordered times and
    trajectory, and the interpolant made of them. *)
Record riccati_trajectory := {
  trev : list R;
  Prev : list matrix;
  Pinterp : R -> result matrix
}.

(** [A[:, :, -1]] of a three-dimensional array. *)
Definition slice_last (T : list matrix) : result matrix :=
  match mapM (mapM last) T with
  | Some M => Ok M
  | None => Raise IndexError
  end.

(** [y[r][k]] of a two-dimensional array and [T[i][j][k]] of a
    three-dimensional one, where the indices are in range. *)
Definition at2 (y : matrix) (r k : nat) : option R :=
  match y !! r with Some row => row !! k | None => None end.
Definition at3 (T : list matrix) (i j k : nat) : option R :=
  match T !! i with Some M => at2 M j k | None => None end.

(** [l] is indexed by nondecreasing values. *)
Definition nondecreasing (l : list R) : Prop :=
  forall (i j : nat) (a b : R),
    (i <= j)%nat -> l !! i = Some a -> l !! j = Some b -> a <= b.

Section Cells.

(** The external numerical routines the cells call. *)
Variable np_linalg_inv : matrix -> matrix.
Variable solve_ivp :
  (R -> list R -> result (list R)) -> R * R -> list R -> ode_solution.
Variable interp1d : list R -> list matrix -> R -> result matrix.

(** The notebook globals the cells read. *)
Variable sys : linsys.
Variables Qx Qu Pf : matrix.
Variable Tf : R.

(** [Pdot_reverse(t, x)]: the right hand side of the Riccati equation, in
    reversed time. *)
Definition Pdot_reverse (t : R) (x : list R) : result (list R) :=
  P ← reshape2 (nstates sys) x;
  let A := sys_A sys in
  let B := sys_B sys in
  let Prhs :=
    msub (madd (madd (matmul P A) (matmul (transpose A) P)) Qx)
         (matmul (matmul (matmul (matmul P B) (np_linalg_inv Qu))
                         (transpose B)) P) in
  Ok (flatten Prhs).

(** The cell that solves the Riccati equation and reorders the solution,
    and the cell that interpolates it. *)
Definition riccati_cells : result riccati_trajectory :=
  let P0 := flatten Pf in
  let Psol := solve_ivp Pdot_reverse (0, Tf) P0 in
  reshape3 (nstates sys) (sol_y Psol) ≫= fun Pfwd : list matrix =>
  let Prev : list matrix := (fun M : matrix => reverse <$> M) <$> Pfwd in
  let trev := (fun t => Tf - t) <$> reverse (sol_t Psol) in
  Ok {| trev := trev; Prev := Prev; Pinterp := interp1d trev Prev |}.

End Cells.

(** [M] has [r] rows of [c] entries. *)
Definition is_shape (r c : nat) (M : matrix) : Prop :=
  length M = r /\ Forall (fun row => length row = c) M.

(** The Riccati equation as the notebook states it in prose:
    [-dP/dt = P A + A^T P - P B Qu^-1 B^T P + Qx], entry by entry, for
    three states and two inputs; [W] stands for [Qu^-1]. *)
Definition entry (M : matrix) (i j : nat) : R :=
  match M !! i with
  | Some row => match row !! j with Some a => a | None => 0 end
  | None => 0
  end.

Definition sum_upto (n : nat) (f : nat -> R) : R :=
  foldr Rplus 0 (f <$> seq 0 n).

Definition riccati_rhs_entry (A B Qx W P : matrix) (i j : nat) : R :=
  sum_upto 3 (fun k => entry P i k * entry A k j)
  + sum_upto 3 (fun k => entry A k i * entry P k j)
  - sum_upto 2 (fun a => sum_upto 2 (fun b =>
      sum_upto 3 (fun k => entry P i k * entry B k a) * entry W a b
      * sum_upto 3 (fun k => entry B k b * entry P k j)))
  + entry Qx i j.

Definition riccati_rhs (A B Qx W P : matrix) : matrix :=
  (fun i => (fun j => riccati_rhs_entry A B Qx W P i j) <$> seq 0 3)
    <$> seq 0 3.

(** The inverse of a 2 x 2 matrix, the instance of [np.linalg.inv] that the
    notebook needs ([Qu] is 2 x 2). *)
Definition inv2 (M : matrix) : matrix :=
  let a := entry M 0 0 in let b := entry M 0 1 in
  let c := entry M 1 0 in let d := entry M 1 1 in
  let det := a * d - b * c in
  [[d / det; - b / det]; [- c / det; a / det]].

(** Data of the notebook's sizes: the state and input matrices of a car of
    wheelbase 3 driving straight ahead at speed 10 (the point
    [x0 = [-40, -2, 0]], [u0 = [10, 0]] at which the notebook linearizes),
    and the notebook's weights [Qx = Pf = diag(1, 1, 1)],
    [Qu = diag(1, 1)]. *)
Definition kincar_lin : linsys :=
  {| sys_A := [[0; 0; 0]; [0; 0; 10]; [0; 0; 0]];
     sys_B := [[1; 0]; [0; 0]; [0; 10 / 3]] |}.
Definition eye3 : matrix := [[1; 0; 0]; [0; 1; 0]; [0; 0; 1]].
Definition eye2 : matrix := [[1; 0]; [0; 1]].

(** A stand-in for the solver with the shape of its answer: the two end
    points of the time span, holding the initial value. *)
Definition two_point_solver (f : R -> list R -> result (list R))
    (span : R * R) (y0 : list R) : ode_solution :=
  {| sol_t := [fst span; snd span]; sol_y := (fun v => [v; v]) <$> y0 |}.

(** A stand-in with three time points, unevenly spaced, and values that
    change along the way: each state starts at its initial value and has
    grown by 1 and by 2 at the later points. *)
Definition three_point_solver (f : R -> list R -> result (list R))
    (span : R * R) (y0 : list R) : ode_solution :=
  {| sol_t := [fst span; (3 * fst span + snd span) / 4; snd span];
     sol_y := (fun v => [v; v + 1; v + 2]) <$> y0 |}.

(** A stand-in for the interpolant: one that refuses every query (as
    [interp1d] does outside the range of its knots). *)
Definition out_of_range (ts : list R) (Ps : list matrix) (t : R) :
    result matrix :=
  Raise (ValueError "A value in x_new is outside the interpolation range" VNone).

End Riccati.

(** ** The statements of the notebooks' code cells *)

Module Outline.

(** The left hand side of an assignment: a name, an attribute of an object
    ([obj.attr = ...]) or an item of a container ([obj[...] = ...]). *)
Inductive target :=
| TName (x : string)
| TAttr (obj attr : string)
| TItem (obj : string).

(** A statement, with the callees of the calls in its expressions (inner
    calls first; [f().g] is the method [g] of the result of [f], [a[].g] a
    method of an item of [a]).  [Shell] is an IPython shell escape
    ([!command]). *)
#[warnings="-register-all"]
Inductive stmt :=
| Import (module : string)
| Assign (targets : list target) (calls : list string)
| Expr (calls : list string)
| Def (name : string) (args : list string) (body : list stmt)
| Return (calls : list string)
| If (calls : list string) (body orelse : list stmt)
| For (calls : list string) (body : list stmt)
| Try (body : list stmt) (exn : string) (handler : list stmt)
| RaiseStmt (exn : string)
| Shell (cmd : string).

Record cell := { cell_id : string; cell_code : list stmt }.
Definition notebook := list cell.

(** "LQR Tracking Example" (the notebook of [src/unnamed/part_000]). *)
Definition lqr_tracking : notebook := [
  {| cell_id := "50d5c4d3";
     cell_code :=
      [ Import "numpy";
        Import "matplotlib.pyplot";
        Import "control"] |};
  {| cell_id := "b5923c88";
     cell_code :=
      [ Assign [TName "sys"] ["np.eye"; "ct.ss"];
        Expr ["print"]] |};
  {| cell_id := "874c1479";
     cell_code :=
      [ Assign [TName "x0"] ["np.array"];
        Assign [TName "u0"] ["np.array"];
        Assign [TName "Tf"] []] |};
  {| cell_id := "3ce6a230";
     cell_code :=
      [ Assign [TName "K"; TName "_"; TName "_"] ["np.eye"; "np.eye"; "ct.lqr"];
        Assign [TName "ctrl"; TName "clsys"] ["ct.create_statefbk_iosystem"];
        Expr ["print"];
        Expr ["print"]] |};
  {| cell_id := "b763b91b";
     cell_code :=
      [ Assign [TName "tvec"] ["np.linspace"];
        Assign [TName "xd"] [];
        Assign [TName "ud"] [];
        Assign [TName "U"] ["np.hstack"; "np.ones_like"; "np.outer"];
        Assign [TName "time"; TName "output"] ["ct.input_output_response"];
        Expr ["plt.plot"];
        Expr ["plt.plot"];
        Expr ["plt.legend"]] |};
  {| cell_id := "1ecbb3a0";
     cell_code :=
      [ Assign [TName "delta"] [];
        Assign [TName "U"] ["np.hstack"; "np.ones_like"; "np.outer"];
        Assign [TName "time"; TName "output"] ["ct.input_output_response"];
        Expr ["plt.plot"];
        Expr ["plt.plot"];
        Expr ["plt.legend"]] |};
  {| cell_id := "ee2ecc51";
     cell_code :=
      [ Assign [TName "C"] ["np.array"];
        Assign [TName "A_aug"] ["np.zeros"; "np.block"];
        Assign [TName "B_aug"] ["np.vstack"];
        Expr ["print"]] |};
  {| cell_id := "3dd3479f";
     cell_code :=
      [ Assign [TName "K_aug"; TName "_"; TName "_"] ["np.diag"; "np.eye"; "ct.lqr"];
        Expr ["print"]] |};
  {| cell_id := "e183a822";
     cell_code :=
      [ Assign [TName "integral_ctrl"; TName "sys_integral"] ["ct.create_statefbk_iosystem"];
        Expr ["print"];
        Expr ["print"];
        Assign [TName "delta"] [];
        Assign [TName "U"] ["np.hstack"; "np.ones_like"; "np.outer"];
        Assign [TName "time"; TName "output"] ["ct.input_output_response"];
        Expr ["plt.plot"];
        Expr ["plt.plot"];
        Expr ["plt.legend"]] |};
  {| cell_id := "99394ace";
     cell_code :=
      [] |}
].

(** "Frequency Domain Analysis using Bode/Nyquist plots", CDS 110 Lecture 7
    (first notebook of [src/unnamed/part_001]). *)
Definition frequency_domain : notebook := [
  {| cell_id := "invalid-carnival";
     cell_code :=
      [ Import "numpy";
        Import "matplotlib.pyplot";
        Import "math";
        Try
          [ Import "control";
            Expr ["print"]]
          "ImportError"
          [ Shell "pip install control";
            Import "control"];
        Expr ["plt.rcParams.update"]] |};
  {| cell_id := "27bb3c38";
     cell_code :=
      [ Assign [TName "servomech_params"] [];
        Def "servomech_update" ["t"; "x"; "u"; "params"]
          [ Assign [TName "theta"] [];
            Assign [TName "thetadot"] [];
            Assign [TName "tau"] [];
            Assign [TName "J"; TName "b"; TName "k"; TName "r"] ["map"];
            Assign [TName "dthetadot"] ["np.sin"];
            Return ["np.array"]];
        Def "servomech_output" ["t"; "x"; "u"; "params"]
          [ Assign [TName "l"] [];
            Return ["np.array"]];
        Assign [TName "servomech"] ["ct.nlsys"];
        Expr ["print"];
        Expr ["print"]] |};
  {| cell_id := "senior-carpet";
     cell_code :=
      [ Assign [TName "theta_e"] [];
        Assign [TName "u_e"] ["np.sin"];
        Expr ["print"];
        Assign [TName "P"] ["servomech.linearize"];
        Assign [TAttr "P" "name"] [];
        Expr ["print"];
        Expr ["P.zeros"; "print"];
        Expr ["P.poles"; "print"];
        Expr ["print"];
        Assign [TName "P_tf"] ["ct.tf"];
        Expr ["print"]] |};
  {| cell_id := "RxXFTpwO5bGI";
     cell_code :=
      [ Expr ["ct.set_defaults"];
        Assign [TName "freqresp"] ["np.logspace"; "ct.frequency_response"];
        Expr ["freqresp.plot"];
        Expr ["np.logspace"; "ct.bode_plot"]] |};
  {| cell_id := "8NK8O6XT7B_a";
     cell_code :=
      [ Assign [TName "kp"] [];
        Assign [TName "ki"] [];
        Assign [TName "C"] ["ct.tf"];
        Expr ["print"];
        Assign [TName "s"] ["ct.tf"];
        Assign [TName "C"] ["ct.tf"];
        Expr ["print"]] |};
  {| cell_id := "074427a3";
     cell_code :=
      [ Assign [TName "L"] [];
        Assign [TName "cplt"] ["ct.bode_plot"];
        Expr ["cplt.set_plot_title"]] |};
  {| cell_id := "Qmp59pmS9GLj";
     cell_code :=
      [ Assign [TName "fig"] ["plt.figure"];
        Assign [TName "ax1"] ["plt.subplot"];
        Assign [TName "ax2"] ["plt.subplot"];
        Expr ["ct.bode_plot"];
        Expr ["fig.align_labels"];
        Expr ["ax1.set_title"];
        Assign [TName "ax2"] ["plt.subplot"];
        Expr ["ct.nyquist_plot"];
        Expr ["plt.title"];
        Expr ["plt.suptitle"];
        Expr ["plt.tight_layout"]] |};
  {| cell_id := "K7ifUBL0Z3xN";
     cell_code :=
      [ Assign [TName "nyqresp"] ["ct.nyquist_response"];
        Expr ["print"];
        Expr ["L.poles"; "np.real"; "np.sum"; "print"];
        Expr ["(binop).zeros"; "np.real"; "np.sum"; "print"];
        Expr ["(binop).zeros"; "print"];
        Expr ["print"];
        Assign [TName "T"] ["ct.feedback"];
        Expr ["ct.step_response"; "ct.step_response().plot"]] |};
  {| cell_id := "R5IBk3Ai9Slk";
     cell_code :=
      [ Assign [TName "fig"] ["plt.figure"];
        Assign [TName "ax1"] ["plt.subplot"];
        Expr ["np.real"; "np.imag"; "plt.plot"];
        Expr ["plt.axis"];
        Expr ["plt.xlabel"];
        Expr ["plt.ylabel"];
        Expr ["plt.title"];
        Import "matplotlib";
        Expr ["ticker.StrMethodFormatter"; "ax1.xaxis.set_major_formatter"];
        Expr ["ticker.StrMethodFormatter"; "ax1.yaxis.set_major_formatter"];
        Assign [TName "ax2"] ["plt.subplot"];
        Expr ["ct.nyquist_plot"];
        Expr ["plt.title"];
        Expr ["plt.suptitle"];
        Expr ["plt.tight_layout"]] |};
  {| cell_id := "YsM8SnXz_Kaj";
     cell_code :=
      [ Assign [TName "Cnew"] ["ct.tf"];
        Assign [TName "Lnew"] ["ct.tf"];
        Expr ["plt.figure"];
        Assign [TName "ax1"] ["plt.subplot"];
        Assign [TName "ax2"] ["plt.subplot"];
        Expr ["ct.bode_plot"];
        Expr ["ax1.loglog"];
        Expr ["ax1.set_title"];
        Assign [TName "ax3"] ["plt.subplot"];
        Expr ["ct.nyquist_plot"];
        Expr ["ax3.set_title"];
        Expr ["plt.suptitle"];
        Expr ["plt.tight_layout"]] |};
  {| cell_id := "GGfJwG716jU2";
     cell_code :=
      [ Assign [TName "Tnew"] ["ct.feedback"];
        Assign [TName "cplt"] ["ct.step_response"; "ct.step_response().plot"];
        Expr ["cplt.set_plot_title"]] |};
  {| cell_id := "e6da93a4-5202-45d7-9e5a-697848f4ba71";
     cell_code :=
      [ Assign [TName "Td"] [];
        Assign [TName "Ti"] [];
        Assign [TName "kp"] [];
        Assign [TName "kp"] [];
        Assign [TName "Ti"] [];
        Assign [TName "kp"] [];
        Assign [TName "ki"] [];
        Assign [TName "kd"] [];
        Assign [TName "ctrl_shape"] [];
        Assign [TName "ltf_shape"] ["ct.tf"];
        Assign [TName "cplt"] ["ct.frequency_response"; "ct.frequency_response().plot"];
        Assign [TName "cplt"] ["ct.frequency_response"; "ct.frequency_response().plot"];
        Expr ["cplt.set_plot_title"]] |};
  {| cell_id := "d731f372-4992-464c-9ca5-49cc1d554799";
     cell_code :=
      [ Assign [TName "T_shape"] ["ct.feedback"];
        Assign [TName "cplt"] ["ct.step_response"; "ct.step_response().plot"]] |};
  {| cell_id := "ceqcg3oM619g";
     cell_code :=
      [ Assign [TName "cplt"] ["ct.gangof4"]] |};
  {| cell_id := "m-8ItbHwxLrv";
     cell_code :=
      [ Expr ["plt.figure"];
        Assign [TName "ax1"] ["plt.subplot"];
        Expr ["plt.title"];
        Assign [TName "ax2"] ["plt.subplot"];
        Expr ["ct.bode_plot"];
        Assign [TName "gm"; TName "pm"; TName "wpc"; TName "wgc"] ["ct.margin"];
        Expr ["print"];
        Expr ["print"];
        Assign [TName "resp"] ["ct.frequency_response"];
        Assign [TName "sm"] ["np.min"];
        Assign [TName "wsm"] ["np.argmin"];
        Expr ["print"];
        Assign [TName "ax3"] ["plt.subplot"];
        Expr ["ct.nyquist_plot"];
        Expr ["plt.title"];
        Expr ["plt.axis"];
        Assign [TName "Lgm"] [];
        Expr ["plt.plot"];
        Expr ["plt.text"];
        Assign [TName "theta"] ["np.linspace"];
        Expr ["np.cos"; "np.sin"; "plt.plot"];
        Expr ["plt.text"];
        Assign [TName "Lsm"] ["Lnew"];
        Expr ["plt.plot"];
        Expr ["plt.text"];
        Expr ["plt.suptitle"];
        Expr ["plt.tight_layout"]] |};
  {| cell_id := "ZbPzrlPIrHnp";
     cell_code :=
      [ Assign [TName "P"] ["ct.tf"];
        Expr ["P.poles"]] |};
  {| cell_id := "hjQS_dED7yJE";
     cell_code :=
      [ Assign [TName "kp"] [];
        Assign [TName "kd"] [];
        Assign [TName "C"] ["ct.tf"];
        Assign [TName "L"] [];
        Assign [TAttr "L" "name"] [];
        Expr ["print"];
        Expr ["L.zeros"; "print"];
        Expr ["L.poles"; "print"]] |};
  {| cell_id := "YI_KJo0E9pFd";
     cell_code :=
      [ Expr ["plt.figure"];
        Assign [TName "ax1"] ["plt.subplot"];
        Expr ["plt.title"];
        Assign [TName "ax2"] ["plt.subplot"];
        Expr ["ct.bode_plot"];
        Assign [TName "ax3"] ["plt.subplot"];
        Expr ["ct.nyquist_plot"];
        Expr ["plt.title"];
        Expr ["plt.suptitle"];
        Expr ["plt.tight_layout"]] |};
  {| cell_id := "8dH03kv9-Da8";
     cell_code :=
      [ Assign [TName "nyqresp"] ["ct.nyquist_response"];
        Expr ["print"];
        Expr ["L.poles"; "np.real"; "np.sum"; "print"];
        Expr ["(binop).zeros"; "np.real"; "np.sum"; "print"];
        Expr ["L.poles"; "print"];
        Expr ["(binop).zeros"; "print"];
        Expr ["print"];
        Assign [TName "T"] ["ct.feedback"];
        Expr ["ct.initial_response"; "ct.initial_response().plot"]] |};
  {| cell_id := "oTmOun41_opt";
     cell_code :=
      [ Expr ["ct.gangof4"]] |};
  {| cell_id := "vhKi_L-F_6Ws";
     cell_code :=
      [ Assign [TName "Cnew"] [];
        Assign [TAttr "Cnew" "name"] [];
        Expr ["print"];
        Assign [TName "Lnew"] [];
        Assign [TAttr "Lnew" "name"] [];
        Expr ["plt.figure"];
        Assign [TName "ax1"] ["plt.subplot"];
        Assign [TName "ax2"] ["plt.subplot"];
        Expr ["ct.bode_plot"];
        Expr ["ax1.loglog"];
        Expr ["ax1.set_title"];
        Assign [TName "ax3"] ["plt.subplot"];
        Expr ["ct.nyquist_plot"];
        Expr ["ax3.set_title"];
        Expr ["plt.suptitle"];
        Expr ["plt.tight_layout"]] |};
  {| cell_id := "FknwW6GkBLLU";
     cell_code :=
      [ Expr ["ct.gangof4"]] |};
  {| cell_id := "wJHJLjXwCNz-";
     cell_code :=
      [ Assign [TName "Tnew"] ["ct.feedback"];
        Expr ["ct.step_response"; "ct.step_response().plot"]] |};
  {| cell_id := "WUhz529a-w3q";
     cell_code :=
      [] |}
].

(** "Linear quadratic optimal control example" (second notebook of
    [src/unnamed/part_001]). *)
Definition lq_optimal_control : notebook := [
  {| cell_id := "866842ea";
     cell_code :=
      [ Import "numpy";
        Import "scipy";
        Import "matplotlib.pyplot";
        Import "control";
        Import "control.optimal";
        Import "control.flatsys";
        Import "time"] |};
  {| cell_id := "48c1bd7f-0db6-4488-af41-41f685280ec9";
     cell_code :=
      [ Def "_kincar_flat_forward" ["x"; "u"; "params"]
          [ Assign [TName "b"] ["params.get"];
            Assign [TName "zflag"] ["np.zeros"; "np.zeros"];
            Assign [TItem "zflag"] [];
            Assign [TItem "zflag"] [];
            Assign [TItem "zflag"] ["np.cos"];
            Assign [TItem "zflag"] ["np.sin"];
            Assign [TName "thdot"] ["np.tan"];
            Assign [TItem "zflag"] ["np.sin"];
            Assign [TItem "zflag"] ["np.cos"];
            Return []];
        Def "_kincar_flat_reverse" ["zflag"; "params"]
          [ Assign [TName "b"] ["params.get"];
            Assign [TName "dir"] ["params.get"];
            Assign [TName "x"] ["np.zeros"];
            Assign [TName "u"] ["np.zeros"];
            Assign [TItem "x"] [];
            Assign [TItem "x"] [];
            If []
              [ Assign [TItem "x"] ["np.arctan2"]]
              [ If []
                  [ Assign [TItem "x"] ["np.arctan2"]]
                  [ RaiseStmt "ValueError"]];
            Assign [TItem "u"] ["np.cos"; "np.sin"];
            Assign [TName "thdot_v"] ["np.cos"; "np.sin"];
            Assign [TItem "u"] ["np.arctan2"];
            Return []];
        Def "_kincar_update" ["t"; "x"; "u"; "params"]
          [ Assign [TName "b"] ["params.get"];
            Assign [TName "dx"] ["np.cos"; "np.sin"; "np.tan"; "np.array"];
            Return []];
        Def "_kincar_output" ["t"; "x"; "u"; "params"]
          [ Return []];
        Assign [TName "kincar"] ["fs.FlatSystem"]] |};
  {| cell_id := "fbdd78c0-30e9-43f7-9e8d-198ae38c2988";
     cell_code :=
      [ Def "plot_lanechange" ["t"; "y"; "u"; "figure"; "yf"]
          [ Expr ["plt.subplot"];
            Expr ["plt.plot"];
            Expr ["plt.xlabel"];
            Expr ["plt.ylabel"];
            If []
              [ Expr ["plt.plot"]]
              [];
            Expr ["plt.subplot"];
            Expr ["plt.plot"];
            Expr ["plt.xlabel"];
            Expr ["plt.ylabel"];
            Expr ["plt.subplot"];
            Expr ["plt.plot"];
            Expr ["plt.xlabel"];
            Expr ["plt.ylabel"];
            Expr ["plt.suptitle"];
            Expr ["plt.tight_layout"]]] |};
  {| cell_id := "de9d85f3";
     cell_code :=
      [ Assign [TName "x0"] ["np.array"];
        Assign [TName "u0"] ["np.array"];
        Assign [TName "Tf"] [];
        Assign [TName "sys"] ["kincar.linearize"];
        Expr ["print"]] |};
  {| cell_id := "02e9f87c";
     cell_code :=
      [ Assign [TName "Qx"] ["np.diag"];
        Assign [TName "Qu"] ["np.diag"];
        Assign [TName "Pf"] ["np.diag"]] |};
  {| cell_id := "02d74789";
     cell_code :=
      [ Def "Pdot_reverse" ["t"; "x"]
          [ Assign [TName "P"] ["np.reshape"];
            Assign [TName "Prhs"] ["np.linalg.inv"];
            Return ["Prhs.reshape"]];
        Assign [TName "P0"] ["np.reshape"];
        Assign [TName "Psol"] ["sp.integrate.solve_ivp"];
        Assign [TName "Pfwd"] ["np.reshape"];
        Assign [TName "Prev"] [];
        Assign [TName "trev"] [];
        Expr ["print"];
        Expr ["print"];
        Expr ["print"];
        Assign [TName "_"; TName "P_lqr"; TName "_"] ["ct.lqr"];
        Expr ["print"]] |};
  {| cell_id := "728f675b";
     cell_code :=
      [ Assign [TName "P"] ["sp.interpolate.interp1d"];
        Expr ["P"; "print"];
        Expr ["P"; "print"];
        Expr ["P"; "print"]] |};
  {| cell_id := "84092dcd";
     cell_code :=
      [ Def "xdot_forward" ["t"; "x"]
          [ Assign [TName "u"] ["np.linalg.inv"; "P"];
            Return []];
        Assign [TName "xsol"] ["sp.integrate.solve_ivp"];
        Assign [TName "tvec"] [];
        Assign [TName "x"] [];
        Expr ["print"];
        Expr ["print"]] |};
  {| cell_id := "8488acad";
     cell_code :=
      [ Assign [TName "xd"] [];
        Assign [TName "ud"] ["np.zeros"];
        For ["enumerate"]
          [ Assign [TItem "ud"] ["np.linalg.inv"; "P"]];
        Expr ["plot_lanechange"]] |};
  {| cell_id := "7ed4c5eb";
     cell_code :=
      [] |}
].

(** "Stochastic Response" (third notebook of [src/unnamed/part_001]). *)
Definition stochastic_response : notebook := [
  {| cell_id := "902af902";
     cell_code :=
      [ Import "numpy";
        Import "scipy";
        Import "matplotlib.pyplot";
        Import "control";
        Import "math"] |};
  {| cell_id := "60192a8c";
     cell_code :=
      [ Assign [TName "a"] [];
        Assign [TName "c"] [];
        Assign [TName "sys"] ["ct.tf"];
        Assign [TName "Tf"] [];
        Assign [TName "T"] ["np.linspace"];
        Assign [TName "dt"] [];
        Assign [TName "Q"] ["np.array"];
        Assign [TName "V"] ["ct.white_noise"];
        Expr ["plt.plot"];
        Expr ["plt.xlabel"];
        Expr ["plt.ylabel"]] |};
  {| cell_id := "23319dc6";
     cell_code :=
      [ Expr ["np.mean"; "print"];
        Expr ["np.cov"; "np.round"; "print"]] |};
  {| cell_id := "2bdaaccf";
     cell_code :=
      [ Assign [TName "T"; TName "Y"] ["ct.forced_response"];
        Expr ["plt.plot"];
        Expr ["plt.xlabel"];
        Expr ["plt.ylabel"]] |};
  {| cell_id := "d31ce324";
     cell_code :=
      [ Def "r" ["tau"]
          [ Return ["abs"; "exp"]];
        Expr ["np.mean"; "np.mean().item"; "print"];
        Expr ["r"; "r().item"; "np.cov"; "np.cov().item"; "print"]] |};
  {| cell_id := "1cf5a4b1";
     cell_code :=
      [ Assign [TName "tau"; TName "r_V"] ["ct.correlation"];
        Expr ["plt.plot"];
        Expr ["plt.xlabel"];
        Expr ["plt.ylabel"]] |};
  {| cell_id := "62af90a4";
     cell_code :=
      [ Assign [TName "tau"; TName "r_Y"] ["ct.correlation"];
        Expr ["plt.plot"];
        Expr ["plt.xlabel"];
        Expr ["plt.ylabel"];
        Expr ["r"; "plt.plot"]] |};
  {| cell_id := "bd5dfc75";
     cell_code :=
      [ Assign [TName "r_avg"] ["np.zeros_like"];
        For ["range"]
          [ Assign [TName "V"] ["ct.white_noise"];
            Assign [TName "_"; TName "Y"] ["ct.forced_response"];
            Assign [TName "tau"; TName "r_Y"] ["ct.correlation"];
            Assign [TName "r_avg"] []];
        Assign [TName "r_avg"] [];
        Expr ["plt.plot"];
        Expr ["plt.xlabel"];
        Expr ["plt.ylabel"];
        Expr ["r"; "plt.plot"]] |};
  {| cell_id := "8df16a23";
     cell_code :=
      [ Assign [TName "sigma_z"] [];
        Assign [TName "T"] [];
        Assign [TName "filter"] ["sqrt"; "ct.ss"];
        Assign [TName "timepts"] ["np.linspace"];
        Assign [TName "V"] ["ct.white_noise"];
        Assign [TName "resp"] ["ct.input_output_response"];
        Expr ["plt.plot"]] |};
  {| cell_id := "febc8b80";
     cell_code :=
      [ Assign [TName "tau"; TName "R"] ["ct.correlation"];
        Def "dryden_corrfcn" ["tau"; "sigma_z"; "T"]
          [ Return ["np.abs"; "np.exp"; "np.abs"]];
        Assign [TName "fig"; TName "axs"] ["plt.subplots"];
        Expr ["axs[].plot"];
        Expr ["dryden_corrfcn"; "axs[].plot"];
        Expr ["axs[].set_xlabel"];
        Expr ["axs[].set_ylabel"];
        Expr ["axs[].set_title"];
        Assign [TName "dt"] [];
        Assign [TName "S"] ["sp.fft.rfft"];
        Assign [TName "omega"] ["sp.fft.rfftfreq"];
        Def "dryden_psd" ["omega"; "sigma_z"; "T"]
          [ Return []];
        Expr ["np.abs"; "axs[].loglog"];
        Expr ["dryden_psd"; "axs[].loglog"];
        Expr ["axs[].set_xlabel"];
        Expr ["axs[].set_ylabel"];
        Expr ["axs[].set_title"];
        Expr ["plt.tight_layout"]] |};
  {| cell_id := "1516ff6a";
     cell_code :=
      [] |}
].

(** "Nonlinear Dynamics (and Control) of an Inverted Pendulum System",
    CDS 110 Lecture 2 ([src/examples/cds110-L2_invpend-dynamics.ipynb]).
    Its cells carry no id: [cell-k] is the cell at position [k] among all
    cells of the notebook, markdown cells included, counted from 0. *)
Definition invpend_dynamics : notebook := [
  {| cell_id := "cell-1";
     cell_code :=
      [ Import "numpy";
        Import "matplotlib.pyplot";
        Import "math";
        Try
          [ Import "control";
            Expr ["print"]]
          "ImportError"
          [ Shell "pip install control";
            Import "control"]] |};
  {| cell_id := "cell-4";
     cell_code :=
      [ Assign [TName "invpend_params"] [];
        Def "invpend_update" ["t"; "x"; "u"; "params"]
          [ Assign [TName "m"; TName "l"; TName "b"; TName "g"] [];
            Assign [TName "umax"] ["params.get"];
            Assign [TName "usat"] ["np.clip"];
            Return ["np.sin"]];
        Assign [TName "invpend"] ["ct.nlsys"];
        Expr ["print"]] |};
  {| cell_id := "cell-7";
     cell_code :=
      [ Expr ["ct.phase_plane_plot"];
        Expr ["plt.plot"];
        Expr ["plt.plot"]] |};
  {| cell_id := "cell-10";
     cell_code :=
      [ Def "propctrl_output" ["t"; "x"; "u"; "params"]
          [ Assign [TName "kp"] ["params.get"];
            Return []];
        Assign [TName "propctrl"] ["ct.nlsys"];
        Expr ["print"]] |};
  {| cell_id := "cell-12";
     cell_code :=
      [ Assign [TName "clsys"] ["ct.interconnect"];
        Expr ["print"]] |};
  {| cell_id := "cell-15";
     cell_code :=
      [ For []
          [ Expr ["clsys.linearize"; "clsys.linearize().poles"; "print"]]] |};
  {| cell_id := "cell-18";
     cell_code :=
      [ Expr ["ct.phase_plane_plot"]] |};
  {| cell_id := "cell-21";
     cell_code :=
      [ Assign [TName "kp_params"] [];
        Expr ["ct.phase_plane_plot"];
        Expr ["plt.plot"];
        Expr ["plt.plot"]] |};
  {| cell_id := "cell-22";
     cell_code :=
      [ Assign [TName "fig"; TName "axs"] ["plt.subplots"];
        For ["enumerate"]
          [ For ["enumerate"]
              [ Expr ["ct.phase_plane_plot"];
                Expr ["axs[].set_title"]]];
        Expr ["plt.tight_layout"]] |};
  {| cell_id := "cell-24";
     cell_code :=
      [ Assign [TName "P"] ["invpend.linearize"];
        Assign [TName "K"] ["ct.place"];
        Expr ["print"]] |};
  {| cell_id := "cell-25";
     cell_code :=
      [ Def "statefbk_output" ["t"; "x"; "u"; "params"]
          [ Assign [TName "K"] ["np.array"; "params.get"];
            Return []];
        Assign [TName "statefbk"] ["ct.nlsys"];
        Expr ["print"]] |};
  {| cell_id := "cell-26";
     cell_code :=
      [ Assign [TName "clsys_sf"] ["ct.interconnect"];
        Expr ["print"]] |};
  {| cell_id := "cell-28";
     cell_code :=
      [ Expr ["ct.phase_plane_plot"];
        Expr ["plt.plot"];
        Expr ["plt.plot"]] |};
  {| cell_id := "cell-31";
     cell_code :=
      [] |}
].

Definition all_notebooks : notebook :=
  lqr_tracking ++ frequency_domain ++ lq_optimal_control
  ++ stochastic_response ++ invpend_dynamics.

(** A statement and the statements nested in it. *)
Fixpoint substmts (s : stmt) : list stmt :=
  s :: match s with
       | Def _ _ b | For _ b => concat (List.map substmts b)
       | If _ b e => concat (List.map substmts b) ++ concat (List.map substmts e)
       | Try b _ h => concat (List.map substmts b) ++ concat (List.map substmts h)
       | _ => []
       end.

(** A statement and the statements nested in it, the bodies of function
    definitions left out. *)
Fixpoint outside_defs (s : stmt) : list stmt :=
  s :: match s with
       | For _ b => concat (List.map outside_defs b)
       | If _ b e =>
           concat (List.map outside_defs b) ++ concat (List.map outside_defs e)
       | Try b _ h =>
           concat (List.map outside_defs b) ++ concat (List.map outside_defs h)
       | _ => []
       end.

(** What [f] picks from the statements of a notebook that are not in the
    body of a function definition. *)
Definition pick_outside_defs {A} (f : stmt -> list A) (nb : notebook) :
    list (string * A) :=
  concat (List.map (fun c =>
    List.map (fun a => (cell_id c, a))
      (concat (List.map f (concat (List.map outside_defs (cell_code c)))))) nb).

Definition cell_stmts (c : cell) : list stmt :=
  concat (List.map substmts (cell_code c)).

(** What [f] picks from the statements of a notebook, each with the id of
    its cell. *)
Definition pick {A} (f : stmt -> list A) (nb : notebook) : list (string * A) :=
  concat (List.map (fun c =>
    List.map (fun a => (cell_id c, a)) (concat (List.map f (cell_stmts c)))) nb).

(** The names of the functions whose body has a statement that [f] picks. *)
Definition defs_with {A} (f : stmt -> list A) (nb : notebook) : list string :=
  snd <$> pick (fun s =>
    match s with
    | Def name _ body =>
        match concat (List.map f (concat (List.map substmts body))) with
        | [] => []
        | _ => [name]
        end
    | _ => []
    end) nb.

Definition def_name (s : stmt) : list string :=
  match s with Def name _ _ => [name] | _ => [] end.
Definition try_exn (s : stmt) : list string :=
  match s with Try _ exn _ => [exn] | _ => [] end.
Definition raise_exn (s : stmt) : list string :=
  match s with RaiseStmt exn => [exn] | _ => [] end.
Definition shell_cmd (s : stmt) : list string :=
  match s with Shell cmd => [cmd] | _ => [] end.
Definition if_stmt (s : stmt) : list unit :=
  match s with If _ _ _ => [()] | _ => [] end.
Definition attr_target (s : stmt) : list (string * string) :=
  match s with
  | Assign targets _ =>
      concat (List.map (fun t =>
        match t with TAttr obj attr => [(obj, attr)] | _ => [] end) targets)
  | _ => []
  end.
Definition item_target (s : stmt) : list string :=
  match s with
  | Assign targets _ =>
      concat (List.map (fun t =>
        match t with TItem obj => [obj] | _ => [] end) targets)
  | _ => []
  end.
Definition handler_shell (s : stmt) : list (string * string) :=
  match s with
  | Try _ exn handler =>
      List.map (fun cmd => (exn, cmd))
        (concat (List.map shell_cmd (concat (List.map substmts handler))))
  | _ => []
  end.
Definition calls_of (s : stmt) : list string :=
  match s with
  | Assign _ c | Expr c | Return c | If c _ _ | For c _ => c
  | _ => []
  end.

(** The calls of [callee], by the names the result is assigned to. *)
Definition assigned_from (callee : string) (s : stmt) : list (list target) :=
  match s with
  | Assign targets c => if bool_decide (callee ∈ c) then [targets] else []
  | _ => []
  end.

(** The code of the cell [id]. *)
Definition cell_of (id : string) (nb : notebook) : list stmt :=
  concat (List.map (fun c =>
    if bool_decide (cell_id c = id) then cell_code c else []) nb).

(** What a call does outside the values it computes, as the library that
    defines it documents it: nothing, a line on the console, a change of an
    in-memory figure, a change of the settings of the running process, or a
    file written.  The table lists every callee of the notebooks (functions
    of NumPy, SciPy, Matplotlib and python-control, Python built-ins, and
    the notebooks' own functions) and, so that a cell that wrote a file
    would be found, the functions of the same libraries and of Python that
    write files.  A callee that the table does not list has no known
    effect. *)
Inductive effect := Computes | Prints | Draws | Configures | WritesFile.

Definition library_effects : list (effect * list string) := [
  (WritesFile,
    [
     "open"; "fig.savefig"; "plt.savefig"; "plt.imsave"; "np.save";
     "np.savetxt"; "np.savez"; "np.savez_compressed"; "sp.io.savemat";
     "sp.io.wavfile.write"
    ]);
  (Prints,
    [
     "print"
    ]);
  (Draws,
    [
     "ax1.loglog"; "ax1.set_title"; "ax1.xaxis.set_major_formatter";
     "ax1.yaxis.set_major_formatter"; "ax3.set_title"; "axs[].loglog";
     "axs[].plot"; "axs[].set_title"; "axs[].set_xlabel";
     "axs[].set_ylabel"; "cplt.set_plot_title"; "ct.bode_plot";
     "ct.frequency_response().plot"; "ct.gangof4";
     "ct.initial_response().plot"; "ct.nyquist_plot";
     "ct.phase_plane_plot"; "ct.step_response().plot";
     "fig.align_labels"; "freqresp.plot"; "plot_lanechange"; "plt.axis";
     "plt.figure"; "plt.legend"; "plt.plot"; "plt.subplot";
     "plt.subplots"; "plt.suptitle"; "plt.text"; "plt.tight_layout";
     "plt.title"; "plt.xlabel"; "plt.ylabel"
    ]);
  (Configures,
    [
     "ct.set_defaults"; "plt.rcParams.update"
    ]);
  (Computes,
    [
     "(binop).zeros"; "L.poles"; "L.zeros"; "Lnew"; "P"; "P.poles";
     "P.zeros"; "Prhs.reshape"; "ValueError"; "abs"; "clsys.linearize";
     "clsys.linearize().poles"; "ct.correlation";
     "ct.create_statefbk_iosystem"; "ct.feedback"; "ct.forced_response";
     "ct.frequency_response"; "ct.initial_response";
     "ct.input_output_response"; "ct.interconnect"; "ct.lqr";
     "ct.margin"; "ct.nlsys"; "ct.nyquist_response"; "ct.place";
     "ct.ss"; "ct.step_response"; "ct.tf"; "ct.white_noise";
     "dryden_corrfcn"; "dryden_psd"; "enumerate"; "exp";
     "fs.FlatSystem"; "invpend.linearize"; "kincar.linearize"; "map";
     "np.abs"; "np.arctan2"; "np.argmin"; "np.array"; "np.block";
     "np.clip"; "np.cos"; "np.cov"; "np.cov().item"; "np.diag";
     "np.exp"; "np.eye"; "np.hstack"; "np.imag"; "np.linalg.inv";
     "np.linspace"; "np.logspace"; "np.mean"; "np.mean().item";
     "np.min"; "np.ones_like"; "np.outer"; "np.real"; "np.reshape";
     "np.round"; "np.sin"; "np.sum"; "np.tan"; "np.vstack"; "np.zeros";
     "np.zeros_like"; "params.get"; "r"; "r().item"; "range";
     "servomech.linearize"; "sp.fft.rfft"; "sp.fft.rfftfreq";
     "sp.integrate.solve_ivp"; "sp.interpolate.interp1d"; "sqrt";
     "ticker.StrMethodFormatter"
    ])
].

Definition effect_of (callee : string) : option effect :=
  head (concat (List.map (fun '(e, names) =>
    if bool_decide (callee ∈ names) then [e] else []) library_effects)).

Definition unlisted_call (s : stmt) : list string :=
  List.filter (fun c => match effect_of c with None => true | _ => false end)
    (calls_of s).

(** The calls of a statement that write a file. *)
Definition file_writing_call (s : stmt) : list string :=
  List.filter
    (fun c => match effect_of c with Some WritesFile => true | _ => false end)
    (calls_of s).

End Outline.

(** ** Linear systems, and the nonlinear systems the notebooks construct *)

Module Systems.

(** A linear time-invariant system object: its numerical data (state-space
    matrices, or the coefficients of a transfer function) and its name. *)
Record lti (D : Type) := { lti_data : D; lti_name : string }.
Arguments lti_data {D} _.
Arguments lti_name {D} _.

(** [obj.name = n] *)
Definition set_name {D} (obj : lti D) (n : string) : lti D :=
  {| lti_data := lti_data obj; lti_name := n |}.

(** A call [ct.nlsys(updfcn, outfcn=None, params=None, ...)] or
    [fs.FlatSystem(forward, reverse, updfcn=None, outfcn=None, ...)]: the
    cell of the call, the variable the system is assigned to, the notebook
    functions passed as update and output function ([None] when the
    argument is [None] or left out), and the parameter dictionary passed,
    if any. *)
Record construction := {
  in_cell : string;
  bound_to : string;
  updfcn : option string;
  outfcn : option string;
  params : option (gmap string pyval)
}.

Definition servomech : construction :=
  {| in_cell := "27bb3c38"; bound_to := "servomech";
     updfcn := Some "servomech_update"; outfcn := Some "servomech_output";
     params := Some Servomech.servomech_params |}.

Definition invpend : construction :=
  {| in_cell := "cell-4"; bound_to := "invpend";
     updfcn := Some "invpend_update"; outfcn := None;
     params := Some Invpend.invpend_params |}.

Definition propctrl : construction :=
  {| in_cell := "cell-10"; bound_to := "propctrl";
     updfcn := None; outfcn := Some "propctrl_output";
     params := None |}.

Definition statefbk : construction :=
  {| in_cell := "cell-25"; bound_to := "statefbk";
     updfcn := None; outfcn := Some "statefbk_output";
     params := None |}.

Definition kincar : construction :=
  {| in_cell := "48c1bd7f-0db6-4488-af41-41f685280ec9"; bound_to := "kincar";
     updfcn := Some "_kincar_update"; outfcn := Some "_kincar_output";
     params := None |}.

Definition constructions : list construction :=
  [servomech; invpend; propctrl; statefbk; kincar].

(** Every value of the dictionary is a number. *)
Definition all_scalar (p : gmap string pyval) : Prop :=
  forall (k : string) (v : pyval), p !! k = Some v -> exists r, v = VNum r.

End Systems.

(** ** The import cells and the Python environment *)

Module Env.

(** The part of the world that the statements of an import cell ask to
    change: the packages installed in the Python environment (files on
    disk, which outlive the process), whether the package index can be
    reached, what the index installs along with a package (the
    dependencies that [pip] resolves), the version of [control] that is or
    would be installed, and, inside the running process, the modules
    imported, the lines printed and whether Matplotlib's defaults were
    replaced.  Files that the interpreter or an imported library writes on
    its own account (bytecode caches, Matplotlib's font cache) are not
    tracked. *)
Record world := {
  installed : gset string;
  online : bool;
  requires : string -> gset string;
  control_version : string;
  loaded : gset string;
  console : list string;
  rc_updated : bool
}.

Definition action := world -> result unit * world.

(** Modules of the Python standard library. *)
Definition builtin_modules : gset string := {[ "math"; "time" ]}.

Definition and_then (a b : action) : action := fun w =>
  match a w with
  | (Ok _, w') => b w'
  | (r, w') => (r, w')
  end.

(** [import m], for a top-level package [m] ([matplotlib] for
    [import matplotlib.pyplot]). *)
Definition import_module (m : string) : action := fun w =>
  if decide (m ∈ builtin_modules ∪ installed w) then
    (Ok (),
     {| installed := installed w; online := online w; requires := requires w;
        control_version := control_version w;
        loaded := {[ m ]} ∪ loaded w;
        console := console w; rc_updated := rc_updated w |})
  else (Raise (ImportError m), w).

(** [print(...)] *)
Definition print (line : string) : action := fun w =>
  (Ok (),
   {| installed := installed w; online := online w; requires := requires w;
      control_version := control_version w; loaded := loaded w;
      console := console w ++ [line]; rc_updated := rc_updated w |}).

(** [!pip install pkg]: a shell escape; it installs the package and what
    the index installs along with it when the index can be reached, and
    raises nothing when it cannot. *)
Definition pip_install (pkg : string) : action := fun w =>
  (Ok (),
   {| installed :=
        if online w then {[ pkg ]} ∪ requires w pkg ∪ installed w
        else installed w;
      online := online w; requires := requires w;
      control_version := control_version w;
      loaded := loaded w; console := console w;
      rc_updated := rc_updated w |}).

(** [plt.rcParams.update(ct.rcParams)] *)
Definition update_rcparams : action := fun w =>
  (Ok (),
   {| installed := installed w; online := online w; requires := requires w;
      control_version := control_version w; loaded := loaded w;
      console := console w; rc_updated := true |}).

(** [try: body except ImportError: handler] *)
Definition try_except_ImportError (body handler : action) : action := fun w =>
  match body w with
  | (Raise (ImportError _), w') => handler w'
  | r => r
  end.

(** The [try] statement of both import cells. *)
Definition import_control : action :=
  try_except_ImportError
    (and_then (import_module "control")
              (fun w => print ("python-control " +:+ control_version w) w))
    (and_then (pip_install "control") (import_module "control")).

(** The import cell of the frequency-domain notebook. *)
Definition import_cell_L7 : action :=
  and_then (import_module "numpy")
  (and_then (import_module "matplotlib")
  (and_then (import_module "math")
  (and_then import_control update_rcparams))).

(** The import cell of the inverted-pendulum notebook. *)
Definition import_cell_L2 : action :=
  and_then (import_module "numpy")
  (and_then (import_module "matplotlib")
  (and_then (import_module "math") import_control)).

(** A fresh environment with NumPy and Matplotlib but without [control],
    whose index installs NumPy, SciPy and Matplotlib along with
    [control]. *)
Definition fresh_colab : world :=
  {| installed := {[ "numpy"; "matplotlib" ]}; online := true;
     requires := fun pkg =>
       if decide (pkg = "control")
       then {[ "numpy"; "scipy"; "matplotlib" ]} else ∅;
     control_version := "0.10.1"; loaded := ∅; console := [];
     rc_updated := false |}.

End Env.

(** ** Right hand sides as functions of the state *)

Module Linearized.
Local Open Scope R_scope.

(** Component [i] of [servomech_update] at the state [[x0, x1]], for the
    torque [tau] and the notebook's parameters. *)
Definition servomech_rhs (tau : R) (i : nat) (x0 x1 : R) : R :=
  match Servomech.servomech_update 0 [x0; x1] [tau] Servomech.servomech_params with
  | Ok dx => nth i dx 0
  | _ => 0
  end.

(** Component [i] of [invpend_update] at the state [[x0, x1]], for the input
    [u] and the notebook's parameters. *)
Definition invpend_rhs (u : R) (i : nat) (x0 x1 : R) : R :=
  match Invpend.invpend_update 0 [x0; x1] [u] Invpend.invpend_params with
  | Ok dx => nth i dx 0
  | _ => 0
  end.

(** Component [i] of the closed-loop right hand side for the gain [kp] and
    the reference 0, as a function of the state. *)
Definition clsys_rhs0 (kp : R) (i : nat) (x0 x1 : R) : R :=
  Invpend.clsys_rhs kp i x0 x1 0.

(** Component [i] of [_kincar_update] at the state [x] and the input [u]. *)
Definition kincar_rhs (params : gmap string pyval) (i : nat)
    (x u : list R) : R :=
  match Kincar._kincar_update 0 x u params with
  | Ok dx => nth i dx 0
  | _ => 0
  end.

(** Entry [[i][j]] of the flat flag of the state [x] and the input [u]. *)
Definition flag_entry (params : gmap string pyval) (i j : nat)
    (x u : list R) : R :=
  match Kincar._kincar_flat_forward x u params with
  | Ok z => Riccati.entry z i j
  | _ => 0
  end.

(** The partial derivative of [f] at [x] with respect to entry [j] of its
    argument is [d]. *)
Definition partial (f : list R -> R) (x : list R) (j : nat) (d : R) : Prop :=
  derivable_pt_lim (fun h => f (<[j := h]> x)) (nth j x 0) d.

(** [kincar.linearize(x, u)] (default parameters): a linear system whose matrices [A] and [B] are
    the Jacobians of the right hand side with respect to the state and to
    the input. *)
Definition is_linearization (x u : list R) (S : Riccati.linsys) : Prop :=
  Riccati.is_shape 3 3 (Riccati.sys_A S) /\
  Riccati.is_shape 3 2 (Riccati.sys_B S) /\
  forall i, (i < 3)%nat ->
    (forall j, (j < 3)%nat ->
       partial (fun x' => kincar_rhs ∅ i x' u) x j
         (Riccati.entry (Riccati.sys_A S) i j)) /\
    (forall j, (j < 2)%nat ->
       partial (fun u' => kincar_rhs ∅ i x u') u j
         (Riccati.entry (Riccati.sys_B S) i j)).

End Linearized.

(** ** The closed-loop dynamics of the optimal control notebook *)

Module Regulator.
Import Riccati.
Local Open Scope R_scope.

(** [-M], [M @ x] for a vector [x], and [x + y] on vectors. *)
Definition mopp (M : matrix) : matrix :=
  (fun row : list R => Ropp <$> row) <$> M.
Definition matvec (M : matrix) (x : list R) : list R :=
  (fun row : list R => dot row x) <$> M.
Definition vadd (x y : list R) : list R := zip_with Rplus x y.

Section Cell.

Variable np_linalg_inv : matrix -> matrix.
Variable sys : linsys.
Variable Qu : matrix.

(** [P]: the interpolant of the Riccati solution, which raises outside the
    range of its knots. *)
Variable P : R -> result matrix.

(** [xdot_forward(t, x)]; the products associate to the left and the unary
    minus applies to the inverse. *)
Definition xdot_forward (t : R) (x : list R) : result (list R) :=
  let W := mopp (np_linalg_inv Qu) in
  let WBt := matmul W (transpose (sys_B sys)) in
  Pt ← P t;
  let u := matvec (matmul WBt Pt) x in
  Ok (vadd (matvec (sys_A sys) x) (matvec (sys_B sys) u)).

End Cell.

End Regulator.

(** ** The functions of the stochastic response notebook *)

Module Stochastic.
Import Riccati Regulator.
Local Open Scope R_scope.

(** [s * M], [M * s] and [M / d] for an array [M] and scalars [s], [d];
    NumPy's division by zero gives [inf] or [nan]. *)
Definition scale_l (s : R) (M : matrix) : matrix :=
  (fun row : list R => (fun v => s * v) <$> row) <$> M.
Definition scale_r (M : matrix) (s : R) : matrix :=
  (fun row : list R => (fun v => v * s) <$> row) <$> M.
Definition np_div_array (M : matrix) (d : R) : result matrix :=
  if Req_dec_T d 0 then NonReal
  else Ok ((fun row : list R => (fun v => v / d) <$> row) <$> M).

(** The globals of the first order system. *)
Definition a : R := 1.
Definition c : R := 1.
Definition Q : matrix := [[1 / 10]].

(** [r(tau)], which reads the globals [a], [c] and [Q]; [exp] is
    [math.exp], here on a real number. *)
Definition r (a c : R) (Q : matrix) (tau : R) : result matrix :=
  q ← np_div_array (scale_l (c ^ 2) Q) (2 * a);
  Ok (scale_r q (exp (- a * Rabs tau))).

(** [dryden_corrfcn(tau, sigma_z=1, T=1)], at one lag [tau]. *)
Definition dryden_corrfcn (tau sigma_z T : R) : result R :=
  e ← np_div (- Rabs tau) T;
  h ← np_div (Rabs tau) (2 * T);
  Ok (sigma_z ^ 2 * exp e * (1 - h)).

(** [dryden_psd(omega, sigma_z=1., T=1.)], at one frequency [omega]. *)
Definition dryden_psd (omega sigma_z T : R) : result R :=
  np_div (sigma_z ^ 2 * T * (1 + 3 * (omega * T) ^ 2))
         ((1 + (omega * T) ^ 2) ^ 2).

(** The data of a state space system with one input and one output. *)
Record statespace := {
  ss_A : matrix;
  ss_B : matrix;
  ss_C : matrix;
  ss_D : R
}.

(** The Dryden filter [ct.ss(...)] as a function of the global [T] (a
    Python number, so that division by zero raises). *)
Definition filter (T : R) : result statespace :=
  a10 ← div (- 1) (T ^ 2);
  a11 ← div (- 2) T;
  c0 ← div 1 (T ^ 2);
  c1 ← div (sqrt 3) T;
  Ok {| ss_A := [[0; 1]; [a10; a11]]; ss_B := [[0]; [1]];
        ss_C := [[c0; c1]]; ss_D := 0 |}.

(** The frequency response [H = C (s I - A)^-1 B + D] of a system with two
    states at the complex frequency [s], stated through the state [x] that
    solves [(s I - A) x = B]. *)
Definition Cadd (z w : R * R) : R * R := (fst z + fst w, snd z + snd w).
Definition Cscale (k : R) (z : R * R) : R * R := (k * fst z, k * snd z).
Definition is_response (sys : statespace) (s H : R * R) : Prop :=
  exists x0 x1 : R * R,
    Invpend.Csub (Invpend.Cmul s x0)
      (Cadd (Cscale (entry (ss_A sys) 0 0) x0)
            (Cscale (entry (ss_A sys) 0 1) x1))
      = Invpend.Creal (entry (ss_B sys) 0 0) /\
    Invpend.Csub (Invpend.Cmul s x1)
      (Cadd (Cscale (entry (ss_A sys) 1 0) x0)
            (Cscale (entry (ss_A sys) 1 1) x1))
      = Invpend.Creal (entry (ss_B sys) 1 0) /\
    H = Cadd (Cadd (Cscale (entry (ss_C sys) 0 0) x0)
                   (Cscale (entry (ss_C sys) 0 1) x1))
             (Invpend.Creal (ss_D sys)).

(** The cell that averages the correlation over one hundred runs. *)
Section Averaging.

(** [r_Y] as computed in iteration [i] (the correlation of the response to
    a fresh sample of white noise), and [r_Y] as the cell finds it. *)
Variable correlation : nat -> list R.
Variable r_Y : list R.

Definition zeros_like (v : list R) : list R := (fun _ => 0) <$> v.

(** [for i in range(100): r_avg = r_avg + r_Y] *)
Definition r_avg_loop : list R :=
  foldl (fun acc i => vadd acc (correlation i)) (zeros_like r_Y) (seq 0 100).

(** The value of [i] after the loop. *)
Definition i_after_loop : nat := List.last (seq 0 100) 0%nat.

(** [r_avg = r_avg / i] *)
Definition r_avg : result (list R) :=
  if Req_dec_T (INR i_after_loop) 0 then NonReal
  else Ok ((fun v => v / INR i_after_loop) <$> r_avg_loop).

End Averaging.

End Stochastic.

(** ** The system and the augmented system of the LQR tracking notebook *)

Module Tracking.
Import Riccati Regulator.
Local Open Scope R_scope.

(** The matrices [A] and [B] of [sys = ct.ss([[0, 10], [-1, 0]], [[0], [1]],
    np.eye(2), 0)], and the output selection [C] of the integral action. *)
Definition sys : linsys :=
  {| sys_A := [[0; 10]; [- 1; 0]]; sys_B := [[0]; [1]] |}.
Definition C : matrix := [[1; 0]].

(** [np.zeros((r, c))], a row of blocks of [np.block] (side by side), and a
    scalar as a block. *)
Definition np_zeros (r c : nat) : matrix := replicate r (replicate c 0).
Definition block_row (M N : matrix) : matrix := zip_with app M N.
Definition scalar_block (v : R) : matrix := [[v]].

(** [A_aug] and [B_aug], as functions of the globals [sys] and [C]. *)
Definition A_aug (sys : linsys) (C : matrix) : matrix :=
  block_row (sys_A sys) (np_zeros (nstates sys) 1)
  ++ block_row C (scalar_block 0).
Definition B_aug (sys : linsys) : matrix := sys_B sys ++ scalar_block 0.

(** The right hand side [A x + B u] of a linear system. *)
Definition rhs (A B : matrix) (x u : list R) : list R :=
  vadd (matvec A x) (matvec B u).

End Tracking.

(** ** The state feedback controller of the inverted pendulum notebook *)

Module StateFeedback.
Import Riccati.
Local Open Scope R_scope.

(** The values of a parameter that may hold an array: a number, a
    one-dimensional array or a two-dimensional array. *)
Inductive pyarr :=
  | ANum (r : R)
  | AVec (v : list R)
  | AMat (M : matrix).

(** [-K] *)
Definition np_neg (K : pyarr) : pyarr :=
  match K with
  | ANum r => ANum (- r)
  | AVec v => AVec (Ropp <$> v)
  | AMat M => AMat ((fun row : list R => Ropp <$> row) <$> M)
  end.

(** [a - b] on one-dimensional arrays, with NumPy's broadcasting of an
    array of length one. *)
Definition np_sub (a b : list R) : result (list R) :=
  if decide (length a = length b) then Ok (zip_with Rminus a b)
  else if decide (length b = 1%nat) then Ok ((fun v => v - nth 0 b 0) <$> a)
  else if decide (length a = 1%nat) then Ok ((fun v => nth 0 a 0 - v) <$> b)
  else Raise (ValueError "operands could not be broadcast together" VNone).

(** [K @ v] for a one-dimensional [v]: a number for a one-dimensional [K],
    one entry per row for a two-dimensional [K]; the result is given as the
    list of its entries. *)
Definition np_matmul (K : pyarr) (v : list R) : result (list R) :=
  match K with
  | ANum _ =>
      Raise (ValueError "matmul: operand does not have enough dimensions" VNone)
  | AVec k =>
      if decide (length k = length v) then Ok [dot k v]
      else Raise (ValueError "matmul: mismatch in core dimension" VNone)
  | AMat M =>
      if decide (Forall (fun row => length row = length v) M)
      then Ok ((fun row : list R => dot row v) <$> M)
      else Raise (ValueError "matmul: mismatch in core dimension" VNone)
  end.

(** [statefbk_output(t, x, u, params)] *)
Definition statefbk_output (t : R) (x u : list R)
    (params : gmap string pyarr) : result (list R) :=
  let K := default (AVec [0; 0]) (params !! "K") in
  let mK := np_neg K in
  d ← np_sub (take 2 u) (drop 2 u);
  np_matmul mK d.

(** The closed loop
    [clsys_sf = ct.interconnect([invpend, statefbk], inputs=['theta_d',
    'thdot_d'], outputs=['theta', 'tau'], params={'kp': 1})], evaluated with
    the parameters [params] of the call: the controller reads the states of
    the pendulum and the two external inputs, and its one output [tau] is
    the input of the pendulum, which is evaluated with its own parameters
    (the array-valued [K] is not among those it reads). *)
Definition clsys_sf_update (t : R) (x r : list R)
    (params : gmap string pyarr) : result (list R) :=
  theta ← index x 0;
  thdot ← index x 1;
  theta_d ← index r 0;
  thdot_d ← index r 1;
  out ← statefbk_output t [] [theta; thdot; theta_d; thdot_d] params;
  match out with
  | [tau] =>
      Invpend.invpend_update t x [tau]
        (Invpend.clsys_params ∪ Invpend.invpend_params)
  | _ => Raise (ValueError "could not broadcast output" VNone)
  end.

(** Component [i] of the closed-loop right hand side for the gain [K] and
    the reference [[0, 0]], as a function of the state. *)
Definition clsys_sf_rhs (K : pyarr) (i : nat) (x0 x1 : R) : R :=
  match clsys_sf_update 0 [x0; x1] [0; 0] {[ "K" := K ]} with
  | Ok dx => nth i dx 0
  | _ => 0
  end.

End StateFeedback.

(** * Properties *)

Section ServomechFacts.
Import Servomech.
Local Open Scope R_scope.

(** C9.  With the notebook parameters (J = 100, b = 10, k = 1, r = 1), the
    torque [u_e = k * r * sin(theta_e)] computed by the linearization cell
    holds the arm at [theta_e]: for every time [t] and angle [theta_e],
    [servomech_update(t, [theta_e, 0], [u_e], params)] is the zero vector. *)
Theorem servomech_equilibrium (t theta_e : R) :
  exists ue,
    u_e servomech_params theta_e = Ok ue /\
    ue = 1 * 1 * sin theta_e /\
    servomech_update t [theta_e; 0] [ue] servomech_params = Ok [0; 0].
Proof.
  exists (1 * 1 * sin theta_e).
  split; [reflexivity|]. split; [reflexivity|].
  unfold servomech_update.
  change (get servomech_params "J" VNone) with (VNum 100).
  change (get servomech_params "b" VNone) with (VNum 10).
  change (get servomech_params "k" VNone) with (VNum 1).
  change (get servomech_params "r" VNone) with (VNum 1).
  cbn.
  unfold div. destruct (Req_dec_T 100 0) as [E|_]; [lra|].
  cbn. do 2 f_equal. f_equal. field.
Qed.

End ServomechFacts.

Section InvpendFacts.
Import Invpend.
Local Open Scope R_scope.

Lemma clip_sign_saturated (a umax : R) :
  umax <= Rabs a ->
  np_clip (np_sign a * umax) (- umax) umax = np_clip a (- umax) umax.
Proof.
  unfold np_sign, np_clip, Rabs.
  destruct (Rlt_dec 0 a); [|destruct (Rlt_dec a 0)];
    destruct (Rcase_abs a); intros H;
    unfold Rmin, Rmax; repeat destruct Rle_dec; lra.
Qed.

Lemma usat_cons (a : R) (rest : list R) (params : gmap string pyval) (umax : R) :
  get params "umax" (VNum 1) = VNum umax ->
  usat (a :: rest) params = Ok (np_clip a (- umax) umax).
Proof. intros H. unfold usat. rewrite H. reflexivity. Qed.

Lemma invpend_update_usat (t : R) (x u1 u2 : list R) (params : gmap string pyval) :
  usat u1 params = usat u2 params ->
  invpend_update t x u1 params = invpend_update t x u2 params.
Proof. intros H. unfold invpend_update. rewrite H. reflexivity. Qed.

(** C10.  The pendulum dynamics see the input only through its saturation:
    two inputs whose first components clip to the same value in
    [[-umax, umax]] give the same result of [invpend_update], and an input
    with [|u[0]| >= umax] gives the same result as the input with [u[0]]
    replaced by [sign(u[0]) * umax].  ([umax] is the number stored under
    ['umax'], or 1 when the key is absent.) *)
Theorem invpend_saturation_invariance
    (t : R) (x : list R) (params : gmap string pyval) (umax : R) :
  get params "umax" (VNum 1) = VNum umax ->
  (forall (u1 u2 : list R) (a1 a2 : R),
      u1 !! 0%nat = Some a1 -> u2 !! 0%nat = Some a2 ->
      np_clip a1 (- umax) umax = np_clip a2 (- umax) umax ->
      invpend_update t x u1 params = invpend_update t x u2 params) /\
  (forall (a : R) (rest : list R),
      umax <= Rabs a ->
      invpend_update t x (a :: rest) params =
      invpend_update t x (np_sign a * umax :: rest) params).
Proof.
  intros Hmax. split.
  - intros u1 u2 a1 a2 H1 H2 Hclip. apply invpend_update_usat.
    destruct u1 as [|b1 r1]; [discriminate|].
    destruct u2 as [|b2 r2]; [discriminate|].
    cbn in H1, H2. injection H1 as ->. injection H2 as ->.
    rewrite !(usat_cons _ _ _ umax) by assumption. now rewrite Hclip.
  - intros a rest Ha. apply invpend_update_usat.
    rewrite !(usat_cons _ _ _ umax) by assumption.
    now rewrite clip_sign_saturated.
Qed.

End InvpendFacts.

(** A concrete instance: inputs 2 and 5 both saturate at 1, and -3 saturates
    like [sign(-3) * 1]. *)
Lemma invpend_saturation_witness :
  Invpend.invpend_update 0 [0; 0]%R [2]%R Invpend.invpend_params =
  Invpend.invpend_update 0 [0; 0]%R [5]%R Invpend.invpend_params /\
  Invpend.invpend_update 0 [0; 0]%R [-3]%R Invpend.invpend_params =
  Invpend.invpend_update 0 [0; 0]%R [np_sign (-3) * 1]%R Invpend.invpend_params.
Proof.
  destruct (invpend_saturation_invariance 0 [0; 0]%R Invpend.invpend_params 1
              eq_refl) as [H1 H2].
  split.
  - apply (H1 [2]%R [5]%R 2%R 5%R eq_refl eq_refl).
    unfold np_clip, Rmin, Rmax. repeat destruct Rle_dec; lra.
  - apply (H2 (-3)%R []). unfold Rabs. destruct Rcase_abs; lra.
Defined.

Section KincarFacts.
Import Kincar.
Local Open Scope R_scope.

Lemma polar_quotient (r th : R) :
  0 < r -> cos th <> 0 -> r * sin th / (r * cos th) = tan th.
Proof. intros Hr Hc. unfold tan. field. split; lra. Qed.

Lemma tan_shift (th : R) : cos th <> 0 -> tan (th + PI) = tan th.
Proof.
  intros Hc. unfold tan. rewrite neg_sin, neg_cos. field. exact Hc.
Qed.

(** [np.arctan2] inverts polar coordinates on [(-pi, pi]]. *)
Lemma arctan2_polar (r th : R) :
  0 < r -> - PI < th <= PI ->
  np_arctan2 (r * sin th) (r * cos th) = th.
Proof.
  intros Hr [Hlo Hhi]. pose proof PI_RGT_0 as Hpi. unfold np_arctan2.
  destruct (Rlt_dec th (- (PI / 2))) as [Hq3|Hq3].
  - assert (Hc : cos th < 0).
    { rewrite <- cos_neg. apply cos_lt_0; lra. }
    assert (Hs : sin th < 0) by (apply sin_lt_0_var; lra).
    destruct (Rlt_dec 0 (r * cos th)); [nra|].
    destruct (Rlt_dec (r * cos th) 0); [|nra].
    destruct (Rle_dec 0 (r * sin th)); [nra|].
    rewrite polar_quotient by lra.
    rewrite <- tan_shift by lra.
    rewrite atan_tan by lra. lra.
  - destruct (Req_dec th (- (PI / 2))) as [->|Hne1].
    + rewrite cos_neg, sin_neg, cos_PI2, sin_PI2.
      repeat destruct Rlt_dec; lra.
    + destruct (Rlt_dec th (PI / 2)) as [Hq|Hq].
      * assert (Hc : 0 < cos th) by (apply cos_gt_0; lra).
        destruct (Rlt_dec 0 (r * cos th)); [|nra].
        rewrite polar_quotient by lra. apply atan_tan. lra.
      * destruct (Req_dec th (PI / 2)) as [->|Hne2].
        -- rewrite cos_PI2, sin_PI2.
           repeat destruct Rlt_dec; lra.
        -- assert (Hc : cos th < 0) by (apply cos_lt_0; lra).
           assert (Hs : 0 <= sin th) by (apply sin_ge_0; lra).
           destruct (Rlt_dec 0 (r * cos th)); [nra|].
           destruct (Rlt_dec (r * cos th) 0); [|nra].
           destruct (Rle_dec 0 (r * sin th)); [|nra].
           rewrite polar_quotient by lra.
           replace th with ((th - PI) + PI) at 1 by lra.
           assert (Hc' : cos (th - PI) <> 0).
           { intros E. replace th with ((th - PI) + PI) in Hc by lra.
             rewrite neg_cos in Hc. lra. }
           rewrite tan_shift by exact Hc'.
           rewrite atan_tan by lra. lra.
Qed.

Lemma arctan2_right_half (y x : R) : 0 < x -> np_arctan2 y x = atan (y / x).
Proof.
  intros H. unfold np_arctan2. destruct (Rlt_dec 0 x); [reflexivity|lra].
Qed.

Lemma sin2_cos2_scaled (r th : R) :
  r * cos th * cos th + r * sin th * sin th = r.
Proof.
  pose proof (sin2_cos2 th) as H. unfold Rsqr in H.
  replace (r * cos th * cos th + r * sin th * sin th)
    with (r * (sin th * sin th + cos th * cos th)) by ring.
  rewrite H. ring.
Qed.

(** C8, amended.  In exact real arithmetic, under the default parameters
    (wheelbase 3, direction ['f']), for a state [x] with heading in
    [(-pi, pi]] and an input [u] with forward velocity [u[0] > 0] and
    steering angle in [(-pi/2, pi/2)],
    [_kincar_flat_reverse(_kincar_flat_forward(x, u))] returns the pair
    [(x, u)].  On floats the pair need not come back exactly. *)
Theorem kincar_flat_roundtrip (x0 x1 x2 u0 u1 : R) :
  0 < u0 -> - (PI / 2) < u1 < PI / 2 -> - PI < x2 <= PI ->
  (zflag ← _kincar_flat_forward [x0; x1; x2] [u0; u1] ∅;
   _kincar_flat_reverse zflag ∅) = Ok ([x0; x1; x2], [u0; u1]).
Proof.
  intros Hu0 Hu1 Hx2.
  assert (Hcu : 0 < cos u1) by (apply cos_gt_0; lra).
  unfold _kincar_flat_forward.
  change (get ∅ "wheelbase" (VNum 3)) with (VNum 3).
  cbn. unfold np_div, np_tan.
  destruct (Req_dec_T 3 0) as [E|_]; [lra|].
  destruct (Req_dec_T (cos u1) 0) as [E|_]; [lra|].
  cbn. unfold _kincar_flat_reverse.
  change (get ∅ "wheelbase" (VNum 3)) with (VNum 3).
  change (get ∅ "dir" (VStr "f")) with (VStr "f").
  unfold heading. change (is_str (VStr "f") "f") with true.
  cbn. rewrite arctan2_polar by assumption.
  rewrite sin2_cos2_scaled. unfold np_div.
  destruct (Req_dec_T 3 0) as [E|_]; [lra|].
  cbn. do 4 f_equal.
  rewrite arctan2_right_half by (apply Rdiv_lt_0_compat; nra).
  match goal with |- atan ?e = _ => replace e with (tan u1) end.
  - apply atan_tan. lra.
  - pose proof (sin2_cos2 x2) as H. unfold Rsqr in H.
    match goal with |- _ = ?n / ?d =>
      replace n with (d * tan u1 * (sin x2 * sin x2 + cos x2 * cos x2))
        by (field; lra)
    end.
    rewrite H. field. lra.
Qed.

(** The initial condition and the linearization point of the notebook. *)
Lemma kincar_flat_roundtrip_witness :
  (zflag ← _kincar_flat_forward [-40; -2; 0] [10; 0] ∅;
   _kincar_flat_reverse zflag ∅) = Ok ([-40; -2; 0], [10; 0]).
Proof.
  pose proof PI_RGT_0 as Hpi. apply kincar_flat_roundtrip; lra.
Defined.

End KincarFacts.

Section KincarFloatFacts.
Import PrimFloat SpecFloat FloatOps FloatAxioms KincarFloat.

Lemma zero_mul_finite (t : float) :
  is_finite t = true ->
  (0 * t)%float = 0%float \/ (0 * t)%float = (-0)%float.
Proof.
  intros H.
  assert (E : Prim2SF (0 * t)%float = SF64mul (Prim2SF 0%float) (Prim2SF t))
    by apply mul_spec.
  unfold is_finite, is_nan, is_infinity in H.
  rewrite !FloatAxioms.eqb_spec, abs_spec in H.
  destruct (Prim2SF t) as [s|s| |s m e] eqn:Et.
  - destruct s; [right|left]; apply Prim2SF_inj; rewrite E; reflexivity.
  - destruct s; discriminate H.
  - discriminate H.
  - destruct s; [right|left]; apply Prim2SF_inj; rewrite E; reflexivity.
Qed.

Lemma trivial_libm_conforming : conforming trivial_libm.
Proof. repeat split; reflexivity. Qed.

(** At the smallest positive float the quotient [u[0] / b] is rounded to
    zero, and with it the steering angle is lost. *)
Lemma roundtrip_underflow (m : libm) :
  conforming m ->
  roundtrip m [0; 0; 0]%float [0x1p-1074; 0.5]%float
    = Ok ([0; 0; 0]%float, [0x1p-1074; 0]%float) \/
  roundtrip m [0; 0; 0]%float [0x1p-1074; 0.5]%float
    = Ok ([0; 0; 0]%float, [0x1p-1074; -0]%float).
Proof.
  intros (Hc & Hs & Ht & Ha & Ha0 & Ham0).
  assert (Hfin : is_finite (np_tan m 0.5%float) = true)
    by (apply Ht; reflexivity).
  unfold roundtrip, _kincar_flat_forward, _kincar_flat_reverse, heading,
    index2, index, default_wheelbase, default_dir.
  cbn [lookup list_lookup mbind result_bind decide].
  rewrite Hc, Hs.
  change (0x1p-1074 / 3)%float with 0%float.
  destruct (zero_mul_finite _ Hfin) as [E|E]; rewrite E.
  - left. cbv -[np_arctan2 np_cos np_sin np_tan].
    rewrite (Ha 0x1p-1074%float eq_refl), Hc, Hs.
    cbv -[np_arctan2 np_cos np_sin np_tan]. rewrite Ha0. reflexivity.
  - right. cbv -[np_arctan2 np_cos np_sin np_tan].
    rewrite (Ha 0x1p-1074%float eq_refl), Hc, Hs.
    cbv -[np_arctan2 np_cos np_sin np_tan]. unfold neg_zero in Ham0.
    rewrite Ham0. reflexivity.
Qed.

(** C8, as stated, fails on binary64 floats.  The state [[0, 0, 0]] and the
    input [[5e-324, 0.5]] meet its conditions (a positive velocity, a
    steering angle below [1.5 < pi/2], the heading [0]); mathematical
    libraries that conform exist; and with none of them does the round
    trip return the pair it was given: the steering angle comes back as
    zero. *)
Lemma kincar_roundtrip_inexact_in_floats :
  (0 <? 0x1p-1074)%float = true /\
  (abs 0.5 <? 1.5)%float = true /\
  (exists m : libm, conforming m) /\
  ~ exists m : libm, conforming m /\
      roundtrip m [0; 0; 0]%float [0x1p-1074; 0.5]%float
        = Ok ([0; 0; 0]%float, [0x1p-1074; 0.5]%float).
Proof.
  split; [reflexivity|]. split; [reflexivity|].
  split; [exists trivial_libm; exact trivial_libm_conforming|].
  intros (m & Hm & H).
  destruct (roundtrip_underflow m Hm) as [E|E]; rewrite E in H;
    apply (f_equal (fun r => match r with
                             | Ok (_, [_; v]) => (v =? 0.5)%float
                             | _ => true
                             end)) in H;
    vm_compute in H; discriminate H.
Qed.

End KincarFloatFacts.

Section ClosedLoopFacts.
Import Invpend.
Local Open Scope R_scope.

(** The closed-loop right hand side in closed form. *)
Lemma clsys_update_eq (t kp x0 x1 r : R) :
  clsys_update t [x0; x1] [r] {[ "kp" := VNum kp ]} =
  Ok [x1; - (1 / 2) / 1 * x1
          + 1 * 1 / 1 * sin (x0 + np_clip (- kp * (x0 - r)) (- 1) 1 / 1)].
Proof.
  unfold clsys_update, propctrl_output, invpend_update, usat.
  change (get ({[ "kp" := VNum kp ]} ∪ clsys_params) "kp" (VNum 1))
    with (VNum kp).
  change (get ({[ "kp" := VNum kp ]} ∪ clsys_params ∪ invpend_params)
            "umax" (VNum 1)) with (VNum 1).
  change (getitem ({[ "kp" := VNum kp ]} ∪ clsys_params ∪ invpend_params) "m")
    with (Ok (A:=pyval) (VNum 1)).
  change (getitem ({[ "kp" := VNum kp ]} ∪ clsys_params ∪ invpend_params) "l")
    with (Ok (A:=pyval) (VNum 1)).
  change (getitem ({[ "kp" := VNum kp ]} ∪ clsys_params ∪ invpend_params) "b")
    with (Ok (A:=pyval) (VNum (1 / 2))).
  change (getitem ({[ "kp" := VNum kp ]} ∪ clsys_params ∪ invpend_params) "g")
    with (Ok (A:=pyval) (VNum 1)).
  cbn. unfold div. destruct (Req_dec_T 1 0) as [E|_]; [lra|]. reflexivity.
Qed.

Lemma clsys_rhs_0 (kp x0 x1 r : R) : clsys_rhs kp 0 x0 x1 r = x1.
Proof. unfold clsys_rhs. rewrite clsys_update_eq. reflexivity. Qed.

Lemma clsys_rhs_1 (kp x0 x1 r : R) :
  clsys_rhs kp 1 x0 x1 r =
  - (1 / 2) / 1 * x1
  + 1 * 1 / 1 * sin (x0 + np_clip (- kp * (x0 - r)) (- 1) 1 / 1).
Proof. unfold clsys_rhs. rewrite clsys_update_eq. reflexivity. Qed.

(** A derivative at a point only depends on the function near the point. *)
Lemma derivable_pt_lim_local (f g : R -> R) (x l d : R) :
  0 < d ->
  (forall y, Rabs (y - x) < d -> f y = g y) ->
  derivable_pt_lim g x l -> derivable_pt_lim f x l.
Proof.
  intros Hd Hfg Hg eps Heps.
  destruct (Hg eps Heps) as [delta Hdelta].
  assert (Hmin : 0 < Rmin delta d).
  { apply Rmin_glb_lt; [apply cond_pos | exact Hd]. }
  exists (mkposreal (Rmin delta d) Hmin). intros h Hh0 Hh. cbn in Hh.
  rewrite (Hfg (x + h)), (Hfg x).
  - apply Hdelta; [exact Hh0|].
    eapply Rlt_le_trans; [exact Hh | apply Rmin_l].
  - replace (x - x) with 0 by ring. rewrite Rabs_R0. exact Hd.
  - replace (x + h - x) with h by ring.
    eapply Rlt_le_trans; [exact Hh | apply Rmin_r].
Qed.

Lemma derivable_pt_lim_sin_linear (c : R) :
  derivable_pt_lim (fun h => sin (c * h)) 0 c.
Proof.
  assert (H1 : derivable_pt_lim (fun h => c * h) 0 (c * 1)).
  { apply (derivable_pt_lim_scal id c 0 1), derivable_pt_lim_id. }
  pose proof (derivable_pt_lim_comp (fun h => c * h) sin 0 (c * 1)
                (cos (c * 0)) H1 (derivable_pt_lim_sin (c * 0))) as H2.
  replace (cos (c * 0) * (c * 1)) with c in H2.
  - exact H2.
  - rewrite Rmult_0_r, cos_0. ring.
Qed.

(** Near the origin the controller does not saturate. *)
Lemma clip_unsaturated (kp h : R) :
  Rabs h < / (Rabs kp + 1) -> np_clip (- kp * (h - 0)) (- 1) 1 = - kp * h.
Proof.
  intros Hh.
  assert (Hk : 0 < Rabs kp + 1) by (pose proof (Rabs_pos kp); lra).
  assert (Hb : Rabs (kp * h) < 1).
  { rewrite Rabs_mult.
    apply Rle_lt_trans with ((Rabs kp + 1) * Rabs h).
    - pose proof (Rabs_pos h). pose proof (Rabs_pos kp). nra.
    - apply Rmult_lt_reg_l with (/ (Rabs kp + 1)).
      + apply Rinv_0_lt_compat, Hk.
      + rewrite <- Rmult_assoc, Rinv_l, Rmult_1_l, Rmult_1_r by lra.
        exact Hh. }
  apply Rabs_def2 in Hb.
  unfold np_clip, Rmin, Rmax. repeat destruct Rle_dec; lra.
Qed.

(** The state matrix of the closed loop linearized at the origin. *)
Lemma clsys_state_matrix (kp : R) :
  is_state_matrix (fun i x0 x1 => clsys_rhs kp i x0 x1 0) 0 0
    ((0, 1), (1 - kp, - (1 / 2))).
Proof.
  unfold is_state_matrix. repeat split.
  - apply (derivable_pt_lim_local _ (fun _ => 0) _ _ 1); [lra| |].
    + intros y _. apply clsys_rhs_0.
    + apply derivable_pt_lim_const.
  - apply (derivable_pt_lim_local _ id _ _ 1); [lra| |].
    + intros y _. apply clsys_rhs_0.
    + apply derivable_pt_lim_id.
  - assert (Hk : 0 < Rabs kp + 1) by (pose proof (Rabs_pos kp); lra).
    apply (derivable_pt_lim_local _ (fun h => sin ((1 - kp) * h)) _ _
             (/ (Rabs kp + 1))).
    + apply Rinv_0_lt_compat, Hk.
    + intros y Hy. rewrite Rminus_0_r in Hy.
      rewrite clsys_rhs_1, clip_unsaturated by exact Hy.
      replace (y + - kp * y / 1) with ((1 - kp) * y) by field.
      field.
    + apply derivable_pt_lim_sin_linear.
  - apply (derivable_pt_lim_local _ (fun h => - (1 / 2) * h) _ _ 1); [lra| |].
    + intros y _. rewrite clsys_rhs_1.
      replace (np_clip (- kp * (0 - 0)) (- 1) 1) with 0.
      * replace (0 + 0 / 1) with 0 by field. rewrite sin_0. field.
      * unfold np_clip, Rmin, Rmax. repeat destruct Rle_dec; lra.
    + assert (H : derivable_pt_lim (fun h => - (1 / 2) * h) 0 (- (1 / 2) * 1)).
      { apply (derivable_pt_lim_scal id (- (1 / 2)) 0 1), derivable_pt_lim_id. }
      replace (- (1 / 2) * 1) with (- (1 / 2)) in H by ring. exact H.
Qed.

(** A 2 x 2 state matrix in companion form with positive stiffness and
    damping has its poles in the open left half plane. *)
Lemma companion_poles_left (k c : R) (s : R * R) :
  0 < k -> 0 < c -> is_pole ((0, 1), (- k, - c)) s -> fst s < 0.
Proof.
  intros Hk Hc. destruct s as [re im]. unfold is_pole, char_poly, Cmul, Csub, Creal.
  cbn. intros H. injection H as Hre Him.
  destruct (Req_dec im 0) as [->|Him0].
  - destruct (Rlt_dec re 0) as [Hneg|Hpos]; [exact Hneg|].
    exfalso. assert (H0 : 0 <= re) by lra.
    pose proof (Rmult_le_pos _ _ H0 H0). pose proof (Rmult_le_pos c re).
    nra.
  - assert (E : im * (2 * re + c) = 0).
    { etransitivity; [|exact Him]. ring. }
    apply Rmult_integral in E. destruct E as [E|E]; lra.
Qed.

(** C3.  The closed loop of the inverted pendulum (m = 1, l = 1, b = 0.5,
    g = 1, umax = 1) with the proportional controller
    [u = -kp * (theta - r)], linearized at the state [[0, 0]] and the input
    [[0]] with [kp = 10], has the state matrix [[0, 1], [-9, -0.5]], and
    every pole of it has a strictly negative real part. *)
Theorem closed_loop_poles_kp10 :
  is_state_matrix (fun i x0 x1 => clsys_rhs 10 i x0 x1 0) 0 0
    ((0, 1), (- 9, - (1 / 2))) /\
  (forall s : R * R, is_pole ((0, 1), (- 9, - (1 / 2))) s -> fst s < 0).
Proof.
  split.
  - replace (- 9) with (1 - 10) by ring. apply clsys_state_matrix.
  - intros s. apply (companion_poles_left 9 (1 / 2)); lra.
Qed.

(** One of the two poles: [-1/4 + i sqrt(143)/4]. *)
Lemma closed_loop_poles_kp10_witness :
  is_pole ((0, 1), (- 9, - (1 / 2))) (- (1 / 4), sqrt 143 / 4) /\
  fst (- (1 / 4), sqrt 143 / 4) < 0.
Proof.
  assert (H : is_pole ((0, 1), (- 9, - (1 / 2))) (- (1 / 4), sqrt 143 / 4)).
  { unfold is_pole, char_poly, Cmul, Csub, Creal. cbn.
    assert (Hs : sqrt 143 * sqrt 143 = 143) by (apply sqrt_sqrt; lra).
    f_equal; nra. }
  split; [exact H|].
  exact (proj2 closed_loop_poles_kp10 _ H).
Defined.

End ClosedLoopFacts.

Section ReshapeFacts.
Import Riccati.
Context {A : Type}.

Lemma length_concat_uniform (k : nat) (M : list (list A)) :
  Forall (fun r => length r = k) M -> length (concat M) = (k * length M)%nat.
Proof.
  induction 1 as [|r M Hr _ IH]; cbn; [lia|].
  rewrite length_app, IH, Hr. lia.
Qed.

Lemma chunks_aux_concat (k fuel : nat) (M : list (list A)) :
  (0 < k)%nat -> Forall (fun r => length r = k) M -> (length M <= fuel)%nat ->
  chunks_aux fuel k (concat M) = M.
Proof.
  intros Hk HM. revert fuel.
  induction HM as [|r M Hr _ IH]; intros fuel Hfuel.
  - destruct fuel; reflexivity.
  - destruct fuel as [|fuel]; [cbn in Hfuel; lia|].
    cbn [concat chunks_aux].
    destruct (r ++ concat M) as [|a l] eqn:E.
    + apply (f_equal length) in E. rewrite length_app in E. cbn in E. lia.
    + rewrite <- E, take_app_length', drop_app_length' by (symmetry; exact Hr).
      rewrite IH by (cbn in Hfuel; lia). reflexivity.
Qed.

(** Cutting the concatenation of rows of one length gives the rows back. *)
Lemma chunks_concat (k : nat) (M : list (list A)) :
  (0 < k)%nat -> Forall (fun r => length r = k) M -> chunks k (concat M) = M.
Proof.
  intros Hk HM. apply chunks_aux_concat; [exact Hk | exact HM |].
  rewrite (length_concat_uniform k) by exact HM. nia.
Qed.

End ReshapeFacts.

Section ReshapeRelated.
Import Riccati.
Context {A B : Type} (P : A -> B -> Prop).

Lemma Forall2_chunks_aux (fuel k : nat) (l1 : list A) (l2 : list B) :
  Forall2 P l1 l2 ->
  Forall2 (Forall2 P) (chunks_aux fuel k l1) (chunks_aux fuel k l2).
Proof.
  revert l1 l2. induction fuel as [|fuel IH]; intros l1 l2 H; cbn.
  - constructor.
  - destruct H as [|a b l1 l2 Hab H]; [constructor|].
    constructor.
    + apply Forall2_take. constructor; assumption.
    + apply IH, Forall2_drop. constructor; assumption.
Qed.

Lemma Forall2_chunks (k : nat) (l1 : list A) (l2 : list B) :
  Forall2 P l1 l2 -> Forall2 (Forall2 P) (chunks k l1) (chunks k l2).
Proof.
  intros H. unfold chunks. rewrite <- (Forall2_length _ _ _ H).
  apply Forall2_chunks_aux, H.
Qed.

End ReshapeRelated.

Section ChunkLookup.
Import Riccati.
Context {A : Type}.

Lemma chunks_aux_lookup (k : nat) :
  (0 < k)%nat -> forall (i fuel : nat) (l : list A),
  (i < fuel)%nat -> (i * k < length l)%nat ->
  chunks_aux fuel k l !! i = Some (take k (drop (i * k) l)).
Proof.
  intros Hk. induction i as [|i IH]; intros fuel l Hfuel Hl.
  - destruct fuel as [|fuel]; [lia|].
    destruct l as [|a l]; [cbn in Hl; lia|]. reflexivity.
  - destruct fuel as [|fuel]; [lia|].
    destruct l as [|a l]; [cbn in Hl; lia|].
    cbn [chunks_aux]. rewrite lookup_cons_ne_0 by lia.
    replace (Nat.pred (S i)) with i by lia.
    rewrite IH; [|lia|rewrite length_drop; lia].
    rewrite drop_drop. do 2 f_equal; lia.
Qed.

(** Entry [[i][j]] of a row-major reshape is entry [i * k + j]. *)
Lemma chunks_lookup (k i j : nat) (l : list A) :
  (j < k)%nat -> (i * k + j < length l)%nat ->
  exists row, chunks k l !! i = Some row /\ row !! j = l !! (i * k + j)%nat.
Proof.
  intros Hj Hl. unfold chunks. eexists. split.
  - apply (chunks_aux_lookup k); nia.
  - rewrite lookup_take_lt, lookup_drop by exact Hj. reflexivity.
Qed.

End ChunkLookup.

Section ReorderLookup.
Import Riccati.
Local Open Scope R_scope.

(** [Tf - t[::-1]]: the time point [k] moves to position [N - 1 - k]. *)
Lemma reversed_times_lookup (Tf : R) (ts : list R) (k : nat) (t : R) :
  ts !! k = Some t ->
  ((fun t => Tf - t) <$> reverse ts) !! (length ts - 1 - k)%nat
    = Some (Tf - t).
Proof.
  intros Hk.
  assert (k < length ts)%nat by (apply lookup_lt_Some in Hk; exact Hk).
  rewrite list_lookup_fmap, reverse_lookup by lia.
  replace (length ts - S (length ts - 1 - k))%nat with k by lia.
  now rewrite Hk.
Qed.

(** [np.reshape(y, (n, n, -1))[:, :, ::-1]]: the value of row [i * n + j] at
    the time point [k] moves to position [N - 1 - k] of entry [[i][j]]. *)
Lemma reversed_values_lookup
    (n N : nat) (y : matrix) (i j k : nat) (v : R) :
  length y = (n * n)%nat -> Forall (fun row => length row = N) y ->
  (i < n)%nat -> (j < n)%nat ->
  at2 y (i * n + j) k = Some v ->
  at3 ((fun M : matrix => reverse <$> M) <$> chunks n y) i j (N - 1 - k)
    = Some v.
Proof.
  intros Hrows Hcols Hi Hj Hv. unfold at2 in Hv.
  destruct (y !! (i * n + j)%nat) as [row|] eqn:Erow; [|discriminate Hv].
  assert (Hlen : length row = N).
  { rewrite Forall_forall in Hcols. apply Hcols.
    eapply list_elem_of_lookup_2, Erow. }
  assert (Hk : (k < N)%nat)
    by (apply lookup_lt_Some in Hv; rewrite Hlen in Hv; exact Hv).
  destruct (chunks_lookup n i j y) as (M & HM & HMj);
    [exact Hj | rewrite Hrows; nia |].
  rewrite Erow in HMj.
  unfold at3, at2. rewrite list_lookup_fmap, HM. cbn.
  rewrite list_lookup_fmap, HMj. cbn.
  rewrite reverse_lookup by (rewrite Hlen; lia).
  rewrite Hlen. replace (N - S (N - 1 - k))%nat with k by lia.
  exact Hv.
Qed.

End ReorderLookup.

Section RiccatiTrajectory.
Import Riccati.
Local Open Scope R_scope.

Variable np_linalg_inv : matrix -> matrix.
Variable solve_ivp :
  (R -> list R -> result (list R)) -> R * R -> list R -> ode_solution.
Variable interp1d : list R -> list matrix -> R -> result matrix.
Variable sys : linsys.
Variables Qx Qu Pf : matrix.
Variable Tf : R.

(** The terminal condition is a square matrix of the size of the state. *)
Hypothesis sys_nonempty : (0 < nstates sys)%nat.
Hypothesis Pf_rows : length Pf = nstates sys.
Hypothesis Pf_cols : Forall (fun r => length r = nstates sys) Pf.

(** What the solver promises for the call the cell makes: the time points
    run from the start to the end of the span without decreasing, there is
    one row per state and one column per time point, and the first column is
    the initial value. *)
Let Psol :=
  solve_ivp (Pdot_reverse np_linalg_inv sys Qx Qu) (0, Tf) (flatten Pf).
Hypothesis sol_first : head (sol_t Psol) = Some 0.
Hypothesis sol_last : last (sol_t Psol) = Some Tf.
Hypothesis sol_sorted : nondecreasing (sol_t Psol).
Hypothesis sol_rows : length (sol_y Psol) = length (flatten Pf).
Hypothesis sol_cols :
  Forall (fun row => length row = length (sol_t Psol)) (sol_y Psol).
Hypothesis sol_initial :
  Forall2 (fun row v => head row = Some v) (sol_y Psol) (flatten Pf).

Lemma sol_points : (0 < length (sol_t Psol))%nat.
Proof. destruct (sol_t Psol); [discriminate sol_first | cbn; lia]. Qed.

Lemma flatten_Pf_length :
  length (flatten Pf) = (nstates sys * nstates sys)%nat.
Proof.
  unfold flatten. rewrite (length_concat_uniform (nstates sys)) by exact Pf_cols.
  now rewrite Pf_rows.
Qed.

Lemma reshape3_solution :
  reshape3 (nstates sys) (sol_y Psol) = Ok (chunks (nstates sys) (sol_y Psol)).
Proof.
  pose proof sol_points as Hnt. unfold reshape3.
  rewrite (length_concat_uniform (length (sol_t Psol))) by exact sol_cols.
  rewrite sol_rows, flatten_Pf_length.
  rewrite Nat.div_mul by nia.
  destruct (decide _) as [Hyes|Hno].
  - destruct (decide _) as [Hzero|Hpos]; [lia|].
    rewrite chunks_concat by (exact Hnt || exact sol_cols). reflexivity.
  - exfalso. apply Hno. split; [lia | exact sys_nonempty].
Qed.

Lemma reversed_series (M : matrix) (vs : list R) :
  Forall2 (fun row v => head row = Some v) M vs ->
  mapM last (reverse <$> M) = Some vs.
Proof.
  intros H. apply mapM_Some_2, Forall2_fmap_l.
  eapply Forall2_impl; [exact H|].
  intros row v Hrow. cbn. now rewrite last_reverse.
Qed.

(** C4.  The Riccati solution is integrated in reversed time and then
    reordered: provided the solver returns what it promises, the cells
    return a trajectory whose time index [trev] starts at 0, ends at [Tf] and
    never decreases, whose entry at the final time is the terminal condition
    [Pf] (the solver's initial value, now last), and whose interpolant is
    built from that reordered time index and trajectory.  The reordering
    reverses times and values together: [trev] has as many entries as the
    solver returned time points, the solver's time point [k] appears at
    position [N - 1 - k] as [Tf - t[k]], and the value that the solver
    returned for the entry [[i][j]] at its time point [k] is the value of
    [Prev[i][j]] at that same position. *)
Theorem riccati_trajectory_reordered :
  exists traj,
    riccati_cells np_linalg_inv solve_ivp interp1d sys Qx Qu Pf Tf = Ok traj /\
    head (trev traj) = Some 0 /\
    last (trev traj) = Some Tf /\
    nondecreasing (trev traj) /\
    slice_last (Prev traj) = Ok Pf /\
    Pinterp traj = interp1d (trev traj) (Prev traj) /\
    length (trev traj) = length (sol_t Psol) /\
    (forall (k : nat) (t : R),
        sol_t Psol !! k = Some t ->
        trev traj !! (length (sol_t Psol) - 1 - k)%nat = Some (Tf - t)) /\
    (forall (i j k : nat) (v : R),
        (i < nstates sys)%nat -> (j < nstates sys)%nat ->
        at2 (sol_y Psol) (i * nstates sys + j) k = Some v ->
        at3 (Prev traj) i j (length (sol_t Psol) - 1 - k) = Some v).
Proof.
  unfold riccati_cells. fold Psol. rewrite reshape3_solution.
  eexists. split; [reflexivity|]. cbn [trev Prev Pinterp].
  split; [|split; [|split; [|split; [|split; [reflexivity|]]]]].
  - rewrite fmap_reverse, head_reverse, fmap_last, sol_last. cbn.
    f_equal. lra.
  - rewrite fmap_last, last_reverse, sol_first. cbn. f_equal. lra.
  - intros i j a b Hij Ha Hb.
    rewrite list_lookup_fmap in Ha, Hb.
    destruct (reverse (sol_t Psol) !! i) as [ai|] eqn:Ei; [|discriminate].
    destruct (reverse (sol_t Psol) !! j) as [bj|] eqn:Ej; [|discriminate].
    cbn in Ha, Hb. injection Ha as <-. injection Hb as <-.
    apply reverse_lookup_Some in Ei as [Ei Hi].
    apply reverse_lookup_Some in Ej as [Ej Hj].
    assert (bj <= ai); [|lra].
    eapply sol_sorted; [|exact Ej|exact Ei]. lia.
  - unfold slice_last.
    assert (H : mapM (mapM last)
                  ((fun M : matrix => reverse <$> M)
                     <$> chunks (nstates sys) (sol_y Psol)) = Some Pf).
    { apply mapM_Some_2, Forall2_fmap_l.
      rewrite <- (chunks_concat (nstates sys) Pf)
        by (exact sys_nonempty || exact Pf_cols).
      eapply Forall2_impl.
      - apply Forall2_chunks, sol_initial.
      - intros M vs HM. cbn. apply reversed_series, HM. }
    rewrite H. reflexivity.
  - split; [|split].
    + now rewrite length_fmap, length_reverse.
    + intros k t Hk. apply reversed_times_lookup, Hk.
    + intros i j k v Hi Hj Hv.
      apply reversed_values_lookup; try assumption.
      rewrite sol_rows. apply flatten_Pf_length.
Qed.

End RiccatiTrajectory.

(** The notebook's data (three states, [Tf = 4], [Pf] the identity) with a
    solver that returns the reversed times 0, 1 and 4: the reordered time
    index starts with [4 - 4] and holds [4 - 1] in the middle, the entry at
    the final time is [Pf], and the last value of the solver comes first. *)
Lemma riccati_trajectory_witness :
  exists traj,
    Riccati.riccati_cells Riccati.inv2 Riccati.three_point_solver
      Riccati.out_of_range
      Riccati.kincar_lin Riccati.eye3 Riccati.eye2 Riccati.eye3 4 = Ok traj /\
    Riccati.trev traj !! 0%nat = Some (4 - 4)%R /\
    Riccati.trev traj !! 1%nat = Some (4 - (3 * 0 + 4) / 4)%R /\
    Riccati.slice_last (Riccati.Prev traj) = Ok Riccati.eye3 /\
    Riccati.at3 (Riccati.Prev traj) 0 0 0 = Some (1 + 2)%R.
Proof.
  destruct (riccati_trajectory_reordered Riccati.inv2
              Riccati.three_point_solver Riccati.out_of_range
              Riccati.kincar_lin Riccati.eye3 Riccati.eye2 Riccati.eye3 4)
    as (traj & Hrun & _ & _ & _ & Hlast & _ & _ & Ht & Hv).
  all: try reflexivity.
  all: try (cbn; lia).
  all: try (repeat constructor; fail).
  - intros i j a b Hij Ha Hb. cbn in Ha, Hb.
    destruct i as [|[|[|i]]], j as [|[|[|j]]]; cbn in Ha, Hb;
      try discriminate; try lia;
      injection Ha as <-; injection Hb as <-; lra.
  - exists traj. split; [exact Hrun|].
    split; [|split; [|split; [exact Hlast|]]].
    + exact (Ht 2%nat _ eq_refl).
    + exact (Ht 1%nat _ eq_refl).
    + refine (Hv 0%nat 0%nat 2%nat _ _ _ eq_refl); cbn; lia.
Defined.



Section RiccatiRhs.
Import Riccati.
Local Open Scope R_scope.

Ltac explode l :=
  repeat (let a := fresh "a" in destruct l as [|a l]; try discriminate).

Lemma shape_3_3 (M : matrix) :
  is_shape 3 3 M ->
  exists a b c d e f g h i, M = [[a; b; c]; [d; e; f]; [g; h; i]].
Proof.
  intros [Hr Hc]. destruct M as [|r0 [|r1 [|r2 [|? ?]]]]; try discriminate.
  apply Forall_cons in Hc as [H0 Hc]. apply Forall_cons in Hc as [H1 Hc].
  apply Forall_cons in Hc as [H2 _].
  explode r0. explode r1. explode r2. repeat eexists.
Qed.

Lemma shape_3_2 (M : matrix) :
  is_shape 3 2 M -> exists a b c d e f, M = [[a; b]; [c; d]; [e; f]].
Proof.
  intros [Hr Hc]. destruct M as [|r0 [|r1 [|r2 [|? ?]]]]; try discriminate.
  apply Forall_cons in Hc as [H0 Hc]. apply Forall_cons in Hc as [H1 Hc].
  apply Forall_cons in Hc as [H2 _].
  explode r0. explode r1. explode r2. repeat eexists.
Qed.

Lemma shape_2_2 (M : matrix) :
  is_shape 2 2 M -> exists a b c d, M = [[a; b]; [c; d]].
Proof.
  intros [Hr Hc]. destruct M as [|r0 [|r1 [|? ?]]]; try discriminate.
  apply Forall_cons in Hc as [H0 Hc]. apply Forall_cons in Hc as [H1 _].
  explode r0. explode r1. repeat eexists.
Qed.

(** Reshaping the flattened square matrix gives the matrix back. *)
Lemma reshape2_flatten (n : nat) (P : matrix) :
  (0 < n)%nat -> is_shape n n P -> reshape2 n (flatten P) = Ok P.
Proof.
  intros Hn [Hr Hc]. unfold reshape2, flatten.
  rewrite (length_concat_uniform n), Hr by exact Hc.
  destruct (decide _) as [_|Hno]; [|lia].
  now rewrite chunks_concat.
Qed.

(** [Pdot_reverse] evaluates the right hand side of the Riccati equation
    as the notebook states it. *)
Lemma Pdot_reverse_riccati_rhs
    (inv : matrix -> matrix) (sys : linsys) (Qx Qu P : matrix) (t : R) :
  is_shape 3 3 (sys_A sys) -> is_shape 3 2 (sys_B sys) ->
  is_shape 3 3 Qx -> is_shape 2 2 (inv Qu) -> is_shape 3 3 P ->
  Pdot_reverse inv sys Qx Qu t (flatten P) =
  Ok (flatten (riccati_rhs (sys_A sys) (sys_B sys) Qx (inv Qu) P)).
Proof.
  intros HA HB HQ HW HP. unfold Pdot_reverse, nstates.
  destruct sys as [A B]. cbn [sys_A sys_B] in *.
  rewrite (proj1 HA), reshape2_flatten by (lia || exact HP).
  apply shape_3_3 in HA as (a00 & a01 & a02 & a10 & a11 & a12 & a20 & a21 & a22 & ->).
  apply shape_3_2 in HB as (b00 & b01 & b10 & b11 & b20 & b21 & ->).
  apply shape_3_3 in HQ as (q00 & q01 & q02 & q10 & q11 & q12 & q20 & q21 & q22 & ->).
  apply shape_3_3 in HP as (p00 & p01 & p02 & p10 & p11 & p12 & p20 & p21 & p22 & ->).
  apply shape_2_2 in HW as (w00 & w01 & w10 & w11 & HW). rewrite HW.
  cbn. unfold dot, riccati_rhs_entry, sum_upto, entry. cbn.
  f_equal. repeat (f_equal; [ring|]). f_equal. ring.
Qed.

End RiccatiRhs.

Section RiccatiInNotebook.
Import Riccati Outline.
Local Open Scope R_scope.

Lemma kincar_lin_shapes :
  is_shape 3 3 (sys_A kincar_lin) /\ is_shape 3 2 (sys_B kincar_lin) /\
  is_shape 3 3 eye3 /\ is_shape 2 2 (inv2 eye2).
Proof. repeat split; repeat constructor. Qed.

(** The right hand side at the terminal condition of the notebook. *)
Lemma riccati_rhs_at_Pf :
  flatten (riccati_rhs (sys_A kincar_lin) (sys_B kincar_lin) eye3 (inv2 eye2) eye3)
  = [0; 0; 0; 0; 1; 10; 0; 10; - (91 / 9)].
Proof.
  cbn. unfold riccati_rhs_entry, sum_upto, entry. cbn.
  repeat (f_equal; [field; lra|]). f_equal. field; lra.
Qed.

(** C1, as stated, fails: the right hand side of the Riccati equation is
    computed by [Pdot_reverse], a function that the optimal control
    notebook defines itself.  At the notebook's data and [P = Pf] it returns
    the flattened matrix [[0, 0, 0], [0, 1, 10], [0, 10, -91/9]]. *)
Lemma riccati_rhs_is_notebook_code :
  pick def_name lq_optimal_control =
    [("48c1bd7f-0db6-4488-af41-41f685280ec9", "_kincar_flat_forward");
     ("48c1bd7f-0db6-4488-af41-41f685280ec9", "_kincar_flat_reverse");
     ("48c1bd7f-0db6-4488-af41-41f685280ec9", "_kincar_update");
     ("48c1bd7f-0db6-4488-af41-41f685280ec9", "_kincar_output");
     ("fbdd78c0-30e9-43f7-9e8d-198ae38c2988", "plot_lanechange");
     ("02d74789", "Pdot_reverse");
     ("84092dcd", "xdot_forward")] /\
  Pdot_reverse inv2 kincar_lin eye3 eye2 0 (flatten eye3) =
    Ok [0; 0; 0; 0; 1; 10; 0; 10; - (91 / 9)].
Proof.
  split; [reflexivity|].
  destruct kincar_lin_shapes as (HA & HB & HQ & HW).
  rewrite Pdot_reverse_riccati_rhs by assumption.
  now rewrite riccati_rhs_at_Pf.
Qed.

(** C1, amended.  The integration of the Riccati equation and the algebraic
    Riccati solution are delegated to external routines: the optimal
    control notebook calls [solve_ivp] and [ct.lqr] and defines no solver.
    The right hand side of the equation is notebook code: the notebook
    defines [Pdot_reverse], whose body calls [np.linalg.inv] and matrix
    products, and for a system with three states and two inputs it returns
    [P A + A^T P - P B Qu^-1 B^T P + Qx], flattened. *)
Theorem riccati_rhs_defined_solver_external :
  snd <$> pick def_name lq_optimal_control =
    ["_kincar_flat_forward"; "_kincar_flat_reverse"; "_kincar_update";
     "_kincar_output"; "plot_lanechange"; "Pdot_reverse"; "xdot_forward"] /\
  defs_with (fun s => List.filter (String.eqb "np.linalg.inv") (calls_of s))
    lq_optimal_control = ["Pdot_reverse"; "xdot_forward"] /\
  pick (assigned_from "sp.integrate.solve_ivp") lq_optimal_control =
    [("02d74789", [TName "Psol"]); ("84092dcd", [TName "xsol"])] /\
  pick (assigned_from "ct.lqr") lq_optimal_control =
    [("02d74789", [TName "_"; TName "P_lqr"; TName "_"])] /\
  (forall (inv : matrix -> matrix) (sys : linsys) (Qx Qu P : matrix) (t : R),
      is_shape 3 3 (sys_A sys) -> is_shape 3 2 (sys_B sys) ->
      is_shape 3 3 Qx -> is_shape 2 2 (inv Qu) -> is_shape 3 3 P ->
      Pdot_reverse inv sys Qx Qu t (flatten P) =
      Ok (flatten (riccati_rhs (sys_A sys) (sys_B sys) Qx (inv Qu) P))).
Proof.
  repeat split; try reflexivity.
  intros. now apply Pdot_reverse_riccati_rhs.
Qed.

(** The notebook's own data satisfy the shape conditions. *)
Lemma riccati_rhs_defined_witness :
  Pdot_reverse inv2 kincar_lin eye3 eye2 0 (flatten eye3) =
  Ok (flatten (riccati_rhs (sys_A kincar_lin) (sys_B kincar_lin) eye3
                 (inv2 eye2) eye3)).
Proof.
  apply (proj2 (proj2 (proj2 (proj2 riccati_rhs_defined_solver_external))));
    repeat split; repeat constructor.
Defined.

End RiccatiInNotebook.

Section ImportCellFacts.
Import Env Outline.

Lemma control_not_builtin : "control" ∉ builtin_modules.
Proof. vm_compute. intros H. discriminate H. Qed.

Lemma math_builtin : "math" ∈ builtin_modules.
Proof. vm_compute. reflexivity. Qed.

Lemma importable_installed (m : string) (w : world) :
  m ∈ installed w -> m ∈ builtin_modules ∪ installed w.
Proof. intros H. apply elem_of_union. right. exact H. Qed.

Lemma importable_control (s : gset string) :
  "control" ∈ builtin_modules ∪ s -> "control" ∈ s.
Proof.
  intros H. apply elem_of_union in H as [H|H]; [|exact H].
  destruct (control_not_builtin H).
Qed.

Lemma importable_after_pip (r s : gset string) :
  "control" ∈ builtin_modules ∪ ({[ "control" ]} ∪ r ∪ s).
Proof.
  apply elem_of_union. right. apply elem_of_union. left.
  apply elem_of_union. left. apply elem_of_singleton. reflexivity.
Qed.

(** What the [try] statement does to the installed packages. *)
Lemma import_control_installed (w : world) :
  installed (snd (import_control w)) =
  if decide ("control" ∈ installed w) then installed w
  else if online w then {[ "control" ]} ∪ requires w "control" ∪ installed w
       else installed w.
Proof.
  unfold import_control, try_except_ImportError, and_then, import_module,
    pip_install, print.
  destruct (decide ("control" ∈ installed w)) as [Hin|Hout].
  - destruct (decide _) as [Hyes|Hno]; [reflexivity|].
    destruct (Hno (importable_installed _ _ Hin)).
  - destruct (decide _) as [Hyes|Hno];
      [destruct (Hout (importable_control _ Hyes))|].
    cbn. destruct (online w); cbn; destruct (decide _); reflexivity.
Qed.

(** The packages installed after an import cell: those installed before,
    and [control] with what the index installs along with it when [control]
    was missing, the index can be reached and the imports before the [try]
    succeed. *)
Lemma import_cell_L7_installed (w : world) :
  installed (snd (import_cell_L7 w)) = installed w \/
  (installed (snd (import_cell_L7 w)) =
     {[ "control" ]} ∪ requires w "control" ∪ installed w /\
   ("control" ∉ installed w) /\ online w = true).
Proof.
  pose proof (import_control_installed) as Hc.
  unfold import_cell_L7, and_then, import_module, update_rcparams.
  repeat (destruct (decide _); cbn; auto).
  match goal with
  | |- context [import_control ?w0] =>
      specialize (Hc w0); destruct (import_control w0) as [[[]| |] w1]
  end.
  all: cbn in *; rewrite Hc.
  all: destruct (decide _); auto; destruct (online w); auto.
Qed.

Lemma import_cell_L2_installed (w : world) :
  installed (snd (import_cell_L2 w)) = installed w \/
  (installed (snd (import_cell_L2 w)) =
     {[ "control" ]} ∪ requires w "control" ∪ installed w /\
   ("control" ∉ installed w) /\ online w = true).
Proof.
  pose proof (import_control_installed) as Hc.
  unfold import_cell_L2, and_then, import_module.
  repeat (destruct (decide _); cbn; auto).
  match goal with
  | |- context [import_control ?w0] => specialize (Hc w0)
  end.
  cbn in *. rewrite Hc.
  destruct (decide _); auto; destruct (online w); auto.
Qed.

(** The [ImportError] of a missing [control] is caught: the cell installs
    the package, imports it and ends without an exception. *)
Lemma import_cell_L7_recovers (w : world) :
  "numpy" ∈ installed w -> "matplotlib" ∈ installed w ->
  "control" ∉ installed w -> online w = true ->
  fst (import_module "control" w) = Raise (ImportError "control") /\
  fst (import_cell_L7 w) = Ok () /\
  "control" ∈ loaded (snd (import_cell_L7 w)).
Proof.
  intros Hn Hm Hc Ho.
  unfold import_cell_L7, import_control, try_except_ImportError, and_then,
    import_module, pip_install, print, update_rcparams.
  destruct (decide ("control" ∈ _)) as [E|E];
    [destruct (Hc (importable_control _ E))|].
  split; [reflexivity|]. clear E.
  destruct (decide ("numpy" ∈ _)) as [E|E];
    [|destruct (E (importable_installed _ _ Hn))].
  cbn. clear E.
  destruct (decide ("matplotlib" ∈ _)) as [E|E];
    [|destruct (E (importable_installed _ _ Hm))].
  cbn. clear E.
  destruct (decide ("math" ∈ _)) as [E|E].
  2: { exfalso. apply E, elem_of_union. left. exact math_builtin. }
  cbn. clear E.
  destruct (decide ("control" ∈ _)) as [E|E];
    [destruct (Hc (importable_control _ E))|].
  cbn. clear E. rewrite Ho.
  destruct (decide ("control" ∈ _)) as [E|E];
    [|destruct (E (importable_after_pip _ _))].
  cbn. split; [reflexivity|].
  apply elem_of_union. left. apply elem_of_singleton. reflexivity.
Qed.

(** C7, as stated, fails on the fallback path: in an environment without
    [control] that can reach the package index, the import cell ends
    normally and leaves [control] installed in the Python environment, which
    outlives the process. *)
Lemma import_cell_installs_control :
  ("control" ∉ installed fresh_colab) /\
  fst (import_cell_L7 fresh_colab) = Ok () /\
  ("control" ∈ installed (snd (import_cell_L7 fresh_colab))) /\
  fst (import_cell_L2 fresh_colab) = Ok () /\
  ("control" ∈ installed (snd (import_cell_L2 fresh_colab))).
Proof.
  split; [|split; [|split; [|split]]].
  - vm_compute. intros H. discriminate H.
  - vm_compute. reflexivity.
  - vm_compute. reflexivity.
  - vm_compute. reflexivity.
  - vm_compute. reflexivity.
Qed.

(** C7, amended.  Notebook code asks for state that outlives the process in
    one place only: the fallback path of the two import cells runs
    [pip install control], so that an import cell leaves the installed
    packages as they were, except that it adds [control], with what the
    index installs along with it, when [control] was missing and the
    package index can be reached.  The two [pip install control] lines,
    both in handlers of [ImportError], are the only shell commands in the
    notebooks.  Every call in every cell is to a function that the table of
    effects lists, and none is to a function that writes a file; a call of
    [plt.savefig], or of a function that the table does not list, would be
    found.  What the interpreter and the imported libraries write on their
    own account is not notebook code and is not part of the statement. *)
Theorem persists_only_pip_install :
  (forall w : world,
      installed (snd (import_cell_L7 w)) = installed w \/
      (installed (snd (import_cell_L7 w)) =
         {[ "control" ]} ∪ requires w "control" ∪ installed w /\
       ("control" ∉ installed w) /\ online w = true)) /\
  (forall w : world,
      installed (snd (import_cell_L2 w)) = installed w \/
      (installed (snd (import_cell_L2 w)) =
         {[ "control" ]} ∪ requires w "control" ∪ installed w /\
       ("control" ∉ installed w) /\ online w = true)) /\
  pick shell_cmd all_notebooks =
    [("invalid-carnival", "pip install control");
     ("cell-1", "pip install control")] /\
  pick handler_shell all_notebooks =
    [("invalid-carnival", ("ImportError", "pip install control"));
     ("cell-1", ("ImportError", "pip install control"))] /\
  pick unlisted_call all_notebooks = [] /\
  pick file_writing_call all_notebooks = [] /\
  file_writing_call (Expr ["plt.plot"; "plt.savefig"]) = ["plt.savefig"] /\
  unlisted_call (Expr ["print"; "f.write"]) = ["f.write"].
Proof.
  split; [exact import_cell_L7_installed|].
  split; [exact import_cell_L2_installed|].
  repeat split; vm_compute; reflexivity.
Qed.

End ImportCellFacts.

Section ErrorHandlingFacts.
Import Kincar Env Outline.
Local Open Scope R_scope.

Lemma is_str_true (v : pyval) (s : string) : is_str v s = true <-> v = VStr s.
Proof.
  destruct v as [r|s'|]; cbn; try (split; [discriminate|intros H; discriminate H]).
  rewrite bool_decide_eq_true. split; [now intros ->|now intros [= ->]].
Qed.

Lemma is_str_false (v : pyval) (s : string) : v <> VStr s -> is_str v s = false.
Proof.
  intros H. destruct (is_str v s) eqn:E; [|reflexivity].
  apply is_str_true in E. contradiction.
Qed.

(** An unknown direction is refused once the position was read. *)
Lemma flat_reverse_unknown_direction
    (zflag : list (list R)) (params : gmap string pyval) (z00 z10 : R) :
  index2 zflag 0 0 = Ok z00 -> index2 zflag 1 0 = Ok z10 ->
  get params "dir" (VStr "f") <> VStr "f" ->
  get params "dir" (VStr "f") <> VStr "r" ->
  _kincar_flat_reverse zflag params =
  Raise (ValueError "unknown direction:" (get params "dir" (VStr "f"))).
Proof.
  intros H0 H1 Hf Hr. unfold _kincar_flat_reverse, heading.
  rewrite H0, H1, (is_str_false _ _ Hf), (is_str_false _ _ Hr). reflexivity.
Qed.

(** With direction ['f'] or ['r'] no [ValueError] is raised. *)
Lemma flat_reverse_known_direction
    (zflag : list (list R)) (params : gmap string pyval)
    (msg : string) (arg : pyval) :
  get params "dir" (VStr "f") = VStr "f" \/
  get params "dir" (VStr "f") = VStr "r" ->
  _kincar_flat_reverse zflag params <> Raise (ValueError msg arg).
Proof.
  intros Hdir. unfold _kincar_flat_reverse, heading.
  assert (Hidx : forall i j, index2 zflag i j <> Raise (ValueError msg arg)).
  { intros i j. unfold index2, index.
    destruct (zflag !! i) as [row|]; [|intros H; discriminate H].
    destruct (row !! j); intros H; discriminate H. }
  destruct (index2 zflag 0 0) eqn:E00; cbn;
    [|intros H; apply (Hidx 0%nat 0%nat); congruence|discriminate].
  destruct (index2 zflag 1 0) eqn:E10; cbn;
    [|intros H; apply (Hidx 1%nat 0%nat); congruence|discriminate].
  assert (Hh : exists h,
    (if is_str (get params "dir" (VStr "f")) "f"
     then z11 ← index2 zflag 1 1; z01 ← index2 zflag 0 1; Ok (np_arctan2 z11 z01)
     else if is_str (get params "dir" (VStr "f")) "r"
     then z11 ← index2 zflag 1 1; z01 ← index2 zflag 0 1;
          Ok (np_arctan2 (- z11) (- z01))
     else Raise (ValueError "unknown direction:" (get params "dir" (VStr "f"))))
    = (z11 ← index2 zflag 1 1; z01 ← index2 zflag 0 1; Ok (h z11 z01))).
  { destruct Hdir as [-> | ->].
    - exists np_arctan2. reflexivity.
    - exists (fun a b => np_arctan2 (- a) (- b)). reflexivity. }
  destruct Hh as [h ->].
  destruct (index2 zflag 1 1) eqn:E11; cbn;
    [|intros H; apply (Hidx 1%nat 1%nat); congruence|discriminate].
  destruct (index2 zflag 0 1) eqn:E01; cbn;
    [|intros H; apply (Hidx 0%nat 1%nat); congruence|discriminate].
  destruct (index2 zflag 1 2) eqn:E12; cbn;
    [|intros H; apply (Hidx 1%nat 2%nat); congruence|discriminate].
  destruct (index2 zflag 0 2) eqn:E02; cbn;
    [|intros H; apply (Hidx 0%nat 2%nat); congruence|discriminate].
  destruct (as_num (get params "wheelbase" (VNum 3))) eqn:Eb; cbn;
    [|intros H; injection H as ->;
      destruct (get params "wheelbase" (VNum 3)); discriminate Eb
     |discriminate].
  unfold np_div. destruct (Req_dec_T _ 0); discriminate.
Qed.

(** On a full flat flag, with a known direction and a nonzero wheelbase,
    the function returns. *)
Lemma flat_reverse_returns
    (a0 a1 a2 b0 b1 b2 b : R) (params : gmap string pyval) :
  get params "dir" (VStr "f") = VStr "f" \/
  get params "dir" (VStr "f") = VStr "r" ->
  get params "wheelbase" (VNum 3) = VNum b -> b <> 0 ->
  exists xu,
    _kincar_flat_reverse [[a0; a1; a2]; [b0; b1; b2]] params = Ok xu.
Proof.
  intros Hdir Hb Hb0. unfold _kincar_flat_reverse, heading. rewrite Hb.
  destruct Hdir as [-> | ->].
  - change (is_str (VStr "f") "f") with true. cbn. unfold np_div.
    destruct (Req_dec_T b 0); [contradiction|]. cbn. eauto.
  - change (is_str (VStr "r") "f") with false.
    change (is_str (VStr "r") "r") with true. cbn. unfold np_div.
    destruct (Req_dec_T b 0); [contradiction|]. cbn. eauto.
Qed.

(** C2, as stated, fails: [_kincar_flat_reverse] raises a [ValueError] of
    its own for a direction other than ['f'] and ['r'], and the import cell
    catches the [ImportError] of a missing [control] package and ends
    normally. *)
Lemma notebook_raises_and_catches :
  _kincar_flat_reverse [[0; 0; 0]; [0; 0; 0]] {[ "dir" := VStr "x" ]} =
    Raise (ValueError "unknown direction:" (VStr "x")) /\
  fst (import_module "control" fresh_colab) = Raise (ImportError "control") /\
  fst (import_cell_L7 fresh_colab) = Ok ().
Proof.
  split; [|split].
  - change (VStr "x")
      with (get {[ "dir" := VStr "x" ]} "dir" (VStr "f")) at 2.
    apply (flat_reverse_unknown_direction _ _ 0 0); try reflexivity;
      change (get {[ "dir" := VStr "x" ]} "dir" (VStr "f")) with (VStr "x");
      intros [= H]; discriminate H.
  - vm_compute. reflexivity.
  - vm_compute. reflexivity.
Qed.

(** C2, amended.  Notebook code has a little branching and error handling
    of its own, in three places.  [_kincar_flat_reverse] branches on the
    ['dir'] parameter: for ['f'] and ['r'] it raises no [ValueError] and, on
    a full flat flag with a nonzero wheelbase, returns; for any other value
    it raises [ValueError("unknown direction:", dir)].  [plot_lanechange]
    branches on [yf].  The import cells of the two lecture notebooks catch
    [ImportError], install the package and import it again.  There is no
    other [raise], [try] or [if] in any notebook, and none outside a
    function except the [try] of the import cells. *)
Theorem error_handling_in_notebooks :
  (forall (zflag : list (list R)) (params : gmap string pyval) (z00 z10 : R),
      index2 zflag 0 0 = Ok z00 -> index2 zflag 1 0 = Ok z10 ->
      get params "dir" (VStr "f") <> VStr "f" ->
      get params "dir" (VStr "f") <> VStr "r" ->
      _kincar_flat_reverse zflag params =
      Raise (ValueError "unknown direction:" (get params "dir" (VStr "f")))) /\
  (forall (zflag : list (list R)) (params : gmap string pyval)
          (msg : string) (arg : pyval),
      get params "dir" (VStr "f") = VStr "f" \/
      get params "dir" (VStr "f") = VStr "r" ->
      _kincar_flat_reverse zflag params <> Raise (ValueError msg arg)) /\
  (forall (a0 a1 a2 b0 b1 b2 b : R) (params : gmap string pyval),
      get params "dir" (VStr "f") = VStr "f" \/
      get params "dir" (VStr "f") = VStr "r" ->
      get params "wheelbase" (VNum 3) = VNum b -> b <> 0 ->
      exists xu,
        _kincar_flat_reverse [[a0; a1; a2]; [b0; b1; b2]] params = Ok xu) /\
  (forall w : world,
      "numpy" ∈ installed w -> "matplotlib" ∈ installed w ->
      "control" ∉ installed w -> online w = true ->
      fst (import_module "control" w) = Raise (ImportError "control") /\
      fst (import_cell_L7 w) = Ok () /\
      "control" ∈ loaded (snd (import_cell_L7 w))) /\
  pick raise_exn all_notebooks =
    [("48c1bd7f-0db6-4488-af41-41f685280ec9", "ValueError")] /\
  defs_with raise_exn all_notebooks = ["_kincar_flat_reverse"] /\
  pick try_exn all_notebooks =
    [("invalid-carnival", "ImportError"); ("cell-1", "ImportError")] /\
  pick_outside_defs try_exn all_notebooks =
    [("invalid-carnival", "ImportError"); ("cell-1", "ImportError")] /\
  defs_with if_stmt all_notebooks = ["_kincar_flat_reverse"; "plot_lanechange"] /\
  pick_outside_defs if_stmt all_notebooks = [] /\
  pick_outside_defs raise_exn all_notebooks = [].
Proof.
  split; [exact flat_reverse_unknown_direction|].
  split; [exact flat_reverse_known_direction|].
  split; [exact flat_reverse_returns|].
  split; [exact import_cell_L7_recovers|].
  repeat split; vm_compute; reflexivity.
Qed.

(** Instances: the direction ['sideways'] is refused, the default
    direction is served. *)
Lemma error_handling_witness :
  _kincar_flat_reverse [[1; 2; 3]; [4; 5; 6]] {[ "dir" := VStr "sideways" ]} =
    Raise (ValueError "unknown direction:" (VStr "sideways")) /\
  exists xu, _kincar_flat_reverse [[1; 2; 3]; [4; 5; 6]] ∅ = Ok xu.
Proof.
  destruct error_handling_in_notebooks as (Hbad & _ & Hok & _).
  split.
  - change (VStr "sideways")
      with (get {[ "dir" := VStr "sideways" ]} "dir" (VStr "f")) at 2.
    apply (Hbad _ _ 1 4); try reflexivity;
      change (get {[ "dir" := VStr "sideways" ]} "dir" (VStr "f"))
        with (VStr "sideways");
      intros [= H]; discriminate H.
  - apply (Hok 1 2 3 4 5 6 3 ∅); [left; reflexivity | reflexivity | lra].
Defined.

End ErrorHandlingFacts.

Section SystemFacts.
Import Systems Outline Kincar.
Local Open Scope R_scope.

(** C5, as stated, fails: in the frequency-domain notebook the linearized
    servomechanism [P] is constructed, then its [name] attribute is assigned,
    and only then it is printed and its zeros and poles are computed; [L],
    [Cnew] and [Lnew] are renamed after construction as well. *)
Lemma lti_renamed_after_construction :
  take 5 (drop 3 (cell_of "senior-carpet" frequency_domain)) =
    [Assign [TName "P"] ["servomech.linearize"];
     Assign [TAttr "P" "name"] [];
     Expr ["print"];
     Expr ["P.zeros"; "print"];
     Expr ["P.poles"; "print"]] /\
  pick attr_target frequency_domain =
    [("senior-carpet", ("P", "name")); ("hjQS_dED7yJE", ("L", "name"));
     ("vhKi_L-F_6Ws", ("Cnew", "name")); ("vhKi_L-F_6Ws", ("Lnew", "name"))].
Proof. split; vm_compute; reflexivity. Qed.

(** C5, amended.  The only attribute that notebook code assigns on any
    object is [name], on the linear systems [P], [L], [Cnew] and [Lnew] of
    the frequency-domain notebook; the assignment changes the name and
    leaves the numerical data of the system as constructed.  Item
    assignments only fill the arrays [zflag], [x], [u] and [ud]. *)
Theorem lti_changed_only_by_name :
  pick attr_target all_notebooks =
    [("senior-carpet", ("P", "name")); ("hjQS_dED7yJE", ("L", "name"));
     ("vhKi_L-F_6Ws", ("Cnew", "name")); ("vhKi_L-F_6Ws", ("Lnew", "name"))] /\
  remove_dups (snd <$> pick item_target all_notebooks) =
    ["zflag"; "x"; "u"; "ud"] /\
  (forall (D : Type) (obj : lti D) (n : string),
      lti_data (set_name obj n) = lti_data obj /\
      lti_name (set_name obj n) = n).
Proof.
  split; [vm_compute; reflexivity|].
  split; [vm_compute; reflexivity|].
  intros D obj n. split; reflexivity.
Qed.

(** The recovered heading and inputs of a car moving along the second
    axis (the flag [[0, 0, 0], [0, 1, 0]]), by direction. *)
Lemma arctan2_up : np_arctan2 1 0 = PI / 2.
Proof. unfold np_arctan2. repeat destruct Rlt_dec; lra. Qed.

Lemma arctan2_down : np_arctan2 (- (1)) (- 0) = - (PI / 2).
Proof. unfold np_arctan2. repeat destruct Rlt_dec; lra. Qed.

Lemma arctan2_level (x : R) : 0 < x -> np_arctan2 0 x = 0.
Proof.
  intros Hx. unfold np_arctan2. destruct Rlt_dec; [|lra].
  replace (0 / x) with 0 by (field; lra). apply atan_0.
Qed.

Lemma flat_reverse_forward_direction :
  _kincar_flat_reverse [[0; 0; 0]; [0; 1; 0]] ∅ = Ok ([0; 0; PI / 2], [1; 0]).
Proof.
  unfold _kincar_flat_reverse, heading.
  change (get ∅ "wheelbase" (VNum 3)) with (VNum 3).
  change (get ∅ "dir" (VStr "f")) with (VStr "f").
  change (is_str (VStr "f") "f") with true. cbn -[pow].
  rewrite arctan2_up, cos_PI2, sin_PI2. unfold np_div.
  destruct (Req_dec_T 3 0); [lra|]. cbn -[pow].
  replace (0 * 0 + 1 * 1) with 1 by ring.
  replace (0 * 0 - 0 * 1) with 0 by ring.
  replace (1 ^ 2 / 3) with (1 / 3) by field.
  rewrite (arctan2_level (1 / 3)) by lra. reflexivity.
Qed.

Lemma flat_reverse_reverse_direction :
  _kincar_flat_reverse [[0; 0; 0]; [0; 1; 0]] {[ "dir" := VStr "r" ]} =
  Ok ([0; 0; - (PI / 2)], [- 1; 0]).
Proof.
  unfold _kincar_flat_reverse, heading.
  change (get {[ "dir" := VStr "r" ]} "wheelbase" (VNum 3)) with (VNum 3).
  change (get {[ "dir" := VStr "r" ]} "dir" (VStr "f")) with (VStr "r").
  change (is_str (VStr "r") "f") with false.
  change (is_str (VStr "r") "r") with true. cbn -[pow].
  rewrite arctan2_down, cos_neg, sin_neg, cos_PI2, sin_PI2. unfold np_div.
  destruct (Req_dec_T 3 0); [lra|]. cbn -[pow].
  match goal with
  | |- context [np_arctan2 ?y ?x] =>
      replace y with 0 by ring; replace x with (1 / 3) by field
  end.
  rewrite (arctan2_level (1 / 3)) by lra. do 3 f_equal. ring.
Qed.

(** C6, as stated, fails: the proportional controller is constructed with
    [None] as update function, and the pendulum without output function. *)
Lemma systems_without_update_or_output :
  updfcn propctrl = None /\ outfcn propctrl = Some "propctrl_output" /\
  updfcn invpend = Some "invpend_update" /\ outfcn invpend = None /\
  pick (assigned_from "ct.nlsys") invpend_dynamics =
    [("cell-4", [TName "invpend"]); ("cell-10", [TName "propctrl"]);
     ("cell-25", [TName "statefbk"])].
Proof. repeat split; vm_compute; reflexivity. Qed.

(** C6, amended.  The notebooks construct five nonlinear systems.  Each is
    given an update function or an output function: [servomech] and
    [kincar] both, [invpend] only an update function, the controllers
    [propctrl] and [statefbk] only an output function.  The parameter
    dictionaries passed at construction ([servomech], [invpend]) hold
    numbers only; the other systems are constructed without one and their
    functions read parameters with defaults, among them the string-valued
    direction ['dir'] of the kinematic car, which changes what
    [_kincar_flat_reverse] returns: for a car moving along the second axis
    the heading [pi/2] and the velocity 1 with ['f'], the heading [-pi/2]
    and the velocity [-1] with ['r']. *)
Theorem nonlinear_system_constructions :
  pick (assigned_from "ct.nlsys") all_notebooks
  ++ pick (assigned_from "fs.FlatSystem") all_notebooks =
    (fun c => (in_cell c, [TName (bound_to c)])) <$> constructions /\
  Forall (fun c => is_Some (updfcn c) \/ is_Some (outfcn c)) constructions /\
  bound_to <$> List.filter
      (fun c => bool_decide (is_Some (updfcn c) /\ is_Some (outfcn c)))
      constructions = ["servomech"; "kincar"] /\
  Forall (fun c => forall p, params c = Some p -> all_scalar p) constructions /\
  all_scalar Invpend.clsys_params /\
  bound_to <$> List.filter (fun c => bool_decide (params c = None))
      constructions = ["propctrl"; "statefbk"; "kincar"] /\
  _kincar_flat_reverse [[0; 0; 0]; [0; 1; 0]] ∅ =
    Ok ([0; 0; PI / 2], [1; 0]) /\
  _kincar_flat_reverse [[0; 0; 0]; [0; 1; 0]] {[ "dir" := VStr "r" ]} =
    Ok ([0; 0; - (PI / 2)], [- 1; 0]).
Proof.
  split; [vm_compute; reflexivity|].
  split.
  { repeat (apply Forall_cons; split;
      [cbn; first [left; eexists; reflexivity | right; eexists; reflexivity]|]).
    constructor. }
  split; [vm_compute; reflexivity|].
  split.
  - repeat (apply Forall_cons; split; [|]); [..|constructor];
      cbn; intros p Hp k v Hkv; try discriminate Hp; injection Hp as <-.
    + unfold Servomech.servomech_params in Hkv.
      repeat (apply lookup_insert_Some in Hkv as [[_ <-]|[_ Hkv]]; [eauto|]).
      apply lookup_singleton_Some in Hkv as [_ <-]. eauto.
    + unfold Invpend.invpend_params in Hkv.
      repeat (apply lookup_insert_Some in Hkv as [[_ <-]|[_ Hkv]]; [eauto|]).
      apply lookup_singleton_Some in Hkv as [_ <-]. eauto.
  - split.
    { intros k v Hkv. unfold Invpend.clsys_params in Hkv.
      apply lookup_singleton_Some in Hkv as [_ <-]. eauto. }
    split; [vm_compute; reflexivity|].
    split; [exact flat_reverse_forward_direction
           |exact flat_reverse_reverse_direction].
Qed.

(** The dictionary passed to [servomech] holds numbers only. *)
Lemma nonlinear_system_constructions_witness :
  all_scalar Servomech.servomech_params.
Proof.
  destruct nonlinear_system_constructions as (_ & _ & _ & H & _).
  apply Forall_cons in H as [H _]. exact (H _ eq_refl).
Defined.

End SystemFacts.

(** * Further properties of the notebook code *)

Section DerivativeFacts.
Local Open Scope R_scope.

Lemma derivable_pt_lim_affine (a b x : R) :
  derivable_pt_lim (fun h => a + b * h) x b.
Proof.
  assert (H : derivable_pt_lim (fun h => a + b * h) x (0 + b * 1)).
  { apply (derivable_pt_lim_plus (fun _ => a) (fun h => b * h)).
    - apply derivable_pt_lim_const.
    - apply (derivable_pt_lim_scal id b x 1), derivable_pt_lim_id. }
  replace (0 + b * 1) with b in H by ring. exact H.
Qed.

Lemma derivable_pt_lim_sin_shift (a b c x : R) :
  derivable_pt_lim (fun h => a + b * sin (h + c)) x (b * cos (x + c)).
Proof.
  assert (H1 : derivable_pt_lim (fun h => c + 1 * h) x 1)
    by apply derivable_pt_lim_affine.
  pose proof (derivable_pt_lim_comp (fun h => c + 1 * h) sin x 1
                (cos (c + 1 * x)) H1 (derivable_pt_lim_sin _)) as H2.
  pose proof (derivable_pt_lim_scal _ b x _ H2) as H3.
  pose proof (derivable_pt_lim_plus (fun _ => a) _ x 0 _
                (derivable_pt_lim_const a x) H3) as H4.
  replace (0 + b * (cos (c + 1 * x) * 1)) with (b * cos (x + c)) in H4.
  - apply (derivable_pt_lim_local _ _ _ _ 1 Rlt_0_1) with (2 := H4).
    intros y _. unfold plus_fct, mult_real_fct, comp.
    replace (c + 1 * y) with (y + c) by ring. reflexivity.
  - replace (c + 1 * x) with (x + c) by ring. ring.
Qed.

End DerivativeFacts.

Section PoleFacts.
Import Invpend.
Local Open Scope R_scope.

(** Negative stiffness and damping entries: every pole is in the open left
    half plane. *)
Lemma poles_left (a b : R) (s : R * R) :
  a < 0 -> b < 0 -> is_pole ((0, 1), (a, b)) s -> fst s < 0.
Proof.
  intros Ha Hb H. apply (companion_poles_left (- a) (- b)); [lra | lra |].
  now rewrite !Ropp_involutive.
Qed.

(** A positive stiffness entry: there is a real pole in the open right half
    plane. *)
Lemma pole_right (a b : R) :
  0 < a -> exists s, is_pole ((0, 1), (a, b)) s /\ 0 < fst s.
Proof.
  intros Ha.
  assert (Hd : 0 <= b * b + 4 * a) by nra.
  pose proof (sqrt_sqrt _ Hd) as Hsq.
  pose proof (sqrt_pos (b * b + 4 * a)) as Hpos.
  set (d := sqrt (b * b + 4 * a)) in *.
  exists ((d + b) / 2, 0). split.
  - unfold is_pole, char_poly, Cmul, Csub, Creal. cbn. f_equal; nra.
  - cbn. assert (- b < d); [|lra].
    destruct (Rlt_dec (- b) d) as [H|H]; [exact H|].
    exfalso. assert (H' : d <= - b) by lra.
    assert (d * d <= (- b) * (- b)) by (apply Rmult_le_compat; lra).
    nra.
Qed.

(** A zero stiffness entry: the origin is a pole. *)
Lemma pole_origin (b : R) : is_pole ((0, 1), (0, b)) (0, 0).
Proof. unfold is_pole, char_poly, Cmul, Csub, Creal. cbn. f_equal; ring. Qed.

End PoleFacts.

Section ServomechDynamics.
Import Servomech Invpend Linearized.
Local Open Scope R_scope.

(** [servomech_update] with numeric parameters and a nonzero inertia. *)
Lemma servomech_update_numeric
    (t theta omega tau J b k r : R) (params : gmap string pyval) :
  get params "J" VNone = VNum J -> get params "b" VNone = VNum b ->
  get params "k" VNone = VNum k -> get params "r" VNone = VNum r ->
  J <> 0 ->
  servomech_update t [theta; omega] [tau] params =
  Ok [omega; 1 / J * (- b * omega - k * r * sin theta + tau)].
Proof.
  intros HJ Hb Hk Hr HJ0. unfold servomech_update.
  rewrite HJ, Hb, Hk, Hr. cbn. unfold div.
  destruct (Req_dec_T J 0); [contradiction|]. reflexivity.
Qed.

(** X1.  The equilibria of the servomechanism: with numeric parameters and a
    nonzero inertia [J], [servomech_update] returns the zero vector exactly
    when the velocity is zero and the torque balances the spring,
    [tau = k * r * sin(theta)]. *)
Theorem servomech_equilibria
    (t theta omega tau J b k r : R) (params : gmap string pyval) :
  get params "J" VNone = VNum J -> get params "b" VNone = VNum b ->
  get params "k" VNone = VNum k -> get params "r" VNone = VNum r ->
  J <> 0 ->
  (servomech_update t [theta; omega] [tau] params = Ok [0; 0] <->
   omega = 0 /\ tau = k * r * sin theta).
Proof.
  intros HJ Hb Hk Hr HJ0.
  rewrite (servomech_update_numeric _ _ _ _ J b k r) by assumption.
  split.
  - intros [= Hw Ha]. subst omega. split; [reflexivity|].
    apply Rmult_integral in Ha as [Ha|Ha].
    + exfalso. apply (Rinv_neq_0_compat J HJ0). lra.
    + lra.
  - intros [-> ->]. do 2 f_equal. f_equal. field. exact HJ0.
Qed.

Lemma servomech_equilibria_witness :
  servomech_update 0 [PI / 2; 0] [1] servomech_params = Ok [0; 0] <->
  0 = 0 /\ 1 = 1 * 1 * sin (PI / 2).
Proof.
  apply (servomech_equilibria 0 (PI / 2) 0 1 100 10 1 1 servomech_params);
    try reflexivity.
  lra.
Defined.

(** X2.  How [servomech_update] and [servomech_output] fail.  A state or
    input that is too short raises [IndexError] before any parameter is
    read.  [servomech_update] reads its parameters with [params.get], so a
    missing inertia is [None] and raises [TypeError] when it is divided by,
    and a zero inertia raises [ZeroDivisionError]; [servomech_output] reads
    ['l'] by subscript, so a missing ['l'] raises [KeyError]. *)
Theorem servomech_failures
    (t : R) (x u : list R) (params : gmap string pyval) :
  ((length x < 2)%nat \/ u = [] ->
   servomech_update t x u params = Raise IndexError) /\
  ((2 <= length x)%nat -> u <> [] -> params !! "J" = None ->
   servomech_update t x u params = Raise TypeError) /\
  ((2 <= length x)%nat -> u <> [] -> params !! "J" = Some (VNum 0) ->
   servomech_update t x u params = Raise ZeroDivisionError) /\
  (params !! "l" = None ->
   servomech_output t x u params = Raise (KeyError "l")).
Proof.
  repeat split.
  - intros [Hx | ->]; unfold servomech_update.
    + destruct x as [|a [|b x]]; cbn in Hx; try lia; reflexivity.
    + destruct x as [|a [|b x]]; reflexivity.
  - intros Hx Hu HJ. unfold servomech_update, get. rewrite HJ.
    destruct x as [|a [|b x]]; cbn in Hx; try lia.
    destruct u; [contradiction|]. reflexivity.
  - intros Hx Hu HJ. unfold servomech_update, get. rewrite HJ.
    destruct x as [|a [|b x]]; cbn in Hx; try lia.
    destruct u; [contradiction|]. cbn. unfold div.
    destruct (Req_dec_T 0 0); [reflexivity|lra].
  - intros Hl. unfold servomech_output, getitem. now rewrite Hl.
Qed.

Lemma servomech_failures_witness :
  servomech_update 0 [1] [1] servomech_params = Raise IndexError /\
  servomech_update 0 [1; 2] [1] ∅ = Raise TypeError /\
  servomech_update 0 [1; 2] [1] {[ "J" := VNum 0 ]} = Raise ZeroDivisionError /\
  servomech_output 0 [1; 2] [1] ∅ = Raise (KeyError "l").
Proof.
  split; [|split; [|split]].
  - apply (proj1 (servomech_failures 0 [1] [1] servomech_params)).
    left. cbn. lia.
  - apply (proj1 (proj2 (servomech_failures 0 [1; 2] [1] ∅)));
      [cbn; lia | discriminate | reflexivity].
  - apply (proj1 (proj2 (proj2
             (servomech_failures 0 [1; 2] [1] {[ "J" := VNum 0 ]}))));
      [cbn; lia | discriminate | reflexivity].
  - apply (proj2 (proj2 (proj2 (servomech_failures 0 [1; 2] [1] ∅)))).
    reflexivity.
Defined.

Lemma servomech_rhs_0 (tau x0 x1 : R) : servomech_rhs tau 0 x0 x1 = x1.
Proof.
  unfold servomech_rhs.
  rewrite (servomech_update_numeric _ _ _ _ 100 10 1 1) by (reflexivity || lra).
  reflexivity.
Qed.

Lemma servomech_rhs_1 (tau x0 x1 : R) :
  servomech_rhs tau 1 x0 x1 = 1 / 100 * (- 10 * x1 - 1 * 1 * sin x0 + tau).
Proof.
  unfold servomech_rhs.
  rewrite (servomech_update_numeric _ _ _ _ 100 10 1 1) by (reflexivity || lra).
  reflexivity.
Qed.

(** X3.  The linearization of the servomechanism (notebook parameters) at
    any state [[theta, omega]] and torque has the state matrix
    [[0, 1], [-cos(theta)/100, -1/10]].  Where [cos(theta) > 0], as at the
    notebook's 15 degrees, all its poles are in the open left half plane;
    where [cos(theta) < 0] it has a pole in the open right half plane. *)
Theorem servomech_linearization (theta omega tau : R) :
  is_state_matrix (servomech_rhs tau) theta omega
    ((0, 1), (- cos theta / 100, - (1 / 10))) /\
  (0 < cos theta ->
   forall s, is_pole ((0, 1), (- cos theta / 100, - (1 / 10))) s -> fst s < 0) /\
  (cos theta < 0 ->
   exists s, is_pole ((0, 1), (- cos theta / 100, - (1 / 10))) s /\ 0 < fst s).
Proof.
  split; [|split].
  - unfold is_state_matrix. repeat split.
    + apply (derivable_pt_lim_local _ (fun _ => omega) _ _ 1); [lra| |].
      * intros y _. apply servomech_rhs_0.
      * apply derivable_pt_lim_const.
    + apply (derivable_pt_lim_local _ id _ _ 1); [lra| |].
      * intros y _. apply servomech_rhs_0.
      * apply derivable_pt_lim_id.
    + apply (derivable_pt_lim_local _
               (fun h => (1 / 100 * (- 10 * omega + tau))
                         + (- (1 / 100)) * sin (h + 0)) _ _ 1); [lra| |].
      * intros y _. rewrite servomech_rhs_1, Rplus_0_r. field.
      * replace (- cos theta / 100) with (- (1 / 100) * cos (theta + 0)).
        -- apply derivable_pt_lim_sin_shift.
        -- rewrite Rplus_0_r. field.
    + apply (derivable_pt_lim_local _
               (fun h => (1 / 100 * (- 1 * 1 * sin theta + tau))
                         + (- (1 / 10)) * h) _ _ 1); [lra| |].
      * intros y _. rewrite servomech_rhs_1. field.
      * apply derivable_pt_lim_affine.
  - intros Hc s. apply poles_left; lra.
  - intros Hc. apply pole_right. lra.
Qed.

Lemma servomech_linearization_witness :
  is_pole ((0, 1), (- cos 0 / 100, - (1 / 10))) (- (1 / 20), sqrt 3 / 20) /\
  fst (- (1 / 20), sqrt 3 / 20) < 0.
Proof.
  assert (H : is_pole ((0, 1), (- cos 0 / 100, - (1 / 10)))
                (- (1 / 20), sqrt 3 / 20)).
  { unfold is_pole, char_poly, Cmul, Csub, Creal. cbn. rewrite cos_0.
    assert (Hs : sqrt 3 * sqrt 3 = 3) by (apply sqrt_sqrt; lra).
    f_equal; nra. }
  split; [exact H|].
  refine (proj1 (proj2 (servomech_linearization 0 0 0)) _ _ H).
  rewrite cos_0. lra.
Defined.

End ServomechDynamics.

Section PendulumDynamics.
Import Invpend Linearized.
Local Open Scope R_scope.

(** [invpend_update] with the notebook's parameters. *)
Lemma invpend_update_notebook (t x0 x1 u : R) :
  invpend_update t [x0; x1] [u] invpend_params =
  Ok [x1; - (1 / 2) / 1 * x1 + 1 * 1 / 1 * sin (x0 + np_clip u (- 1) 1 / 1)].
Proof.
  unfold invpend_update, usat.
  change (get invpend_params "umax" (VNum 1)) with (VNum 1).
  change (getitem invpend_params "m") with (Ok (A:=pyval) (VNum 1)).
  change (getitem invpend_params "l") with (Ok (A:=pyval) (VNum 1)).
  change (getitem invpend_params "b") with (Ok (A:=pyval) (VNum (1 / 2))).
  change (getitem invpend_params "g") with (Ok (A:=pyval) (VNum 1)).
  cbn. unfold div. destruct (Req_dec_T 1 0) as [E|E]; [lra|]. reflexivity.
Qed.

Lemma clip_zero : np_clip 0 (- 1) 1 = 0.
Proof. unfold np_clip, Rmin, Rmax. repeat destruct Rle_dec; lra. Qed.

(** X4.  The equilibria of the pendulum (notebook parameters): the state
    derivative is zero exactly when the velocity is zero and the sine of the
    angle shifted by the saturated input vanishes.  With zero input the
    upright position [0] and the hanging positions [pi] and [-pi] are
    equilibria. *)
Theorem invpend_equilibria (t : R) :
  (forall x0 x1 u : R,
      invpend_update t [x0; x1] [u] invpend_params = Ok [0; 0] <->
      x1 = 0 /\ sin (x0 + np_clip u (- 1) 1) = 0) /\
  invpend_update t [0; 0] [0] invpend_params = Ok [0; 0] /\
  invpend_update t [PI; 0] [0] invpend_params = Ok [0; 0] /\
  invpend_update t [- PI; 0] [0] invpend_params = Ok [0; 0].
Proof.
  assert (H : forall x0 x1 u : R,
      invpend_update t [x0; x1] [u] invpend_params = Ok [0; 0] <->
      x1 = 0 /\ sin (x0 + np_clip u (- 1) 1) = 0).
  { intros x0 x1 u. rewrite invpend_update_notebook.
    replace (x0 + np_clip u (- 1) 1 / 1) with (x0 + np_clip u (- 1) 1) by field.
    split.
    - intros [= Hv Ha]. subst x1. split; [reflexivity|]. lra.
    - intros [-> Hs]. rewrite Hs. do 2 f_equal. f_equal. field. }
  split; [exact H|].
  split; [|split]; apply H; rewrite clip_zero, Rplus_0_r.
  - split; [reflexivity | apply sin_0].
  - split; [reflexivity | apply sin_PI].
  - split; [reflexivity|]. rewrite sin_neg, sin_PI. ring.
Qed.

Lemma invpend_rhs_0 (u x0 x1 : R) : invpend_rhs u 0 x0 x1 = x1.
Proof. unfold invpend_rhs. now rewrite invpend_update_notebook. Qed.

Lemma invpend_rhs_1 (u x0 x1 : R) :
  invpend_rhs u 1 x0 x1 =
  - (1 / 2) / 1 * x1 + 1 * 1 / 1 * sin (x0 + np_clip u (- 1) 1 / 1).
Proof. unfold invpend_rhs. now rewrite invpend_update_notebook. Qed.

(** The state matrix of a right hand side of the form
    [[x1, -x1/2 + sin(x0 + c)]]. *)
Lemma pendulum_state_matrix (f : nat -> R -> R -> R) (c x0 x1 : R) :
  (forall y0 y1, f 0%nat y0 y1 = y1) ->
  (forall y0 y1, f 1%nat y0 y1 = - (1 / 2) * y1 + sin (y0 + c)) ->
  is_state_matrix f x0 x1 ((0, 1), (cos (x0 + c), - (1 / 2))).
Proof.
  intros H0 H1. unfold is_state_matrix. repeat split.
  - apply (derivable_pt_lim_local _ (fun _ => x1) _ _ 1); [lra| |].
    + intros y _. apply H0.
    + apply derivable_pt_lim_const.
  - apply (derivable_pt_lim_local _ id _ _ 1); [lra| |].
    + intros y _. apply H0.
    + apply derivable_pt_lim_id.
  - apply (derivable_pt_lim_local _
             (fun h => - (1 / 2) * x1 + 1 * sin (h + c)) _ _ 1); [lra| |].
    + intros y _. rewrite H1. ring.
    + replace (cos (x0 + c)) with (1 * cos (x0 + c)) by ring.
      apply derivable_pt_lim_sin_shift.
  - apply (derivable_pt_lim_local _
             (fun h => sin (x0 + c) + - (1 / 2) * h) _ _ 1); [lra| |].
    + intros y _. rewrite H1. ring.
    + apply derivable_pt_lim_affine.
Qed.

(** X5.  The open-loop pendulum linearized at the state [[theta, omega]] and
    a constant input has the state matrix [[0, 1], [cos(theta + usat), -1/2]].
    At the upright equilibrium (zero input) it has a pole in the open right
    half plane, and at the hanging equilibrium [[pi, 0]] all its poles are
    in the open left half plane. *)
Theorem invpend_linearization :
  (forall theta omega u : R,
      is_state_matrix (invpend_rhs u) theta omega
        ((0, 1), (cos (theta + np_clip u (- 1) 1), - (1 / 2)))) /\
  is_state_matrix (invpend_rhs 0) 0 0 ((0, 1), (1, - (1 / 2))) /\
  (exists s, is_pole ((0, 1), (1, - (1 / 2))) s /\ 0 < fst s) /\
  is_state_matrix (invpend_rhs 0) PI 0 ((0, 1), (- 1, - (1 / 2))) /\
  (forall s, is_pole ((0, 1), (- 1, - (1 / 2))) s -> fst s < 0).
Proof.
  assert (H : forall theta omega u : R,
      is_state_matrix (invpend_rhs u) theta omega
        ((0, 1), (cos (theta + np_clip u (- 1) 1), - (1 / 2)))).
  { intros theta omega u. apply pendulum_state_matrix.
    - intros. apply invpend_rhs_0.
    - intros y0 y1. rewrite invpend_rhs_1.
      replace (y0 + np_clip u (- 1) 1 / 1) with (y0 + np_clip u (- 1) 1)
        by field.
      field. }
  split; [exact H|]. split; [|split; [|split]].
  - specialize (H 0 0 0). rewrite clip_zero, Rplus_0_r, cos_0 in H. exact H.
  - apply pole_right. lra.
  - specialize (H PI 0 0). rewrite clip_zero, Rplus_0_r, cos_PI in H. exact H.
  - intros s. apply poles_left; lra.
Qed.

Lemma invpend_linearization_witness :
  is_pole ((0, 1), (- 1, - (1 / 2))) (- (1 / 4), sqrt 15 / 4) /\
  fst (- (1 / 4), sqrt 15 / 4) < 0.
Proof.
  assert (H : is_pole ((0, 1), (- 1, - (1 / 2))) (- (1 / 4), sqrt 15 / 4)).
  { unfold is_pole, char_poly, Cmul, Csub, Creal. cbn.
    assert (Hs : sqrt 15 * sqrt 15 = 15) by (apply sqrt_sqrt; lra).
    f_equal; nra. }
  split; [exact H|].
  exact (proj2 (proj2 (proj2 (proj2 invpend_linearization))) _ H).
Defined.

(** X6.  The closed loop linearized at the origin has the state matrix
    [[0, 1], [1 - kp, -1/2]] for every gain.  For [kp > 1] all its poles are
    in the open left half plane; for [kp < 1] (the notebook tries 0) it has
    a pole in the open right half plane; for [kp = 1] the origin is a
    pole. *)
Theorem closed_loop_gain_threshold (kp : R) :
  is_state_matrix (clsys_rhs0 kp) 0 0 ((0, 1), (1 - kp, - (1 / 2))) /\
  (1 < kp ->
   forall s, is_pole ((0, 1), (1 - kp, - (1 / 2))) s -> fst s < 0) /\
  (kp < 1 ->
   exists s, is_pole ((0, 1), (1 - kp, - (1 / 2))) s /\ 0 < fst s) /\
  (kp = 1 -> is_pole ((0, 1), (1 - kp, - (1 / 2))) (0, 0)).
Proof.
  split; [exact (clsys_state_matrix kp)|]. split; [|split].
  - intros Hk s. apply poles_left; lra.
  - intros Hk. apply pole_right. lra.
  - intros ->. replace (1 - 1) with 0 by ring. apply pole_origin.
Qed.

Lemma closed_loop_gain_threshold_witness :
  is_pole ((0, 1), (1 - 5, - (1 / 2))) (- (1 / 4), sqrt 63 / 4) /\
  fst (- (1 / 4), sqrt 63 / 4) < 0.
Proof.
  assert (H : is_pole ((0, 1), (1 - 5, - (1 / 2))) (- (1 / 4), sqrt 63 / 4)).
  { unfold is_pole, char_poly, Cmul, Csub, Creal. cbn.
    assert (Hs : sqrt 63 * sqrt 63 = 63) by (apply sqrt_sqrt; lra).
    f_equal; nra. }
  split; [exact H|].
  refine (proj1 (proj2 (closed_loop_gain_threshold 5)) _ _ H). lra.
Defined.

Lemma clip_saturated_low (kp x : R) :
  1 < kp -> / kp <= x -> np_clip (- kp * (x - 0)) (- 1) 1 = - 1.
Proof.
  intros Hk Hx.
  assert (Hinv : 0 < / kp) by (apply Rinv_0_lt_compat; lra).
  assert (1 <= kp * x).
  { replace 1 with (kp * / kp) by (field; lra).
    apply Rmult_le_compat_l; lra. }
  unfold np_clip, Rmin, Rmax. repeat destruct Rle_dec; lra.
Qed.

Lemma clip_saturated_high (kp x : R) :
  1 < kp -> x <= - / kp -> np_clip (- kp * (x - 0)) (- 1) 1 = 1.
Proof.
  intros Hk Hx.
  assert (Hinv : 0 < / kp) by (apply Rinv_0_lt_compat; lra).
  assert (kp * x <= - 1).
  { replace (- 1) with (kp * - / kp) by (field; lra).
    apply Rmult_le_compat_l; lra. }
  unfold np_clip, Rmin, Rmax. repeat destruct Rle_dec; lra.
Qed.

(** X7.  Saturation gives the closed loop two more equilibria: for a gain
    [kp > 1] and the reference 0 the states [[1, 0]] and [[-1, 0]], where
    the input is saturated at [-1] and [1], are equilibria, and the
    linearization at each has the state matrix [[0, 1], [1, -1/2]], which
    has a pole in the open right half plane. *)
Theorem closed_loop_saturated_equilibria (t kp : R) :
  1 < kp ->
  clsys_update t [1; 0] [0] {[ "kp" := VNum kp ]} = Ok [0; 0] /\
  clsys_update t [- 1; 0] [0] {[ "kp" := VNum kp ]} = Ok [0; 0] /\
  is_state_matrix (clsys_rhs0 kp) 1 0 ((0, 1), (1, - (1 / 2))) /\
  is_state_matrix (clsys_rhs0 kp) (- 1) 0 ((0, 1), (1, - (1 / 2))) /\
  (exists s, is_pole ((0, 1), (1, - (1 / 2))) s /\ 0 < fst s).
Proof.
  intros Hk.
  assert (Hinv : 0 < / kp < 1).
  { split; [apply Rinv_0_lt_compat; lra|].
    rewrite <- Rinv_1. apply Rinv_lt_contravar; lra. }
  split; [|split; [|split; [|split]]].
  - rewrite clsys_update_eq, clip_saturated_low by lra.
    replace (1 + - 1 / 1) with 0 by field. rewrite sin_0.
    do 2 f_equal. f_equal. field.
  - rewrite clsys_update_eq, clip_saturated_high by lra.
    replace (- 1 + 1 / 1) with 0 by field. rewrite sin_0.
    do 2 f_equal. f_equal. field.
  - unfold is_state_matrix, clsys_rhs0. repeat split.
    + apply (derivable_pt_lim_local _ (fun _ => 0) _ _ 1); [lra| |].
      * intros y _. apply clsys_rhs_0.
      * apply derivable_pt_lim_const.
    + apply (derivable_pt_lim_local _ id _ _ 1); [lra| |].
      * intros y _. apply clsys_rhs_0.
      * apply derivable_pt_lim_id.
    + apply (derivable_pt_lim_local _ (fun h => 0 + 1 * sin (h + - 1)) _ _
               (1 - / kp)); [lra| |].
      * intros y Hy. apply Rabs_def2 in Hy.
        rewrite clsys_rhs_1, clip_saturated_low by lra.
        replace (y + - 1 / 1) with (y + - 1) by field. field.
      * pose proof (derivable_pt_lim_sin_shift 0 1 (- 1) 1) as Hd.
        replace (1 * cos (1 + - 1)) with 1 in Hd; [exact Hd|].
        replace (1 + - 1) with 0 by ring. rewrite cos_0. ring.
    + apply (derivable_pt_lim_local _ (fun h => 0 + - (1 / 2) * h) _ _ 1);
        [lra| |].
      * intros y _. rewrite clsys_rhs_1, clip_saturated_low by lra.
        replace (1 + - 1 / 1) with 0 by field. rewrite sin_0. field.
      * apply derivable_pt_lim_affine.
  - unfold is_state_matrix, clsys_rhs0. repeat split.
    + apply (derivable_pt_lim_local _ (fun _ => 0) _ _ 1); [lra| |].
      * intros y _. apply clsys_rhs_0.
      * apply derivable_pt_lim_const.
    + apply (derivable_pt_lim_local _ id _ _ 1); [lra| |].
      * intros y _. apply clsys_rhs_0.
      * apply derivable_pt_lim_id.
    + apply (derivable_pt_lim_local _ (fun h => 0 + 1 * sin (h + 1)) _ _
               (1 - / kp)); [lra| |].
      * intros y Hy. apply Rabs_def2 in Hy.
        rewrite clsys_rhs_1, clip_saturated_high by lra.
        replace (y + 1 / 1) with (y + 1) by field. field.
      * pose proof (derivable_pt_lim_sin_shift 0 1 1 (- 1)) as Hd.
        replace (1 * cos (- 1 + 1)) with 1 in Hd; [exact Hd|].
        replace (- 1 + 1) with 0 by ring. rewrite cos_0. ring.
    + apply (derivable_pt_lim_local _ (fun h => 0 + - (1 / 2) * h) _ _ 1);
        [lra| |].
      * intros y _. rewrite clsys_rhs_1, clip_saturated_high by lra.
        replace (- 1 + 1 / 1) with 0 by field. rewrite sin_0. field.
      * apply derivable_pt_lim_affine.
  - apply pole_right. lra.
Qed.

Lemma closed_loop_saturated_witness :
  clsys_update 0 [1; 0] [0] {[ "kp" := VNum 10 ]} = Ok [0; 0].
Proof.
  refine (proj1 (closed_loop_saturated_equilibria 0 10 _)). lra.
Defined.

End PendulumDynamics.

Section KincarDynamics.
Import Kincar Linearized.
Local Open Scope R_scope.

(** The flat flag in closed form, for a numeric nonzero wheelbase and a
    steering angle off the poles of the tangent. *)
Lemma flat_forward_eq (params : gmap string pyval) (b x0 x1 x2 u0 u1 : R) :
  get params "wheelbase" (VNum 3) = VNum b -> b <> 0 -> cos u1 <> 0 ->
  _kincar_flat_forward [x0; x1; x2] [u0; u1] params =
  Ok [[x0; u0 * cos x2; - u0 * (u0 / b * tan u1) * sin x2];
      [x1; u0 * sin x2; u0 * (u0 / b * tan u1) * cos x2]].
Proof.
  intros Hb Hb0 Hc. unfold _kincar_flat_forward. rewrite Hb. cbn.
  unfold np_div, np_tan.
  destruct (Req_dec_T b 0); [contradiction|].
  destruct (Req_dec_T (cos u1) 0); [contradiction|]. reflexivity.
Qed.

(** The state and input recovered from a full flag, by direction. *)
Lemma flat_reverse_eq_f (params : gmap string pyval)
    (b z00 z01 z02 z10 z11 z12 : R) :
  get params "wheelbase" (VNum 3) = VNum b -> b <> 0 ->
  get params "dir" (VStr "f") = VStr "f" ->
  _kincar_flat_reverse [[z00; z01; z02]; [z10; z11; z12]] params =
  let x2 := np_arctan2 z11 z01 in
  let v := z01 * cos x2 + z11 * sin x2 in
  Ok ([z00; z10; x2],
      [v; np_arctan2 (z12 * cos x2 - z02 * sin x2) (v ^ 2 / b)]).
Proof.
  intros Hb Hb0 Hd. unfold _kincar_flat_reverse, heading. rewrite Hb, Hd.
  change (is_str (VStr "f") "f") with true. cbn -[pow]. unfold np_div.
  destruct (Req_dec_T b 0); [contradiction|]. reflexivity.
Qed.

Lemma flat_reverse_eq_r (params : gmap string pyval)
    (b z00 z01 z02 z10 z11 z12 : R) :
  get params "wheelbase" (VNum 3) = VNum b -> b <> 0 ->
  get params "dir" (VStr "f") = VStr "r" ->
  _kincar_flat_reverse [[z00; z01; z02]; [z10; z11; z12]] params =
  let x2 := np_arctan2 (- z11) (- z01) in
  let v := z01 * cos x2 + z11 * sin x2 in
  Ok ([z00; z10; x2],
      [v; np_arctan2 (z12 * cos x2 - z02 * sin x2) (v ^ 2 / b)]).
Proof.
  intros Hb Hb0 Hd. unfold _kincar_flat_reverse, heading. rewrite Hb, Hd.
  change (is_str (VStr "r") "f") with false.
  change (is_str (VStr "r") "r") with true. cbn -[pow]. unfold np_div.
  destruct (Req_dec_T b 0); [contradiction|]. reflexivity.
Qed.

Lemma sin2_cos2_sum (th : R) : cos th * cos th + sin th * sin th = 1.
Proof. pose proof (sin2_cos2 th) as H. unfold Rsqr in H. lra. Qed.

(** The steering angle is recovered from the turning rate. *)
Lemma steering_recovered (b v u1 : R) :
  0 < b -> v <> 0 -> - (PI / 2) < u1 < PI / 2 ->
  np_arctan2 (v * (v / b * tan u1)) (v ^ 2 / b) = u1.
Proof.
  intros Hb Hv Hu.
  assert (Hd : 0 < v ^ 2 / b).
  { apply Rdiv_lt_0_compat; [|exact Hb].
    replace (v ^ 2) with (v * v) by ring.
    destruct (Rlt_dec 0 v); nra. }
  rewrite arctan2_right_half by exact Hd.
  replace (v * (v / b * tan u1) / (v ^ 2 / b)) with (tan u1)
    by (field; split; lra).
  apply atan_tan. lra.
Qed.

(** X8.  The flat maps of the kinematic car are inverse to each other for
    every positive wheelbase and in both directions: with [dir = 'f'] for a
    positive velocity and with [dir = 'r'] for a negative velocity, for a
    heading in [(-pi, pi]] and a steering angle in [(-pi/2, pi/2)],
    [_kincar_flat_reverse(_kincar_flat_forward(x, u, params), params)]
    returns [(x, u)]. *)
Theorem kincar_flat_roundtrip_directions
    (b x0 x1 x2 u0 u1 : R) (dir : string) :
  0 < b -> - (PI / 2) < u1 < PI / 2 -> - PI < x2 <= PI ->
  (dir = "f" /\ 0 < u0) \/ (dir = "r" /\ u0 < 0) ->
  (zflag ← _kincar_flat_forward [x0; x1; x2] [u0; u1]
             {[ "wheelbase" := VNum b; "dir" := VStr dir ]};
   _kincar_flat_reverse zflag {[ "wheelbase" := VNum b; "dir" := VStr dir ]})
  = Ok ([x0; x1; x2], [u0; u1]).
Proof.
  intros Hb Hu1 Hx2 Hdir.
  assert (Hcu : cos u1 <> 0) by (apply Rgt_not_eq, cos_gt_0; lra).
  pose proof (sin2_cos2_sum x2) as Hsc.
  destruct Hdir as [[-> Hu0] | [-> Hu0]].
  - rewrite (flat_forward_eq _ b) by (reflexivity || lra || assumption).
    cbn [mbind result_bind].
    rewrite (flat_reverse_eq_f _ b) by (reflexivity || lra).
    cbv zeta.
    rewrite (arctan2_polar u0 x2) by assumption.
    replace (u0 * cos x2 * cos x2 + u0 * sin x2 * sin x2) with u0 by nra.
    replace (u0 * (u0 / b * tan u1) * cos x2 * cos x2
             - - u0 * (u0 / b * tan u1) * sin x2 * sin x2)
      with (u0 * (u0 / b * tan u1)).
    + rewrite steering_recovered by (lra || assumption). reflexivity.
    + transitivity
        (u0 * (u0 / b * tan u1) * (cos x2 * cos x2 + sin x2 * sin x2));
        [rewrite Hsc; ring | ring].
  - rewrite (flat_forward_eq _ b) by (reflexivity || lra || assumption).
    cbn [mbind result_bind].
    rewrite (flat_reverse_eq_r _ b) by (reflexivity || lra).
    cbv zeta.
    replace (- (u0 * sin x2)) with (- u0 * sin x2) by ring.
    replace (- (u0 * cos x2)) with (- u0 * cos x2) by ring.
    rewrite (arctan2_polar (- u0) x2) by (lra || assumption).
    replace (u0 * cos x2 * cos x2 + u0 * sin x2 * sin x2) with u0 by nra.
    replace (u0 * (u0 / b * tan u1) * cos x2 * cos x2
             - - u0 * (u0 / b * tan u1) * sin x2 * sin x2)
      with (u0 * (u0 / b * tan u1)).
    + rewrite steering_recovered by (lra || assumption). reflexivity.
    + transitivity
        (u0 * (u0 / b * tan u1) * (cos x2 * cos x2 + sin x2 * sin x2));
        [rewrite Hsc; ring | ring].
Qed.

Lemma kincar_flat_roundtrip_directions_witness :
  (zflag ← _kincar_flat_forward [0; 0; 0] [- 1; 0]
             {[ "wheelbase" := VNum 2; "dir" := VStr "r" ]};
   _kincar_flat_reverse zflag {[ "wheelbase" := VNum 2; "dir" := VStr "r" ]})
  = Ok ([0; 0; 0], [- 1; 0]).
Proof.
  pose proof PI_RGT_0 as Hpi.
  apply kincar_flat_roundtrip_directions; try lra. right. split; [reflexivity|lra].
Defined.

(** X9.  A reversing car under the default direction ['f'] is not
    recovered: for a negative velocity and a nonzero heading in
    [(-pi, pi]] the round trip returns the opposite heading, the opposite
    velocity and the opposite steering angle. *)
Theorem kincar_flat_wrong_direction (x0 x1 x2 u0 u1 : R) :
  u0 < 0 -> - (PI / 2) < u1 < PI / 2 -> - PI < x2 <= PI -> x2 <> 0 ->
  (zflag ← _kincar_flat_forward [x0; x1; x2] [u0; u1] ∅;
   _kincar_flat_reverse zflag ∅)
  = Ok ([x0; x1; if Rlt_dec x2 0 then x2 + PI else x2 - PI], [- u0; - u1]).
Proof.
  intros Hu0 Hu1 Hx2 Hne.
  assert (Hcu : cos u1 <> 0) by (apply Rgt_not_eq, cos_gt_0; lra).
  pose proof (sin2_cos2_sum x2) as Hsc.
  rewrite (flat_forward_eq _ 3) by (reflexivity || lra || assumption).
  cbn [mbind result_bind].
  rewrite (flat_reverse_eq_f _ 3) by (reflexivity || lra).
  cbv zeta.
  set (th := if Rlt_dec x2 0 then x2 + PI else x2 - PI).
  assert (Hth : - PI < th <= PI) by (unfold th; destruct Rlt_dec; lra).
  assert (Hs : sin th = - sin x2).
  { unfold th. destruct Rlt_dec.
    - apply neg_sin.
    - unfold Rminus. rewrite sin_plus, cos_neg, sin_neg, cos_PI, sin_PI. ring. }
  assert (Hc : cos th = - cos x2).
  { unfold th. destruct Rlt_dec.
    - apply neg_cos.
    - unfold Rminus. rewrite cos_plus, cos_neg, sin_neg, cos_PI, sin_PI. ring. }
  replace (u0 * sin x2) with (- u0 * sin th) by (rewrite Hs; ring).
  replace (u0 * cos x2) with (- u0 * cos th) by (rewrite Hc; ring).
  rewrite (arctan2_polar (- u0) th) by (lra || assumption).
  replace (- u0 * cos th * cos th + - u0 * sin th * sin th) with (- u0).
  2:{ pose proof (sin2_cos2_sum th). nra. }
  replace (u0 * (u0 / 3 * tan u1) * cos x2 * cos th
           - - u0 * (u0 / 3 * tan u1) * sin x2 * sin th)
    with (- u0 * (- u0 / 3 * tan (- u1))).
  - rewrite steering_recovered by lra. reflexivity.
  - rewrite tan_neg, Hs, Hc.
    transitivity
      (- (u0 * (u0 / 3 * tan u1)) * (cos x2 * cos x2 + sin x2 * sin x2));
      [rewrite Hsc; field | ring].
Qed.

Lemma kincar_flat_wrong_direction_witness :
  (zflag ← _kincar_flat_forward [0; 0; PI] [- 1; 0] ∅;
   _kincar_flat_reverse zflag ∅)
  = Ok ([0; 0; if Rlt_dec PI 0 then PI + PI else PI - PI], [- - 1; - 0]).
Proof.
  pose proof PI_RGT_0 as Hpi.
  apply kincar_flat_wrong_direction; lra.
Defined.

(** The right hand side in closed form. *)
Lemma kincar_update_eq (params : gmap string pyval) (t b x0 x1 x2 u0 u1 : R) :
  get params "wheelbase" (VNum 3) = VNum b -> b <> 0 -> cos u1 <> 0 ->
  _kincar_update t [x0; x1; x2] [u0; u1] params =
  Ok [cos x2 * u0; sin x2 * u0; u0 / b * tan u1].
Proof.
  intros Hb Hb0 Hc. unfold _kincar_update. rewrite Hb. cbn.
  unfold np_div, np_tan.
  destruct (Req_dec_T b 0); [contradiction|].
  destruct (Req_dec_T (cos u1) 0); [contradiction|]. reflexivity.
Qed.

(** X10.  [_kincar_update] returns a (finite) state derivative exactly when
    the state has three entries or more, the input two or more, the
    wheelbase is a nonzero number and the steering angle is off the poles
    of the tangent; [_kincar_flat_forward] returns a flag under exactly the
    same conditions. *)
Theorem kincar_update_defined
    (t : R) (x u : list R) (params : gmap string pyval) :
  ((exists dx, _kincar_update t x u params = Ok dx) <->
   (3 <= length x)%nat /\
   (exists b u0 u1 rest,
      u = u0 :: u1 :: rest /\
      get params "wheelbase" (VNum 3) = VNum b /\ b <> 0 /\ cos u1 <> 0)) /\
  ((exists dx, _kincar_update t x u params = Ok dx) <->
   (exists z, _kincar_flat_forward x u params = Ok z)).
Proof.
  assert (Hup : (exists dx, _kincar_update t x u params = Ok dx) <->
    (3 <= length x)%nat /\
    (exists b u0 u1 rest,
       u = u0 :: u1 :: rest /\
       get params "wheelbase" (VNum 3) = VNum b /\ b <> 0 /\ cos u1 <> 0)).
  { unfold _kincar_update. split.
    - intros [dx H].
      destruct x as [|x0 [|x1 [|x2 x']]]; try discriminate H.
      destruct u as [|u0 [|u1 rest]]; cbn in H; try discriminate H.
      + destruct (get params "wheelbase" (VNum 3)); cbn in H;
          try discriminate H.
        unfold np_div in H. destruct (Req_dec_T r 0); discriminate H.
      + destruct (get params "wheelbase" (VNum 3)) as [b| |] eqn:Eb;
          cbn in H; try discriminate H.
        unfold np_div in H. destruct (Req_dec_T b 0); [discriminate H|].
        cbn in H. unfold np_tan in H.
        destruct (Req_dec_T (cos u1) 0); [discriminate H|].
        split; [cbn; lia|]. exists b, u0, u1, rest. auto.
    - intros [Hx (b & u0 & u1 & rest & -> & Hb & Hb0 & Hc)].
      destruct x as [|x0 [|x1 [|x2 x']]]; cbn in Hx; try lia.
      rewrite Hb. cbn. unfold np_div, np_tan.
      destruct (Req_dec_T b 0); [contradiction|]. cbn.
      destruct (Req_dec_T (cos u1) 0); [contradiction|]. cbn. eauto. }
  split; [exact Hup|]. rewrite Hup. clear Hup.
  unfold _kincar_flat_forward. split.
  - intros [Hx (b & u0 & u1 & rest & -> & Hb & Hb0 & Hc)].
    destruct x as [|x0 [|x1 [|x2 x']]]; cbn in Hx; try lia.
    rewrite Hb. cbn. unfold np_div, np_tan.
    destruct (Req_dec_T b 0); [contradiction|]. cbn.
    destruct (Req_dec_T (cos u1) 0); [contradiction|]. cbn. eauto.
  - intros [z H].
    destruct x as [|x0 [|x1 [|x2 x']]]; try discriminate H;
      try (destruct u; discriminate H).
    destruct u as [|u0 [|u1 rest]]; cbn in H; try discriminate H.
    + destruct (get params "wheelbase" (VNum 3)); cbn in H;
        try discriminate H.
      unfold np_div in H. destruct (Req_dec_T r 0); discriminate H.
    + destruct (get params "wheelbase" (VNum 3)) as [b| |] eqn:Eb;
        cbn in H; try discriminate H.
      unfold np_div in H. destruct (Req_dec_T b 0); [discriminate H|].
      cbn in H. unfold np_tan in H.
      destruct (Req_dec_T (cos u1) 0); [discriminate H|].
      split; [cbn; lia|]. exists b, u0, u1, rest. auto.
Qed.

Lemma kincar_update_defined_witness :
  exists z, _kincar_flat_forward [-40; -2; 0] [10; 0] ∅ = Ok z.
Proof.
  apply (proj2 (kincar_update_defined 0 [-40; -2; 0] [10; 0] ∅)).
  apply (proj1 (kincar_update_defined 0 [-40; -2; 0] [10; 0] ∅)).
  split; [cbn; lia|]. exists 3, 10, 0, []. rewrite cos_0.
  repeat split; try reflexivity; lra.
Defined.

Lemma derivable_pt_lim_cos_scaled (a x : R) :
  derivable_pt_lim (fun h => a * cos h) x (- a * sin x).
Proof.
  pose proof (derivable_pt_lim_scal cos a x _ (derivable_pt_lim_cos x)) as H.
  replace (a * - sin x) with (- a * sin x) in H by ring. exact H.
Qed.

Lemma derivable_pt_lim_sin_scaled (a x : R) :
  derivable_pt_lim (fun h => a * sin h) x (a * cos x).
Proof. exact (derivable_pt_lim_scal sin a x _ (derivable_pt_lim_sin x)). Qed.

(** X11.  The columns of the flat flag are the successive time derivatives
    of the flat output along every solution of the dynamics with constant
    input: for a trajectory [(px, py, th)] whose derivative at [t] is
    [_kincar_update] there, the flag holds the position, its entries
    [[i][1]] are the derivative of the position, and its entries [[i][2]]
    are the derivative of the entries [[i][1]] along the trajectory. *)
Theorem kincar_flag_derivatives
    (params : gmap string pyval) (b u0 u1 t : R) (px py th : R -> R) :
  get params "wheelbase" (VNum 3) = VNum b -> b <> 0 -> cos u1 <> 0 ->
  derivable_pt_lim px t (kincar_rhs params 0 [px t; py t; th t] [u0; u1]) ->
  derivable_pt_lim py t (kincar_rhs params 1 [px t; py t; th t] [u0; u1]) ->
  derivable_pt_lim th t (kincar_rhs params 2 [px t; py t; th t] [u0; u1]) ->
  let flag i j s := flag_entry params i j [px s; py s; th s] [u0; u1] in
  flag 0%nat 0%nat t = px t /\ flag 1%nat 0%nat t = py t /\
  derivable_pt_lim px t (flag 0%nat 1%nat t) /\
  derivable_pt_lim py t (flag 1%nat 1%nat t) /\
  derivable_pt_lim (flag 0%nat 1%nat) t (flag 0%nat 2%nat t) /\
  derivable_pt_lim (flag 1%nat 1%nat) t (flag 1%nat 2%nat t).
Proof.
  intros Hb Hb0 Hc Hpx Hpy Hth flag.
  unfold kincar_rhs in Hpx, Hpy, Hth.
  rewrite (kincar_update_eq _ _ b) in Hpx, Hpy, Hth by assumption.
  cbn [nth] in Hpx, Hpy, Hth.
  assert (Hflag : forall i j s, flag i j s =
    Riccati.entry
      [[px s; u0 * cos (th s); - u0 * (u0 / b * tan u1) * sin (th s)];
       [py s; u0 * sin (th s); u0 * (u0 / b * tan u1) * cos (th s)]] i j).
  { intros i j s. unfold flag, flag_entry.
    now rewrite (flat_forward_eq _ b) by assumption. }
  repeat split.
  - rewrite Hflag. reflexivity.
  - rewrite Hflag. reflexivity.
  - rewrite Hflag. cbn. replace (u0 * cos (th t)) with (cos (th t) * u0) by ring.
    exact Hpx.
  - rewrite Hflag. cbn. replace (u0 * sin (th t)) with (sin (th t) * u0) by ring.
    exact Hpy.
  - rewrite Hflag. cbn.
    apply (derivable_pt_lim_local _ (comp (fun h => u0 * cos h) th) _ _ 1);
      [lra| |].
    + intros s _. rewrite Hflag. reflexivity.
    + pose proof (derivable_pt_lim_comp th (fun h => u0 * cos h) t _ _
                    Hth (derivable_pt_lim_cos_scaled u0 (th t))) as H.
      replace (- u0 * sin (th t) * (u0 / b * tan u1))
        with (- u0 * (u0 / b * tan u1) * sin (th t)) in H by ring.
      exact H.
  - rewrite Hflag. cbn.
    apply (derivable_pt_lim_local _ (comp (fun h => u0 * sin h) th) _ _ 1);
      [lra| |].
    + intros s _. rewrite Hflag. reflexivity.
    + pose proof (derivable_pt_lim_comp th (fun h => u0 * sin h) t _ _
                    Hth (derivable_pt_lim_sin_scaled u0 (th t))) as H.
      replace (u0 * cos (th t) * (u0 / b * tan u1))
        with (u0 * (u0 / b * tan u1) * cos (th t)) in H by ring.
      exact H.
Qed.

Lemma kincar_flag_derivatives_witness :
  derivable_pt_lim
    (fun s => flag_entry ∅ 0 1 [id s; 0; 0] [1; 0]) 0
    (flag_entry ∅ 0 2 [id 0; 0; 0] [1; 0]).
Proof.
  assert (Hc : cos 0 <> 0) by (rewrite cos_0; lra).
  assert (E : forall i, kincar_rhs ∅ i [id 0; 0; 0] [1; 0] =
                        nth i [1; 0; 0] 0).
  { intros i. unfold kincar_rhs.
    rewrite (kincar_update_eq _ _ 3) by (reflexivity || lra || exact Hc).
    rewrite cos_0, sin_0, tan_0.
    destruct i as [|[|[|i]]]; cbn; try reflexivity; field. }
  refine (proj1 (proj2 (proj2 (proj2 (proj2
    (kincar_flag_derivatives ∅ 3 1 0 0 id (fun _ => 0) (fun _ => 0)
       eq_refl _ Hc _ _ _)))))).
  - lra.
  - rewrite E. apply derivable_pt_lim_id.
  - rewrite E. apply derivable_pt_lim_const.
  - rewrite E. apply derivable_pt_lim_const.
Defined.

Lemma derivable_pt_lim_tan (x : R) :
  - (PI / 2) < x < PI / 2 -> derivable_pt_lim tan x (1 + tan x ^ 2).
Proof.
  intros Hx.
  assert (Hx' : - PI / 2 < x < PI / 2) by lra.
  rewrite <- (derive_pt_tan x Hx').
  apply (derive_pt_eq_1 tan x _ (derivable_pt_tan x Hx')). reflexivity.
Qed.

Lemma derivable_pt_lim_ext (f g : R -> R) (x l : R) :
  (forall y, f y = g y) -> derivable_pt_lim g x l -> derivable_pt_lim f x l.
Proof.
  intros H. apply (derivable_pt_lim_local f g x l 1 Rlt_0_1).
  intros y _. apply H.
Qed.

(** The Jacobians of the car's right hand side at the state
    [[x0, x1, th]] and the input [[v, delta]], for the wheelbase 3. *)
Lemma kincar_jacobian (x0 x1 th v delta : R) :
  - (PI / 2) < delta < PI / 2 ->
  is_linearization [x0; x1; th] [v; delta]
    {| Riccati.sys_A := [[0; 0; - v * sin th]; [0; 0; v * cos th]; [0; 0; 0]];
       Riccati.sys_B := [[cos th; 0]; [sin th; 0];
                         [tan delta / 3; v / 3 * (1 + tan delta ^ 2)]] |}.
Proof.
  intros Hd.
  assert (Hc : cos delta <> 0) by (apply Rgt_not_eq, cos_gt_0; lra).
  assert (Hrhs : forall i y0 y1 y2 w,
    kincar_rhs ∅ i [y0; y1; y2] [w; delta] =
    nth i [cos y2 * w; sin y2 * w; w / 3 * tan delta] 0).
  { intros. unfold kincar_rhs.
    now rewrite (kincar_update_eq _ _ 3) by (reflexivity || lra || exact Hc). }
  set (d := Rmin (delta + PI / 2) (PI / 2 - delta)).
  assert (Hdpos : 0 < d) by (unfold d, Rmin; destruct Rle_dec; lra).
  assert (Hnear : forall e i, Rabs (e - delta) < d ->
    kincar_rhs ∅ i [x0; x1; th] [v; e] =
    nth i [cos th * v; sin th * v; v / 3 * tan e] 0).
  { intros e i He. apply Rabs_def2 in He. unfold kincar_rhs.
    assert (- (PI / 2) < e < PI / 2)
      by (revert He; unfold d, Rmin; destruct Rle_dec; lra).
    now rewrite (kincar_update_eq _ _ 3)
      by (reflexivity || lra || apply Rgt_not_eq, cos_gt_0; lra). }
  split; [split; [reflexivity | repeat constructor]|].
  split; [split; [reflexivity | repeat constructor]|].
  intros i Hi. split.
  - intros j Hj. unfold partial.
    destruct i as [|[|[|i]]]; [| | |lia];
      (destruct j as [|[|[|j]]]; [| | |lia]);
      cbn [insert list_insert nth Riccati.entry Riccati.sys_A lookup list_lookup];
      (eapply derivable_pt_lim_ext;
       [intros y; rewrite Hrhs; cbn [nth]; reflexivity|]).
    all: try apply derivable_pt_lim_const.
    + apply (derivable_pt_lim_ext _ (fun h => v * cos h));
        [intros y; ring | apply derivable_pt_lim_cos_scaled].
    + apply (derivable_pt_lim_ext _ (fun h => v * sin h));
        [intros y; ring | apply derivable_pt_lim_sin_scaled].
  - intros j Hj. unfold partial.
    destruct i as [|[|[|i]]]; [| | |lia];
      (destruct j as [|[|j]]; [| |lia]);
      cbn [insert list_insert nth Riccati.entry Riccati.sys_B lookup list_lookup].
    + apply (derivable_pt_lim_local _ (fun h => 0 + cos th * h) _ _ 1 Rlt_0_1);
        [intros y _; rewrite Hrhs; cbn; ring | apply derivable_pt_lim_affine].
    + apply (derivable_pt_lim_local _ (fun _ => cos th * v) _ _ d Hdpos);
        [intros y Hy; now rewrite Hnear | apply derivable_pt_lim_const].
    + apply (derivable_pt_lim_local _ (fun h => 0 + sin th * h) _ _ 1 Rlt_0_1);
        [intros y _; rewrite Hrhs; cbn; ring | apply derivable_pt_lim_affine].
    + apply (derivable_pt_lim_local _ (fun _ => sin th * v) _ _ d Hdpos);
        [intros y Hy; now rewrite Hnear | apply derivable_pt_lim_const].
    + apply (derivable_pt_lim_local _ (fun h => 0 + tan delta / 3 * h) _ _ 1
               Rlt_0_1);
        [intros y _; rewrite Hrhs; cbn; field | apply derivable_pt_lim_affine].
    + apply (derivable_pt_lim_local _ (fun h => v / 3 * tan h) _ _ d Hdpos);
        [intros y Hy; now rewrite Hnear |].
      apply (derivable_pt_lim_scal tan (v / 3) delta), derivable_pt_lim_tan.
      exact Hd.
Qed.

(** X12.  The linear system that the optimal control notebook works with is
    the linearization of the kinematic car at its operating point: the
    Jacobians of [_kincar_update] at [x0 = [-40, -2, 0]], [u0 = [10, 0]] are
    [A = [[0, 0, 0], [0, 0, 10], [0, 0, 0]]] and
    [B = [[1, 0], [0, 0], [0, 10/3]]], and the same holds at every state
    with heading 0 (the position does not enter the dynamics). *)
Theorem kincar_linearization (x0 x1 : R) :
  is_linearization [x0; x1; 0] [10; 0] Riccati.kincar_lin.
Proof.
  pose proof PI_RGT_0 as Hpi.
  assert (H : is_linearization [x0; x1; 0] [10; 0]
    {| Riccati.sys_A := [[0; 0; - 10 * sin 0]; [0; 0; 10 * cos 0]; [0; 0; 0]];
       Riccati.sys_B := [[cos 0; 0]; [sin 0; 0];
                         [tan 0 / 3; 10 / 3 * (1 + tan 0 ^ 2)]] |})
    by (apply kincar_jacobian; lra).
  rewrite sin_0, cos_0, tan_0 in H.
  replace (- 10 * 0) with 0 in H by ring.
  replace (10 * 1) with 10 in H by ring.
  replace (0 / 3) with 0 in H by field.
  replace (10 / 3 * (1 + 0 ^ 2)) with (10 / 3) in H by field.
  exact H.
Qed.

End KincarDynamics.

Section MatrixShapes.
Import Riccati.
Local Open Scope nat_scope.

Lemma chunks_aux_shape {A} (k r : nat) :
  0 < k -> forall (fuel : nat) (l : list A),
  length l = r * k -> r <= fuel ->
  length (chunks_aux fuel k l) = r /\
  Forall (fun row => length row = k) (chunks_aux fuel k l).
Proof.
  intros Hk. induction r as [|r IH]; intros fuel l Hl Hfuel.
  - destruct l; [|discriminate Hl]. destruct fuel; cbn; split; constructor.
  - destruct fuel as [|fuel]; [lia|].
    destruct l as [|a l]; [cbn in Hl; lia|].
    cbn [chunks_aux].
    destruct (IH fuel (drop k (a :: l))) as [IH1 IH2].
    + rewrite length_drop, Hl. lia.
    + lia.
    + split.
      * cbn [length]. now rewrite IH1.
      * constructor; [|exact IH2]. rewrite length_take, Hl. nia.
Qed.

Lemma chunks_shape (n : nat) (x : list R) :
  0 < n -> length x = n * n -> is_shape n n (chunks n x).
Proof.
  intros Hn Hx. unfold is_shape, chunks.
  apply (chunks_aux_shape n n Hn); [exact Hx | nia].
Qed.

Lemma zip_with_shape (op : R -> R -> R) (r c : nat) (M N : matrix) :
  is_shape r c M -> is_shape r c N ->
  is_shape r c (zip_with (zip_with op) M N).
Proof.
  intros [HM1 HM2] [HN1 HN2]. split.
  - rewrite length_zip_with. lia.
  - apply Forall_forall. intros row Hrow.
    apply elem_of_lookup_zip_with in Hrow as (i & a & b & -> & Ha & Hb).
    rewrite length_zip_with.
    rewrite Forall_forall in HM2, HN2.
    rewrite (HM2 a), (HN2 b) by (eapply list_elem_of_lookup_2; eassumption).
    lia.
Qed.

Lemma transpose_shape (r c : nat) (M : matrix) :
  0 < r -> is_shape r c M -> is_shape c r (transpose M).
Proof.
  revert r. induction M as [|row M IH]; intros r Hr [H1 H2].
  - cbn in H1. lia.
  - apply Forall_cons in H2 as [Hrow HM].
    destruct M as [|row' M'].
    + cbn in H1. subst r. cbn [transpose]. split.
      * now rewrite length_fmap.
      * apply Forall_fmap, Forall_forall. intros a _. reflexivity.
    + destruct r as [|r]; [lia|].
      destruct (IH r) as [IH1 IH2];
        [cbn in H1; lia | split; [cbn in H1 |- *; lia | exact HM] |].
      change (transpose (row :: row' :: M'))
        with (zip_with cons row (transpose (row' :: M'))).
      split.
      * rewrite length_zip_with. lia.
      * apply Forall_forall. intros col Hcol.
        apply elem_of_lookup_zip_with in Hcol as (i & a & b & -> & Ha & Hb).
        cbn [length]. f_equal.
        rewrite Forall_forall in IH2. apply IH2.
        eapply list_elem_of_lookup_2; eassumption.
Qed.

Lemma matmul_shape (r k c : nat) (M N : matrix) :
  0 < k -> is_shape r k M -> is_shape k c N -> is_shape r c (matmul M N).
Proof.
  intros Hk [HM1 HM2] HN. destruct (transpose_shape k c N Hk HN) as [HT _].
  unfold matmul. split.
  - now rewrite length_fmap.
  - apply Forall_fmap, Forall_forall. intros row _. cbn.
    now rewrite length_fmap.
Qed.

End MatrixShapes.

Section RiccatiDynamics.
Import Riccati Regulator.
Local Open Scope R_scope.

(** X13.  [Pdot_reverse] maps a vector of [n * n] entries to a vector of
    [n * n] entries, as the solver requires of a right hand side, and
    raises [ValueError] for a vector of any other length ([n] states,
    [m] inputs, the matrices of the sizes that go with them). *)
Theorem Pdot_reverse_shape
    (inv : matrix -> matrix) (sys : linsys) (Qx Qu : matrix)
    (m : nat) (t : R) (x : list R) :
  (0 < nstates sys)%nat -> (0 < m)%nat ->
  is_shape (nstates sys) (nstates sys) (sys_A sys) ->
  is_shape (nstates sys) m (sys_B sys) ->
  is_shape (nstates sys) (nstates sys) Qx ->
  is_shape m m (inv Qu) ->
  (length x = (nstates sys * nstates sys)%nat ->
   exists y, Pdot_reverse inv sys Qx Qu t x = Ok y /\ length y = length x) /\
  (length x <> (nstates sys * nstates sys)%nat ->
   Pdot_reverse inv sys Qx Qu t x =
   Raise (ValueError "cannot reshape array" VNone)).
Proof.
  intros Hn Hm HA HB HQ HW. unfold Pdot_reverse, reshape2. split.
  - intros Hx. destruct (decide _) as [_|Hno]; [|contradiction].
    cbn [mbind result_bind]. eexists. split; [reflexivity|].
    pose proof (chunks_shape _ x Hn Hx) as HP.
    set (n := nstates sys) in *.
    assert (HR : is_shape n n
      (msub (madd (madd (matmul (chunks n x) (sys_A sys))
                        (matmul (transpose (sys_A sys)) (chunks n x))) Qx)
            (matmul (matmul (matmul (matmul (chunks n x) (sys_B sys))
                                    (inv Qu))
                            (transpose (sys_B sys))) (chunks n x)))).
    { apply zip_with_shape.
      - apply zip_with_shape; [|exact HQ].
        apply zip_with_shape.
        + apply (matmul_shape n n n); assumption.
        + apply (matmul_shape n n n); [exact Hn | | exact HP].
          apply transpose_shape; assumption.
      - apply (matmul_shape n n n); [exact Hn | | exact HP].
        apply (matmul_shape n m n); [exact Hm | |].
        + apply (matmul_shape n m m); [exact Hm | | exact HW].
          apply (matmul_shape n n m); assumption.
        + apply transpose_shape; assumption. }
    unfold flatten. rewrite (length_concat_uniform n) by exact (proj2 HR).
    rewrite (proj1 HR), Hx. reflexivity.
  - intros Hx. destruct (decide _) as [Hyes|_]; [contradiction|]. reflexivity.
Qed.

Lemma Pdot_reverse_shape_witness :
  exists y, Pdot_reverse inv2 kincar_lin eye3 eye2 0 (flatten eye3) = Ok y /\
            length y = length (flatten eye3).
Proof.
  refine (proj1 (Pdot_reverse_shape inv2 kincar_lin eye3 eye2 2 0
                   (flatten eye3) _ _ _ _ _ _) _).
  all: try (cbn; lia).
  all: split; [reflexivity | repeat constructor].
Defined.

(** X14.  The right hand side of the Riccati equation keeps the solution
    symmetric: for symmetric weights [Qx] and [inv(Qu)] and a symmetric
    matrix [P], [Pdot_reverse] returns a symmetric matrix (three states,
    two inputs). *)
Theorem Pdot_reverse_symmetric
    (inv : matrix -> matrix) (sys : linsys) (Qx Qu P : matrix) (t : R) :
  is_shape 3 3 (sys_A sys) -> is_shape 3 2 (sys_B sys) ->
  is_shape 3 3 Qx -> is_shape 2 2 (inv Qu) -> is_shape 3 3 P ->
  transpose Qx = Qx -> transpose (inv Qu) = inv Qu -> transpose P = P ->
  exists Pdot,
    Pdot_reverse inv sys Qx Qu t (flatten P) = Ok (flatten Pdot) /\
    is_shape 3 3 Pdot /\ transpose Pdot = Pdot.
Proof.
  intros HA HB HQ HW HP SQ SW SP.
  exists (riccati_rhs (sys_A sys) (sys_B sys) Qx (inv Qu) P).
  split; [now apply Pdot_reverse_riccati_rhs|].
  split; [split; [reflexivity | repeat constructor]|].
  destruct sys as [A B]. cbn [sys_A sys_B] in *.
  apply shape_3_3 in HA
    as (a00 & a01 & a02 & a10 & a11 & a12 & a20 & a21 & a22 & ->).
  apply shape_3_2 in HB as (b00 & b01 & b10 & b11 & b20 & b21 & ->).
  apply shape_3_3 in HQ
    as (q00 & q01 & q02 & q10 & q11 & q12 & q20 & q21 & q22 & ->).
  apply shape_3_3 in HP
    as (p00 & p01 & p02 & p10 & p11 & p12 & p20 & p21 & p22 & ->).
  apply shape_2_2 in HW as (w00 & w01 & w10 & w11 & HW).
  rewrite HW in *.
  cbn in SQ, SW, SP.
  simplify_eq.
  cbn. unfold riccati_rhs_entry, sum_upto, entry. cbn.
  repeat (f_equal; try ring).
Qed.

Lemma Pdot_reverse_symmetric_witness :
  exists Pdot,
    Pdot_reverse inv2 kincar_lin eye3 eye2 0 (flatten eye3)
      = Ok (flatten Pdot) /\
    is_shape 3 3 Pdot /\ transpose Pdot = Pdot.
Proof.
  apply Pdot_reverse_symmetric.
  all: try (split; [reflexivity | repeat constructor]).
  - reflexivity.
  - cbn. unfold entry. cbn. repeat (f_equal; try lra).
  - reflexivity.
Defined.

End RiccatiDynamics.

Section ClosedLoopRegulator.
Import Riccati Regulator.
Local Open Scope R_scope.

(** X15.  [xdot_forward] is the linear closed loop
    [dx/dt = (A - B inv(Qu) B^T P(t)) x] (three states, two inputs): it
    returns the product of that matrix with the state wherever the
    interpolant [P] returns a matrix, so the origin is an equilibrium, and
    it raises what [P] raises where the interpolant refuses the time. *)
Theorem xdot_forward_closed_loop
    (inv : matrix -> matrix) (sys : linsys) (Qu : matrix)
    (P : R -> result matrix) (t : R) :
  is_shape 3 3 (sys_A sys) -> is_shape 3 2 (sys_B sys) ->
  is_shape 2 2 (inv Qu) ->
  (forall (x : list R) (Pt : matrix),
      is_shape 3 3 Pt -> length x = 3%nat -> P t = Ok Pt ->
      xdot_forward inv sys Qu P t x =
      Ok (matvec
            (msub (sys_A sys)
               (matmul (matmul (matmul (sys_B sys) (inv Qu))
                               (transpose (sys_B sys))) Pt)) x)) /\
  (forall Pt : matrix,
      is_shape 3 3 Pt -> P t = Ok Pt ->
      xdot_forward inv sys Qu P t [0; 0; 0] = Ok [0; 0; 0]) /\
  (forall (x : list R) (e : exn),
      P t = Raise e -> xdot_forward inv sys Qu P t x = Raise e).
Proof.
  intros HA HB HW.
  destruct sys as [A B]. cbn [sys_A sys_B] in *.
  apply shape_3_3 in HA
    as (a00 & a01 & a02 & a10 & a11 & a12 & a20 & a21 & a22 & ->).
  apply shape_3_2 in HB as (b00 & b01 & b10 & b11 & b20 & b21 & ->).
  apply shape_2_2 in HW as (w00 & w01 & w10 & w11 & HW).
  split; [|split].
  - intros x Pt HP Hx HPt. unfold xdot_forward. rewrite HPt, HW.
    apply shape_3_3 in HP
      as (p00 & p01 & p02 & p10 & p11 & p12 & p20 & p21 & p22 & ->).
    destruct x as [|x0 [|x1 [|x2 [|? ?]]]]; try discriminate Hx.
    cbn. unfold dot. cbn. f_equal.
    repeat (f_equal; [ring|]). f_equal. ring.
  - intros Pt HP HPt. unfold xdot_forward. rewrite HPt, HW.
    apply shape_3_3 in HP
      as (p00 & p01 & p02 & p10 & p11 & p12 & p20 & p21 & p22 & ->).
    cbn. unfold dot. cbn. f_equal.
    repeat (f_equal; [ring|]). f_equal. ring.
  - intros x e HPt. unfold xdot_forward. rewrite HPt. reflexivity.
Qed.

Lemma xdot_forward_closed_loop_witness :
  xdot_forward inv2 kincar_lin eye2 (fun _ => Ok eye3) 0 [0; 0; 0] =
  Ok [0; 0; 0].
Proof.
  refine (proj1 (proj2 (xdot_forward_closed_loop inv2 kincar_lin eye2
                          (fun _ => Ok eye3) 0 _ _ _)) eye3 _ eq_refl).
  all: split; [reflexivity | repeat constructor].
Defined.

End ClosedLoopRegulator.

Section RiccatiReordering.
Import Riccati Regulator.
Local Open Scope R_scope.

Variable np_linalg_inv : matrix -> matrix.
Variable solve_ivp :
  (R -> list R -> result (list R)) -> R * R -> list R -> ode_solution.
Variable interp1d : list R -> list matrix -> R -> result matrix.
Variable sys : linsys.
Variables Qx Qu Pf : matrix.
Variable Tf : R.

Let Psol :=
  solve_ivp (Pdot_reverse np_linalg_inv sys Qx Qu) (0, Tf) (flatten Pf).

(** X16.  The reordering keeps times and values paired: when the solver
    returns [N > 0] time points and one row of [N] values per entry of the
    matrix, the cells return a trajectory with [N] time points in which the
    solver's time point [k] appears at position [N - 1 - k] as
    [Tf - t[k]], and the value that the solver produced for the entry
    [[i][j]] at its time point [k] is the value of [Prev[i][j]] at that
    same position. *)
Theorem riccati_reordering_pairs :
  (0 < nstates sys)%nat -> (0 < length (sol_t Psol))%nat ->
  length (sol_y Psol) = (nstates sys * nstates sys)%nat ->
  Forall (fun row => length row = length (sol_t Psol)) (sol_y Psol) ->
  exists traj,
    riccati_cells np_linalg_inv solve_ivp interp1d sys Qx Qu Pf Tf = Ok traj /\
    length (trev traj) = length (sol_t Psol) /\
    (forall (k : nat) (t : R),
        sol_t Psol !! k = Some t ->
        trev traj !! (length (sol_t Psol) - 1 - k)%nat = Some (Tf - t)) /\
    (forall (i j k : nat) (v : R),
        (i < nstates sys)%nat -> (j < nstates sys)%nat ->
        at2 (sol_y Psol) (i * nstates sys + j) k = Some v ->
        at3 (Prev traj) i j (length (sol_t Psol) - 1 - k) = Some v).
Proof.
  intros Hn HN Hrows Hcols.
  set (n := nstates sys) in *. set (N := length (sol_t Psol)) in *.
  assert (Hre : reshape3 n (sol_y Psol) = Ok (chunks n (sol_y Psol))).
  { unfold reshape3.
    rewrite (length_concat_uniform N) by exact Hcols.
    rewrite Hrows, Nat.div_mul by nia.
    destruct (decide _) as [_|Hno]; [|exfalso; apply Hno; split; [lia|exact Hn]].
    destruct (decide _) as [Hz|_]; [lia|].
    now rewrite chunks_concat. }
  unfold riccati_cells. fold Psol. fold n. rewrite Hre.
  eexists. split; [reflexivity|]. cbn [trev Prev Pinterp].
  split; [|split].
  - now rewrite length_fmap, length_reverse.
  - intros k t Hk. apply reversed_times_lookup, Hk.
  - intros i j k v Hi Hj Hv. apply reversed_values_lookup; assumption.
Qed.

End RiccatiReordering.

(** The notebook's sizes with a solver that returns the two end points. *)
Lemma riccati_reordering_pairs_witness :
  exists traj,
    Riccati.riccati_cells Riccati.inv2 Riccati.two_point_solver
      Riccati.out_of_range
      Riccati.kincar_lin Riccati.eye3 Riccati.eye2 Riccati.eye3 4 = Ok traj /\
    length (Riccati.trev traj) = 2%nat.
Proof.
  destruct (riccati_reordering_pairs Riccati.inv2 Riccati.two_point_solver
              Riccati.out_of_range
              Riccati.kincar_lin Riccati.eye3 Riccati.eye2 Riccati.eye3 4)
    as (traj & H1 & H2 & _).
  - cbn; lia.
  - cbn; lia.
  - reflexivity.
  - repeat constructor.
  - exists traj. split; [exact H1 | exact H2].
Defined.

Section StochasticFunctions.
Local Open Scope R_scope.

(** X17.  The analytical correlation function [r] of the first order
    system: for a decay rate [a > 0] and [Q = [[q]]] it returns a 1 x 1
    array for every lag, it is even in the lag, its value at lag 0 is
    [c^2 q / (2 a)], and for [q >= 0] its values lie between 0 and the value
    at lag 0.  With the notebook's globals the value at lag 0 is [0.05]. *)
Theorem r_correlation (a c q : R) :
  0 < a ->
  exists v : R -> R,
    (forall tau, Stochastic.r a c [[q]] tau = Ok [[v tau]]) /\
    (forall tau, v (- tau) = v tau) /\
    v 0 = c ^ 2 * q / (2 * a) /\
    (0 <= q -> forall tau, 0 <= v tau <= v 0) /\
    Stochastic.r Stochastic.a Stochastic.c Stochastic.Q 0 = Ok [[5 / 100]] .
Proof.
  intros Ha.
  exists (fun tau => c ^ 2 * q / (2 * a) * exp (- a * Rabs tau)).
  split; [|split; [|split; [|split]]].
  - intros tau. unfold Stochastic.r, Stochastic.np_div_array.
    destruct (Req_dec_T (2 * a) 0); [lra|]. reflexivity.
  - intros tau. now rewrite Rabs_Ropp.
  - rewrite Rabs_R0, Rmult_0_r, exp_0. ring.
  - intros Hq tau. rewrite Rabs_R0, Rmult_0_r, exp_0.
    assert (H0 : 0 <= c ^ 2 * q / (2 * a)).
    { apply Rmult_le_pos; [|left; apply Rinv_0_lt_compat; lra].
      apply Rmult_le_pos; [apply pow2_ge_0 | exact Hq]. }
    assert (H1 : 0 < exp (- a * Rabs tau) <= 1).
    { split; [apply exp_pos|].
      rewrite <- exp_0.
      destruct (Req_dec (- a * Rabs tau) 0) as [->|Hne]; [lra|].
      left. apply exp_increasing.
      pose proof (Rabs_pos tau). nra. }
    nra.
  - unfold Stochastic.r, Stochastic.np_div_array, Stochastic.a.
    destruct (Req_dec_T (2 * 1) 0); [lra|].
    cbn. rewrite Rabs_R0, Rmult_0_r, exp_0.
    do 3 f_equal. unfold Stochastic.c. field.
Qed.

Lemma r_correlation_witness :
  exists v : R -> R,
    (forall tau, Stochastic.r 1 1 [[1 / 10]] tau = Ok [[v tau]]) /\
    (forall tau, v (- tau) = v tau) /\
    v 0 = 1 ^ 2 * (1 / 10) / (2 * 1) /\
    (0 <= 1 / 10 -> forall tau, 0 <= v tau <= v 0) /\
    Stochastic.r Stochastic.a Stochastic.c Stochastic.Q 0 = Ok [[5 / 100]].
Proof. apply r_correlation. lra. Defined.

Lemma exp_neg_le_1 (s : R) : 0 <= s -> exp (- s) <= 1.
Proof.
  intros Hs. rewrite <- exp_0.
  destruct (Req_dec s 0) as [->|Hne]; [rewrite Ropp_0; lra|].
  left. apply exp_increasing. lra.
Qed.

Lemma exp_neg_bound (s : R) : 0 <= s -> s * exp (- s) <= 1.
Proof.
  intros Hs.
  assert (H1 : 1 + s <= exp s).
  { destruct (Req_dec s 0) as [->|Hne]; [rewrite exp_0; lra|].
    left. apply exp_ineq1. lra. }
  pose proof (exp_pos (- s)) as Hp.
  assert (H2 : exp s * exp (- s) = 1) by (rewrite <- exp_plus, Rplus_opp_r; apply exp_0).
  nra.
Qed.

(** X18.  The Dryden correlation function for a time constant [T > 0]: it
    is defined for every lag, even in the lag, equal to [sigma_z^2] at lag
    0, never larger than that in absolute value, zero at the lags [2T] and
    [-2T], and negative beyond them (for [sigma_z] not 0).  For [T = 0] the
    division has no finite result. *)
Theorem dryden_corrfcn_shape (sigma_z T : R) :
  0 < T ->
  exists v : R -> R,
    (forall tau, Stochastic.dryden_corrfcn tau sigma_z T = Ok (v tau)) /\
    (forall tau, v (- tau) = v tau) /\
    v 0 = sigma_z ^ 2 /\
    (forall tau, Rabs (v tau) <= sigma_z ^ 2) /\
    v (2 * T) = 0 /\
    (sigma_z <> 0 -> forall tau, 2 * T < Rabs tau -> v tau < 0) /\
    (forall tau, Stochastic.dryden_corrfcn tau sigma_z 0 = NonReal).
Proof.
  intros HT.
  exists (fun tau =>
            sigma_z ^ 2 * exp (- Rabs tau / T) * (1 - Rabs tau / (2 * T))).
  assert (Hs2 : 0 <= sigma_z ^ 2) by apply pow2_ge_0.
  split; [|split; [|split; [|split; [|split; [|split]]]]].
  - intros tau. unfold Stochastic.dryden_corrfcn, np_div.
    destruct (Req_dec_T T 0); [lra|]. cbn.
    destruct (Req_dec_T (2 * T) 0); [lra|]. reflexivity.
  - intros tau. now rewrite Rabs_Ropp.
  - rewrite Rabs_R0. replace (- 0 / T) with 0 by (field; lra).
    rewrite exp_0. field. lra.
  - intros tau.
    set (s := Rabs tau / T).
    assert (Hs : 0 <= s).
    { unfold s. apply Rmult_le_pos; [apply Rabs_pos|].
      left. apply Rinv_0_lt_compat, HT. }
    replace (- Rabs tau / T) with (- s) by (unfold s; field; lra).
    replace (Rabs tau / (2 * T)) with (s / 2) by (unfold s; field; lra).
    pose proof (exp_pos (- s)) as Hp.
    pose proof (exp_neg_le_1 s Hs) as H1.
    pose proof (exp_neg_bound s Hs) as H2.
    assert (Hb : - 1 <= exp (- s) * (1 - s / 2) <= 1) by nra.
    rewrite Rmult_assoc, Rabs_mult, (Rabs_pos_eq _ Hs2).
    assert (Rabs (exp (- s) * (1 - s / 2)) <= 1)
      by (apply Rabs_le; lra).
    nra.
  - rewrite (Rabs_pos_eq (2 * T)) by lra.
    replace (1 - 2 * T / (2 * T)) with 0 by (field; lra). ring.
  - intros Hs tau Htau.
    assert (Hs2' : 0 < sigma_z ^ 2).
    { replace (sigma_z ^ 2) with (sigma_z * sigma_z) by ring.
      destruct (Rlt_dec 0 sigma_z); nra. }
    pose proof (exp_pos (- Rabs tau / T)) as Hp.
    assert (Hh : 1 < Rabs tau / (2 * T)).
    { apply (Rmult_lt_reg_r (2 * T)); [lra|].
      replace (Rabs tau / (2 * T) * (2 * T)) with (Rabs tau) by (field; lra).
      lra. }
    assert (0 < sigma_z ^ 2 * exp (- Rabs tau / T))
      by (apply Rmult_lt_0_compat; assumption).
    nra.
  - intros tau. unfold Stochastic.dryden_corrfcn, np_div.
    destruct (Req_dec_T 0 0) as [_|Hne]; [reflexivity | contradiction].
Qed.

Lemma dryden_corrfcn_shape_witness :
  exists v : R -> R,
    (forall tau, Stochastic.dryden_corrfcn tau 1 1 = Ok (v tau)) /\
    (forall tau, v (- tau) = v tau) /\
    v 0 = 1 ^ 2 /\
    (forall tau, Rabs (v tau) <= 1 ^ 2) /\
    v (2 * 1) = 0 /\
    (1 <> 0 -> forall tau, 2 * 1 < Rabs tau -> v tau < 0) /\
    (forall tau, Stochastic.dryden_corrfcn tau 1 0 = NonReal).
Proof. apply dryden_corrfcn_shape. lra. Defined.

(** The Dryden spectrum in closed form: its denominator never vanishes. *)
Lemma dryden_psd_eq (omega sigma_z T : R) :
  Stochastic.dryden_psd omega sigma_z T =
  Ok (sigma_z ^ 2 * T * (1 + 3 * (omega * T) ^ 2)
      / (1 + (omega * T) ^ 2) ^ 2).
Proof.
  unfold Stochastic.dryden_psd, np_div.
  destruct (Req_dec_T _ 0) as [E|_]; [|reflexivity].
  pose proof (pow2_ge_0 (omega * T)).
  assert (0 < (1 + (omega * T) ^ 2) ^ 2) by (apply pow_lt; lra).
  lra.
Qed.

(** X19.  The Dryden power spectral density is defined for all real
    arguments (its denominator is at least 1), is even in the frequency,
    equals [sigma_z^2 T] at frequency 0, and for [T > 0] lies between 0 and
    [9/8 sigma_z^2 T], being positive when [sigma_z] is not 0. *)
Theorem dryden_psd_shape (sigma_z T : R) :
  exists S : R -> R,
    (forall omega, Stochastic.dryden_psd omega sigma_z T = Ok (S omega)) /\
    (forall omega, S (- omega) = S omega) /\
    S 0 = sigma_z ^ 2 * T /\
    (0 < T -> forall omega, 0 <= S omega <= 9 / 8 * (sigma_z ^ 2 * T)) /\
    (0 < T -> sigma_z <> 0 -> forall omega, 0 < S omega).
Proof.
  exists (fun omega => sigma_z ^ 2 * T * (1 + 3 * (omega * T) ^ 2)
                       / (1 + (omega * T) ^ 2) ^ 2).
  assert (Hs2 : 0 <= sigma_z ^ 2) by apply pow2_ge_0.
  assert (Hd : forall omega, 0 < (1 + (omega * T) ^ 2) ^ 2).
  { intros omega. pose proof (pow2_ge_0 (omega * T)). apply pow_lt. lra. }
  split; [|split; [|split; [|split]]].
  - intros omega. apply dryden_psd_eq.
  - intros omega. replace ((- omega * T) ^ 2) with ((omega * T) ^ 2) by ring.
    reflexivity.
  - field.
  - intros HT omega. specialize (Hd omega).
    pose proof (pow2_ge_0 (omega * T)) as Hx.
    set (x := (omega * T) ^ 2) in *.
    assert (Hk : 0 <= sigma_z ^ 2 * T) by (apply Rmult_le_pos; lra).
    split.
    + apply Rmult_le_pos; [|left; apply Rinv_0_lt_compat, Hd].
      apply Rmult_le_pos; lra.
    + apply (Rmult_le_reg_r ((1 + x) ^ 2)); [exact Hd|].
      unfold Rdiv. rewrite Rmult_assoc, Rinv_l, Rmult_1_r by lra.
      assert (8 * (1 + 3 * x) <= 9 * (1 + x) ^ 2).
      { assert (0 <= (1 - 3 * x) ^ 2) by apply pow2_ge_0. nra. }
      nra.
  - intros HT Hs omega. specialize (Hd omega).
    pose proof (pow2_ge_0 (omega * T)) as Hx.
    assert (0 < sigma_z ^ 2).
    { replace (sigma_z ^ 2) with (sigma_z * sigma_z) by ring.
      destruct (Rlt_dec 0 sigma_z); nra. }
    apply Rmult_lt_0_compat; [|apply Rinv_0_lt_compat, Hd].
    apply Rmult_lt_0_compat; [apply Rmult_lt_0_compat; assumption | lra].
Qed.

Lemma dryden_psd_shape_witness :
  exists S : R -> R,
    (forall omega, Stochastic.dryden_psd omega 1 1 = Ok (S omega)) /\
    (forall omega, S (- omega) = S omega) /\
    S 0 = 1 ^ 2 * 1 /\
    (0 < 1 -> forall omega, 0 <= S omega <= 9 / 8 * (1 ^ 2 * 1)) /\
    (0 < 1 -> 1 <> 0 -> forall omega, 0 < S omega).
Proof. exact (dryden_psd_shape 1 1). Defined.

End StochasticFunctions.

Section DrydenFilter.
Import Invpend.
Local Open Scope R_scope.

Lemma filter_eq (T : R) :
  T <> 0 ->
  Stochastic.filter T =
  Ok {| Stochastic.ss_A := [[0; 1]; [- 1 / T ^ 2; - 2 / T]];
        Stochastic.ss_B := [[0]; [1]];
        Stochastic.ss_C := [[1 / T ^ 2; sqrt 3 / T]];
        Stochastic.ss_D := 0 |}.
Proof.
  intros HT. unfold Stochastic.filter, div.
  assert (HT2 : T ^ 2 <> 0) by (apply pow_nonzero, HT).
  destruct (Req_dec_T (T ^ 2) 0); [contradiction|].
  destruct (Req_dec_T T 0); [contradiction|]. reflexivity.
Qed.

(** X20.  The Dryden filter shapes white noise to the Dryden spectrum: for
    a time constant [T > 0] the state space system [filter] is constructed,
    has a frequency response [H] at every frequency [omega], and
    [sigma_z^2 T |H(j omega)|^2] is [dryden_psd(omega, sigma_z, T)]; for the
    notebook's [T = 1] the spectrum is [sigma_z^2 |H(j omega)|^2].  For
    [T = 0] the construction raises [ZeroDivisionError]. *)
Theorem dryden_filter_spectrum (T : R) :
  0 < T ->
  exists sys,
    Stochastic.filter T = Ok sys /\
    (forall omega, exists H, Stochastic.is_response sys (0, omega) H) /\
    (forall omega sigma_z H,
        Stochastic.is_response sys (0, omega) H ->
        Stochastic.dryden_psd omega sigma_z T =
        Ok (sigma_z ^ 2 * T * (fst H ^ 2 + snd H ^ 2))) /\
    Stochastic.filter 0 = Raise ZeroDivisionError.
Proof.
  intros HT. eexists. split; [apply filter_eq; lra|].
  assert (HT2 : 0 < T ^ 2) by (apply pow_lt, HT).
  split; [|split].
  - intros omega.
    set (al := 1 / T ^ 2 - omega ^ 2). set (be := 2 * omega / T).
    assert (Hn : al ^ 2 + be ^ 2 = (1 / T ^ 2 + omega ^ 2) ^ 2)
      by (unfold al, be; field; lra).
    assert (Hpos : 0 < al ^ 2 + be ^ 2).
    { rewrite Hn. apply pow_lt.
      assert (0 < 1 / T ^ 2) by (apply Rdiv_lt_0_compat; lra).
      pose proof (pow2_ge_0 omega). lra. }
    set (p := al / (al ^ 2 + be ^ 2)). set (q := - be / (al ^ 2 + be ^ 2)).
    eexists. exists (p, q), (- omega * q, omega * p).
    split; [|split; [|reflexivity]].
    + unfold Csub, Cmul, Creal, Stochastic.Cadd, Stochastic.Cscale,
        Riccati.entry. cbn. f_equal; ring.
    + unfold Csub, Cmul, Creal, Stochastic.Cadd, Stochastic.Cscale,
        Riccati.entry. cbn. f_equal.
      * transitivity (al * p - be * q);
          [unfold al, be; field; lra | unfold p, q; field; lra].
      * transitivity (al * q + be * p);
          [unfold al, be; field; lra | unfold p, q; field; lra].
  - intros omega sigma_z H ([p q] & [u v] & H0 & H1 & ->).
    rewrite dryden_psd_eq. f_equal.
    unfold Csub, Cmul, Creal, Stochastic.Cadd, Stochastic.Cscale,
      Riccati.entry in *. cbn -[pow] in *.
    injection H0 as Hu Hv. injection H1 as Hre Him.
    assert (Eu : u = - omega * q) by lra.
    assert (Ev : v = omega * p) by lra.
    subst u v.
    set (al := 1 / T ^ 2 - omega ^ 2). set (be := 2 * omega / T).
    assert (Ere : al * p - be * q = 1).
    { rewrite <- Hre. unfold al, be. field. lra. }
    assert (Eim : al * q + be * p = 0).
    { rewrite <- Him. unfold al, be. field. lra. }
    assert (Hn : al ^ 2 + be ^ 2 = (1 / T ^ 2 + omega ^ 2) ^ 2)
      by (unfold al, be; field; lra).
    assert (HN : (al ^ 2 + be ^ 2) * (p ^ 2 + q ^ 2) = 1).
    { transitivity ((al * p - be * q) ^ 2 + (al * q + be * p) ^ 2); [ring|].
      rewrite Ere, Eim. ring. }
    assert (Hs3 : sqrt 3 * sqrt 3 = 3) by (apply sqrt_sqrt; lra).
    assert (Hmag :
      (1 / T ^ 2 * p + sqrt 3 / T * (- omega * q) + 0) ^ 2
      + (1 / T ^ 2 * q + sqrt 3 / T * (omega * p) + 0) ^ 2
      = (p ^ 2 + q ^ 2) * (1 / T ^ 4 + 3 * omega ^ 2 / T ^ 2)).
    { transitivity
        ((p ^ 2 + q ^ 2)
         * (1 / T ^ 4 + (sqrt 3 * sqrt 3) * omega ^ 2 / T ^ 2));
        [field; lra | now rewrite Hs3]. }
    rewrite Hmag.
    assert (Hw : 0 < 1 / T ^ 2 + omega ^ 2).
    { assert (0 < 1 / T ^ 2) by (apply Rdiv_lt_0_compat; lra).
      pose proof (pow2_ge_0 omega). lra. }
    assert (Epq : p ^ 2 + q ^ 2 = 1 / (1 / T ^ 2 + omega ^ 2) ^ 2).
    { rewrite Hn in HN.
      assert (HX : 0 < (1 / T ^ 2 + omega ^ 2) ^ 2) by (apply pow_lt, Hw).
      set (X := (1 / T ^ 2 + omega ^ 2) ^ 2) in *.
      apply (Rmult_eq_reg_l X); [|lra].
      rewrite HN. field. lra. }
    rewrite Epq.
    assert (Hden : 1 + (omega * T) ^ 2 <> 0)
      by (pose proof (pow2_ge_0 (omega * T)); lra).
    assert (Hden' : 1 / T ^ 2 + omega ^ 2 <> 0) by lra.
    assert (Hden'' : 1 + omega ^ 2 * T ^ 2 <> 0)
      by (replace (omega ^ 2 * T ^ 2) with ((omega * T) ^ 2) by ring;
          exact Hden).
    field. repeat split; lra.
  - unfold Stochastic.filter, div.
    destruct (Req_dec_T (0 ^ 2) 0) as [_|Hne]; [reflexivity|].
    exfalso. apply Hne. ring.
Qed.

Lemma dryden_filter_spectrum_witness :
  exists sys,
    Stochastic.filter 1 = Ok sys /\
    (forall omega, exists H, Stochastic.is_response sys (0, omega) H) /\
    (forall omega sigma_z H,
        Stochastic.is_response sys (0, omega) H ->
        Stochastic.dryden_psd omega sigma_z 1 =
        Ok (sigma_z ^ 2 * 1 * (fst H ^ 2 + snd H ^ 2))) /\
    Stochastic.filter 0 = Raise ZeroDivisionError.
Proof. apply dryden_filter_spectrum. lra. Defined.

End DrydenFilter.

Section AveragedCorrelation.
Import Riccati Regulator.
Local Open Scope R_scope.

Lemma nth_vadd (k : nat) (x y : list R) :
  length x = length y ->
  nth k (vadd x y) 0 = nth k x 0 + nth k y 0.
Proof.
  revert k y. induction x as [|a x IH]; intros k [|b y] Hl;
    try discriminate Hl.
  - destruct k; cbn; ring.
  - destruct k as [|k]; cbn; [reflexivity|]. apply IH. now injection Hl.
Qed.

Lemma length_vadd (x y : list R) :
  length x = length y -> length (vadd x y) = length x.
Proof. intros H. unfold vadd. rewrite length_zip_with. lia. Qed.

(** What the loop accumulates over any list of iterations. *)
Lemma accumulate_sum (f : nat -> list R) (l : list nat) (z : list R) :
  (forall i, i ∈ l -> length (f i) = length z) ->
  length (foldl (fun acc i => vadd acc (f i)) z l) = length z /\
  forall k,
    nth k (foldl (fun acc i => vadd acc (f i)) z l) 0 =
    nth k z 0 + foldr Rplus 0 ((fun i => nth k (f i) 0) <$> l).
Proof.
  revert z. induction l as [|i l IH]; intros z Hl.
  - split; [reflexivity|]. intros k. cbn. ring.
  - cbn [foldl].
    assert (Hi : length (f i) = length z) by (apply Hl; left).
    destruct (IH (vadd z (f i))) as [IH1 IH2].
    { intros j Hj. rewrite length_vadd by (symmetry; exact Hi).
      apply Hl. now right. }
    split.
    + rewrite IH1. apply length_vadd. symmetry. exact Hi.
    + intros k. rewrite IH2, nth_vadd by (symmetry; exact Hi).
      cbn. ring.
Qed.

Lemma nth_zeros_like (k : nat) (v : list R) :
  nth k (Stochastic.zeros_like v) 0 = 0.
Proof.
  unfold Stochastic.zeros_like. revert k.
  induction v as [|a v IH]; intros [|k]; cbn; auto.
Qed.

Lemma nth_fmap_div (k : nat) (d : R) (v : list R) :
  nth k ((fun x => x / d) <$> v) 0 = nth k v 0 / d.
Proof.
  revert k. induction v as [|a v IH]; intros [|k]; cbn; auto;
    unfold Rdiv; ring.
Qed.

Lemma foldr_const_sum (s : R) (l : list nat) :
  foldr Rplus 0 ((fun _ => s) <$> l) = INR (length l) * s.
Proof.
  induction l as [|i l IH]; [cbn; ring|].
  rewrite fmap_cons. cbn [foldr length]. rewrite IH, S_INR. ring.
Qed.

(** X21.  The averaging cell divides the sum of its one hundred samples by
    99, the value of the loop variable after the loop: entry [k] of
    [r_avg] is the sum of the entries [k] of the hundred correlation
    estimates divided by 99, so that a hundred equal samples [s] average to
    [100/99 s]. *)
Theorem r_avg_divides_by_99 (correlation : nat -> list R) (r_Y : list R) :
  (forall i, (i < 100)%nat -> length (correlation i) = length r_Y) ->
  exists v,
    Stochastic.r_avg correlation r_Y = Ok v /\
    length v = length r_Y /\
    (forall k,
        nth k v 0 =
        sum_upto 100 (fun i => nth k (correlation i) 0) / 99) /\
    (forall s,
        (forall i, (i < 100)%nat -> correlation i = s) ->
        forall k, nth k v 0 = 100 / 99 * nth k s 0).
Proof.
  intros Hlen.
  assert (Hi : INR Stochastic.i_after_loop = 99).
  { change Stochastic.i_after_loop with 99%nat.
    change 99%nat with (Z.to_nat 99). rewrite INR_IZR_INZ, Z2Nat.id by lia.
    reflexivity. }
  destruct (accumulate_sum correlation (seq 0 100)
              (Stochastic.zeros_like r_Y)) as [H1 H2].
  { intros i Hin. apply elem_of_seq in Hin.
    unfold Stochastic.zeros_like. rewrite length_fmap. apply Hlen. lia. }
  unfold Stochastic.r_avg. rewrite Hi.
  destruct (Req_dec_T 99 0); [lra|].
  eexists. split; [reflexivity|].
  assert (Hk : forall k,
    nth k ((fun x => x / 99) <$> Stochastic.r_avg_loop correlation r_Y) 0 =
    sum_upto 100 (fun i => nth k (correlation i) 0) / 99).
  { intros k. rewrite nth_fmap_div. unfold Stochastic.r_avg_loop.
    rewrite H2, nth_zeros_like. unfold sum_upto. f_equal. ring. }
  split; [|split].
  - rewrite length_fmap. unfold Stochastic.r_avg_loop. rewrite H1.
    unfold Stochastic.zeros_like. now rewrite length_fmap.
  - exact Hk.
  - intros s Hs k. rewrite Hk. unfold sum_upto.
    assert (E : (fun i => nth k (correlation i) 0) <$> seq 0 100 =
                (fun _ => nth k s 0) <$> seq 0 100).
    { apply list_fmap_ext. intros j i Hj.
      apply lookup_seq in Hj as [-> Hlt]. rewrite Hs by lia. reflexivity. }
    rewrite E, foldr_const_sum, length_seq.
    change 100%nat with (Z.to_nat 100). rewrite INR_IZR_INZ, Z2Nat.id by lia.
    field.
Qed.

Lemma r_avg_divides_by_99_witness :
  exists v,
    Stochastic.r_avg (fun _ => [1]) [0] = Ok v /\ nth 0 v 0 = 100 / 99 * 1.
Proof.
  destruct (r_avg_divides_by_99 (fun _ => [1]) [0]) as (v & H1 & _ & _ & H2).
  - intros i _. reflexivity.
  - exists v. split; [exact H1|]. apply (H2 [1]). intros i _. reflexivity.
Defined.

End AveragedCorrelation.

Section AugmentedSystem.
Import Riccati Regulator Tracking.
Local Open Scope R_scope.

Lemma dot_app (r1 r2 x1 x2 : list R) :
  length r1 = length x1 ->
  dot (r1 ++ r2) (x1 ++ x2) = dot r1 x1 + dot r2 x2.
Proof.
  revert x1. unfold dot.
  induction r1 as [|a r1 IH]; intros [|b x1] Hl; try discriminate Hl.
  - cbn. ring.
  - cbn. rewrite IH by (now injection Hl). ring.
Qed.

Lemma matvec_block_zero (A : matrix) (x : list R) (z : R) :
  Forall (fun row => length row = length x) A ->
  matvec (block_row A (np_zeros (length A) 1)) (x ++ [z]) = matvec A x.
Proof.
  unfold matvec, block_row, np_zeros.
  induction 1 as [|row A Hrow _ IH]; [reflexivity|].
  cbn [length replicate zip_with fmap list_fmap]. f_equal; [|exact IH].
  rewrite dot_app by exact Hrow. unfold dot at 2. cbn. ring.
Qed.

Lemma vadd_app (a b c d : list R) :
  length a = length c -> vadd (a ++ b) (c ++ d) = vadd a c ++ vadd b d.
Proof.
  revert c. unfold vadd.
  induction a as [|x a IH]; intros [|y c] Hl; try discriminate Hl.
  - reflexivity.
  - cbn. f_equal. apply IH. now injection Hl.
Qed.

(** X22.  The augmented system adds an integrator of the selected output:
    for a system with [n] states and one input and a selection row [C],
    the augmented matrices are square of size [n + 1] and a column of
    [n + 1] entries, and the augmented right hand side at the state
    [[x, z]] is the right hand side of the system at [x] followed by [C x].
    For the notebook's system [A_aug = [[0, 10, 0], [-1, 0, 0], [1, 0, 0]]]
    and [B_aug = [[0], [1], [0]]]. *)
Theorem augmented_system_integrates_output
    (sys : linsys) (crow x : list R) (z u : R) :
  is_shape (nstates sys) (nstates sys) (sys_A sys) ->
  is_shape (nstates sys) 1 (sys_B sys) ->
  length crow = nstates sys -> length x = nstates sys ->
  is_shape (S (nstates sys)) (S (nstates sys)) (A_aug sys [crow]) /\
  is_shape (S (nstates sys)) 1 (B_aug sys) /\
  rhs (A_aug sys [crow]) (B_aug sys) (x ++ [z]) [u] =
    rhs (sys_A sys) (sys_B sys) x [u] ++ [dot crow x] /\
  A_aug Tracking.sys Tracking.C = [[0; 10; 0]; [- 1; 0; 0]; [1; 0; 0]] /\
  B_aug Tracking.sys = [[0]; [1]; [0]].
Proof.
  intros [HA1 HA2] [HB1 HB2] Hc Hx.
  split; [|split; [|split; [|split]]].
  - unfold A_aug, block_row, np_zeros, scalar_block. split.
    + rewrite length_app, length_zip_with, length_replicate. cbn.
      unfold nstates. lia.
    + apply Forall_app. split.
      * apply Forall_forall. intros row Hrow.
        apply elem_of_lookup_zip_with in Hrow as (i & a & b & -> & Ha & Hb).
        apply lookup_replicate in Hb as [-> _].
        rewrite length_app. cbn.
        rewrite Forall_forall in HA2.
        rewrite (HA2 a) by (eapply list_elem_of_lookup_2; eassumption). lia.
      * cbn. constructor; [|constructor].
        rewrite length_app, Hc. cbn. lia.
  - unfold B_aug, scalar_block. split.
    + rewrite length_app, HB1. cbn. lia.
    + apply Forall_app. split; [exact HB2|]. repeat constructor.
  - unfold rhs, A_aug, B_aug, scalar_block.
    unfold matvec at 1 2. rewrite !fmap_app. fold (matvec (sys_B sys) [u]).
    change ((λ row : list R, dot row (x ++ [z])) <$>
              block_row (sys_A sys) (np_zeros (nstates sys) 1))
      with (matvec (block_row (sys_A sys) (np_zeros (nstates sys) 1))
              (x ++ [z])).
    unfold nstates at 1.
    rewrite matvec_block_zero.
    2:{ eapply Forall_impl; [exact HA2|]. intros row Hr. cbn in Hr.
        rewrite Hr, Hx. reflexivity. }
    rewrite vadd_app.
    2:{ unfold matvec. rewrite !length_fmap. unfold nstates in HB1. lia. }
    f_equal. cbn.
    rewrite dot_app by (rewrite Hc, Hx; reflexivity).
    unfold dot at 2 3. cbn. fold (dot crow x). f_equal. ring.
  - reflexivity.
  - reflexivity.
Qed.

Lemma augmented_system_witness :
  rhs (A_aug Tracking.sys [[1; 0]]) (B_aug Tracking.sys) ([2; 0] ++ [0]) [2] =
  rhs (sys_A Tracking.sys) (sys_B Tracking.sys) [2; 0] [2] ++ [dot [1; 0] [2; 0]].
Proof.
  refine (proj1 (proj2 (proj2
    (augmented_system_integrates_output Tracking.sys [1; 0] [2; 0] 0 2
       _ _ _ _)))).
  all: try reflexivity.
  all: split; [reflexivity | repeat constructor].
Defined.

(** X23.  The equilibria of the system of the LQR tracking notebook are the
    states [[p, 0]] with the input [p]; the notebook's desired point
    [x0 = [2, 0]], [u0 = [2]] is one of them, and under the disturbed input
    [ud + delta = 2.5] it is no longer one. *)
Theorem tracking_equilibria :
  (forall p v u : R,
      rhs (sys_A Tracking.sys) (sys_B Tracking.sys) [p; v] [u] = [0; 0] <->
      v = 0 /\ u = p) /\
  rhs (sys_A Tracking.sys) (sys_B Tracking.sys) [2; 0] [2] = [0; 0] /\
  rhs (sys_A Tracking.sys) (sys_B Tracking.sys) [2; 0] [2 + 1 / 2] <> [0; 0].
Proof.
  assert (E : forall p v u : R,
    rhs (sys_A Tracking.sys) (sys_B Tracking.sys) [p; v] [u] =
    [10 * v; u - p]).
  { intros. unfold rhs, matvec, vadd, dot. cbn. f_equal; [ring|].
    f_equal. ring. }
  assert (H : forall p v u : R,
    rhs (sys_A Tracking.sys) (sys_B Tracking.sys) [p; v] [u] = [0; 0] <->
    v = 0 /\ u = p).
  { intros p v u. rewrite E. split.
    - intros [= H1 H2]. lra.
    - intros [-> ->]. f_equal; [ring|]. f_equal. ring. }
  split; [exact H|]. split.
  - apply H. split; reflexivity.
  - intros Hc. apply H in Hc. lra.
Qed.

End AugmentedSystem.

Section ImportOutcomes.
Import Env.

(** X24.  The outcomes of the import cell of the frequency-domain
    notebook.  A missing NumPy is not caught: the cell ends with
    [ImportError] and changes nothing.  With NumPy and Matplotlib
    installed: if [control] is installed, the cell prints its version,
    ends normally and installs nothing; if [control] is missing and the
    package index can be reached, the cell ends normally without printing
    the version; if the index cannot be reached, the second import raises
    [ImportError], which is not caught, nothing is installed and the plot
    defaults are left as they were. *)
Theorem import_cell_outcomes (w : world) :
  ("numpy" ∉ installed w ->
   import_cell_L7 w = (Raise (ImportError "numpy"), w)) /\
  ("numpy" ∈ installed w -> "matplotlib" ∈ installed w ->
   ("control" ∈ installed w ->
    fst (import_cell_L7 w) = Ok () /\
    console (snd (import_cell_L7 w)) =
      console w ++ ["python-control " +:+ control_version w] /\
    installed (snd (import_cell_L7 w)) = installed w /\
    rc_updated (snd (import_cell_L7 w)) = true) /\
   ("control" ∉ installed w -> online w = true ->
    fst (import_cell_L7 w) = Ok () /\
    console (snd (import_cell_L7 w)) = console w /\
    rc_updated (snd (import_cell_L7 w)) = true) /\
   ("control" ∉ installed w -> online w = false ->
    fst (import_cell_L7 w) = Raise (ImportError "control") /\
    installed (snd (import_cell_L7 w)) = installed w /\
    console (snd (import_cell_L7 w)) = console w /\
    rc_updated (snd (import_cell_L7 w)) = rc_updated w)).
Proof.
  assert (Hnb : forall m, m ∉ builtin_modules -> m ∉ installed w ->
                m ∉ builtin_modules ∪ installed w).
  { intros m H1 H2 H. apply elem_of_union in H as [H|H]; contradiction. }
  split.
  - intros Hn. unfold import_cell_L7, and_then, import_module.
    destruct (decide ("numpy" ∈ _)) as [E|E]; [|reflexivity].
    exfalso. revert E. apply Hnb; [|exact Hn].
    vm_compute. intros H. discriminate H.
  - intros Hn Hm.
    unfold import_cell_L7, import_control, try_except_ImportError, and_then,
      import_module, pip_install, print, update_rcparams.
    destruct (decide ("numpy" ∈ _)) as [E|E];
      [|destruct (E (importable_installed _ _ Hn))].
    cbn. clear E.
    destruct (decide ("matplotlib" ∈ _)) as [E|E];
      [|destruct (E (importable_installed _ _ Hm))].
    cbn. clear E.
    destruct (decide ("math" ∈ _)) as [E|E].
    2:{ exfalso. apply E, elem_of_union. left. exact math_builtin. }
    cbn. clear E.
    split; [|split].
    + intros Hc.
      destruct (decide ("control" ∈ _)) as [E|E];
        [|destruct (E (importable_installed _ _ Hc))].
      cbn. repeat split.
    + intros Hc Ho.
      destruct (decide ("control" ∈ _)) as [E|E];
        [destruct (Hc (importable_control _ E))|].
      cbn. clear E. rewrite Ho.
      destruct (decide ("control" ∈ _)) as [E|E];
        [|destruct (E (importable_after_pip _ _))].
      cbn. repeat split.
    + intros Hc Ho.
      destruct (decide ("control" ∈ _)) as [E|E];
        [destruct (Hc (importable_control _ E))|].
      cbn. clear E. rewrite Ho.
      destruct (decide ("control" ∈ _)) as [E|E];
        [destruct (Hc (importable_control _ E))|].
      cbn. repeat split.
Qed.

Lemma import_cell_outcomes_witness :
  fst (import_cell_L7
         {| installed := {[ "numpy"; "matplotlib" ]}; online := false;
            requires := fun _ => ∅;
            control_version := "0.10.1"; loaded := ∅; console := [];
            rc_updated := false |})
  = Raise (ImportError "control").
Proof.
  refine (proj1 (proj2 (proj2 (proj2 (import_cell_outcomes _) _ _)) _ _)).
  - vm_compute. reflexivity.
  - vm_compute. reflexivity.
  - vm_compute. intros H. discriminate H.
  - reflexivity.
Defined.

End ImportOutcomes.

Section PendulumEdgeCases.
Import Invpend.
Local Open Scope R_scope.

(** X25.  [invpend_update] reads its parameters by subscript: a missing
    ['m'], ['l'], ['b'] or ['g'] raises [KeyError] for the first one that is
    missing, whatever the state and the input.  With the four of them
    present and numeric, an empty input or a state of fewer than two
    entries raises [IndexError], and a mass of 0 raises
    [ZeroDivisionError]. *)
Theorem invpend_failures
    (t : R) (x u : list R) (params : gmap string pyval) :
  (params !! "m" = None ->
   invpend_update t x u params = Raise (KeyError "m")) /\
  (forall m, params !! "m" = Some m -> params !! "l" = None ->
   invpend_update t x u params = Raise (KeyError "l")) /\
  (forall m l, params !! "m" = Some m -> params !! "l" = Some l ->
   params !! "b" = None ->
   invpend_update t x u params = Raise (KeyError "b")) /\
  (forall m l b, params !! "m" = Some m -> params !! "l" = Some l ->
   params !! "b" = Some b -> params !! "g" = None ->
   invpend_update t x u params = Raise (KeyError "g")) /\
  (forall m l b g : R,
   params !! "m" = Some (VNum m) -> params !! "l" = Some (VNum l) ->
   params !! "b" = Some (VNum b) -> params !! "g" = Some (VNum g) ->
   params !! "umax" = None ->
   (u = [] -> invpend_update t x u params = Raise IndexError) /\
   (u <> [] -> (length x < 2)%nat ->
    invpend_update t x u params = Raise IndexError) /\
   (u <> [] -> (2 <= length x)%nat -> m = 0 ->
    invpend_update t x u params = Raise ZeroDivisionError)).
Proof.
  unfold invpend_update, usat, getitem, get.
  split; [|split; [|split; [|split]]].
  - intros ->. reflexivity.
  - intros m -> ->. reflexivity.
  - intros m l -> -> ->. reflexivity.
  - intros m l b -> -> -> ->. reflexivity.
  - intros m l b g -> -> -> -> ->. cbn. split; [|split].
    + intros ->. reflexivity.
    + intros Hu Hx. destruct u as [|u0 u']; [contradiction|]. cbn.
      destruct x as [|x0 [|x1 x']]; cbn in Hx; try lia; reflexivity.
    + intros Hu Hx ->. destruct u as [|u0 u']; [contradiction|]. cbn.
      destruct x as [|x0 [|x1 x']]; cbn in Hx; try lia. cbn.
      unfold div. destruct (Req_dec_T 0 0) as [_|Hne]; [reflexivity|].
      contradiction.
Qed.

Lemma invpend_failures_witness :
  invpend_update 0 [0; 0] [0] {[ "l" := VNum 1 ]} = Raise (KeyError "m").
Proof.
  refine (proj1 (invpend_failures 0 [0; 0] [0] {[ "l" := VNum 1 ]}) _).
  reflexivity.
Defined.

(** X26.  The proportional controller does not hold the pendulum at the
    reference: for a gain [kp > 1] and a reference [r] with
    [|kp r| <= kp - 1] (no saturation), the closed loop has its equilibrium
    at the angle [kp r / (kp - 1)], and the reference angle itself is not an
    equilibrium when [0 < |r| < pi]. *)
Theorem closed_loop_reference_offset (t kp r : R) :
  1 < kp -> Rabs (kp * r) <= kp - 1 ->
  clsys_update t [kp * r / (kp - 1); 0] [r] {[ "kp" := VNum kp ]}
    = Ok [0; 0] /\
  (0 < Rabs r < PI ->
   clsys_update t [r; 0] [r] {[ "kp" := VNum kp ]} <> Ok [0; 0]).
Proof.
  intros Hk Hr. split.
  - rewrite clsys_update_eq.
    assert (Hu : - kp * (kp * r / (kp - 1) - r) = - (kp * r / (kp - 1)))
      by (field; lra).
    rewrite Hu.
    assert (Hb : Rabs (kp * r / (kp - 1)) <= 1).
    { unfold Rdiv. rewrite Rabs_mult, (Rabs_pos_eq (/ (kp - 1))).
      - apply (Rmult_le_reg_r (kp - 1)); [lra|].
        rewrite Rmult_assoc, Rinv_l by lra. lra.
      - left. apply Rinv_0_lt_compat. lra. }
    assert (Hb' : - 1 <= kp * r / (kp - 1) <= 1)
      by (revert Hb; unfold Rabs; destruct Rcase_abs; lra).
    assert (Hclip : np_clip (- (kp * r / (kp - 1))) (- 1) 1
                    = - (kp * r / (kp - 1))).
    { unfold np_clip, Rmin, Rmax. repeat destruct Rle_dec; lra. }
    rewrite Hclip.
    replace (kp * r / (kp - 1) + - (kp * r / (kp - 1)) / 1) with 0
      by (field; lra).
    rewrite sin_0. do 2 f_equal. f_equal. field.
  - intros Hr' Heq. rewrite clsys_update_eq in Heq.
    replace (- kp * (r - r)) with 0 in Heq by ring.
    rewrite clip_zero in Heq.
    replace (r + 0 / 1) with r in Heq by field.
    injection Heq as Heq.
    assert (Hs : sin r = 0) by lra.
    destruct (Rcase_abs r) as [Hneg|Hpos].
    + rewrite Rabs_left in Hr' by exact Hneg.
      assert (0 < sin (- r)) by (apply sin_gt_0; lra).
      rewrite sin_neg in *. lra.
    + rewrite Rabs_right in Hr' by exact Hpos.
      assert (0 < sin r) by (apply sin_gt_0; lra). lra.
Qed.

Lemma closed_loop_reference_offset_witness :
  clsys_update 0 [10 * (1 / 2) / (10 - 1); 0] [1 / 2] {[ "kp" := VNum 10 ]}
    = Ok [0; 0].
Proof.
  refine (proj1 (closed_loop_reference_offset 0 10 (1 / 2) _ _)).
  - lra.
  - rewrite Rabs_pos_eq; lra.
Defined.

End PendulumEdgeCases.

Section ClosedLoopEquilibria.
Import Invpend.
Local Open Scope R_scope.

Lemma clip_linear (kp x : R) :
  0 < kp -> Rabs x <= / kp -> np_clip (- kp * (x - 0)) (- 1) 1 = - kp * x.
Proof.
  intros Hk Hx.
  assert (Hinv : 0 < / kp) by (apply Rinv_0_lt_compat, Hk).
  assert (Hb : - / kp <= x <= / kp)
    by (revert Hx; unfold Rabs; destruct Rcase_abs; lra).
  assert (H1 : kp * / kp = 1) by (field; lra).
  assert (- 1 <= kp * x <= 1) by nra.
  unfold np_clip, Rmin, Rmax. repeat destruct Rle_dec; lra.
Qed.

Lemma multiple_of_PI_small (k : Z) :
  - PI < IZR k * PI < PI -> k = 0%Z.
Proof.
  intros [Hlo Hhi]. pose proof PI_RGT_0 as Hpi.
  assert (H1 : IZR k < 1) by nra.
  assert (H2 : - 1 < IZR k) by nra.
  apply lt_IZR in H1. change (- 1) with (IZR (- 1)) in H2.
  apply lt_IZR in H2. lia.
Qed.

Lemma multiple_of_PI_nonneg (k : Z) :
  - PI < IZR k * PI -> (0 <= k)%Z.
Proof.
  intros Hlo. pose proof PI_RGT_0 as Hpi.
  assert (H2 : - 1 < IZR k) by nra.
  change (- 1) with (IZR (- 1)) in H2. apply lt_IZR in H2. lia.
Qed.

(** X27.  All the equilibria of the closed loop with a gain [kp > 1] and
    the reference 0: the velocity is zero and the angle is 0 (the upright
    position, held by the unsaturated controller), or [1 + n pi] or
    [-(1 + n pi)] for a natural number [n] (positions held against the
    saturated input). *)
Theorem closed_loop_equilibria (t kp theta omega : R) :
  1 < kp ->
  clsys_update t [theta; omega] [0] {[ "kp" := VNum kp ]} = Ok [0; 0] <->
  omega = 0 /\
  (theta = 0 \/
   exists n : Z, (0 <= n)%Z /\
     (theta = 1 + IZR n * PI \/ theta = - (1 + IZR n * PI))).
Proof.
  intros Hk. pose proof PI_RGT_0 as Hpi. pose proof PI2_1 as Hpi2.
  assert (Hinv : 0 < / kp < 1).
  { split; [apply Rinv_0_lt_compat; lra|].
    rewrite <- Rinv_1. apply Rinv_lt_contravar; lra. }
  rewrite clsys_update_eq.
  assert (Hform : forall c : R,
    Ok [omega; - (1 / 2) / 1 * omega + 1 * 1 / 1 * sin (theta + c / 1)]
      = Ok (A:=list R) [0; 0]
    <-> omega = 0 /\ sin (theta + c) = 0).
  { intros c. replace (theta + c / 1) with (theta + c) by field. split.
    - intros [= -> Hs]. split; [reflexivity | lra].
    - intros [-> Hs]. rewrite Hs. do 2 f_equal. f_equal. field. }
  rewrite Hform. clear Hform.
  destruct (Rle_dec (/ kp) theta) as [Hhi|Hhi];
    [|destruct (Rle_dec theta (- / kp)) as [Hlo|Hlo]].
  - rewrite clip_saturated_low by lra. split.
    + intros [-> Hs]. split; [reflexivity|]. right.
      apply sin_eq_0_0 in Hs as [k Hk'].
      exists k. split; [apply multiple_of_PI_nonneg; lra|]. left. lra.
    + intros [-> [-> | (n & Hn & [-> | ->])]]; try lra.
      * split; [reflexivity|]. apply sin_eq_0_1. exists n. ring.
      * apply IZR_le in Hn. nra.
  - rewrite clip_saturated_high by lra. split.
    + intros [-> Hs]. split; [reflexivity|]. right.
      assert (Hs' : sin (- (theta + 1)) = 0) by (rewrite sin_neg, Hs; ring).
      apply sin_eq_0_0 in Hs' as [k Hk'].
      exists k. split; [apply multiple_of_PI_nonneg; lra|]. right. lra.
    + intros [-> [-> | (n & Hn & [-> | ->])]]; try lra.
      * apply IZR_le in Hn. nra.
      * split; [reflexivity|].
        replace (- (1 + IZR n * PI) + 1) with (- (IZR n * PI)) by ring.
        rewrite sin_neg. replace 0 with (- 0) by ring. f_equal.
        apply sin_eq_0_1. exists n. ring.
  - assert (Hab : Rabs theta <= / kp)
      by (unfold Rabs; destruct Rcase_abs; lra).
    rewrite clip_linear by (lra || exact Hab). split.
    + intros [-> Hs]. split; [reflexivity|]. left.
      apply sin_eq_0_0 in Hs as [k Hk'].
      assert (Hsmall : - PI < theta + - kp * theta < PI).
      { assert (kp * / kp = 1) by (field; lra).
        assert (- 1 < theta + - kp * theta < 1) by nra. lra. }
      rewrite Hk' in Hsmall. apply multiple_of_PI_small in Hsmall. subst k.
      nra.
    + intros [-> [-> | (n & Hn & [-> | ->])]].
      * split; [reflexivity|].
        replace (0 + - kp * 0) with 0 by ring. apply sin_0.
      * apply IZR_le in Hn. nra.
      * apply IZR_le in Hn. nra.
Qed.

Lemma closed_loop_equilibria_witness :
  clsys_update 0 [1 + IZR 1 * PI; 0] [0] {[ "kp" := VNum 10 ]} = Ok [0; 0].
Proof.
  refine (proj2 (closed_loop_equilibria 0 10 (1 + IZR 1 * PI) 0 _) _).
  - lra.
  - split; [reflexivity|]. right. exists 1%Z. split; [lia|]. left. reflexivity.
Defined.

End ClosedLoopEquilibria.

Section StateFeedbackFacts.
Import Invpend StateFeedback Riccati.
Local Open Scope R_scope.

(** X28.  The state feedback controller computes
    [-k1 (theta - theta_d) - k2 (thdot - thdot_d)] from its four inputs for
    a gain [K] given as the array [[k1, k2]] or as the 1 x 2 array that
    [place] returns; without a parameter ['K'] the gain is zero and so is
    the output.  An input of three entries does not fail: the third entry is
    broadcast and subtracted from both of the others.  An input of five or
    more entries raises [ValueError], and so does a gain that is a plain
    number. *)
Theorem statefbk_output_law (t : R) (x : list R)
    (k1 k2 th thd thr thdr : R) :
  statefbk_output t x [th; thd; thr; thdr] {[ "K" := AVec [k1; k2] ]}
    = Ok [- k1 * (th - thr) + (- k2 * (thd - thdr) + 0)] /\
  statefbk_output t x [th; thd; thr; thdr] {[ "K" := AMat [[k1; k2]] ]}
    = Ok [- k1 * (th - thr) + (- k2 * (thd - thdr) + 0)] /\
  statefbk_output t x [th; thd; thr; thdr] ∅
    = Ok [- 0 * (th - thr) + (- 0 * (thd - thdr) + 0)] /\
  statefbk_output t x [th; thd; thr] {[ "K" := AVec [k1; k2] ]}
    = Ok [- k1 * (th - thr) + (- k2 * (thd - thr) + 0)] /\
  (forall (u : list R) (params : gmap string pyarr),
      (5 <= length u)%nat ->
      statefbk_output t x u params =
      Raise (ValueError "operands could not be broadcast together" VNone)) /\
  (forall k : R,
      statefbk_output t x [th; thd; thr; thdr] {[ "K" := ANum k ]} =
      Raise (ValueError "matmul: operand does not have enough dimensions"
               VNone)).
Proof.
  repeat split.
  - intros u params Hu. unfold statefbk_output, np_sub.
    assert (H2 : length (take 2 u) = 2%nat) by (rewrite length_take; lia).
    assert (H3 : (3 <= length (drop 2 u))%nat) by (rewrite length_drop; lia).
    do 3 (destruct (decide _); [lia|]). reflexivity.
Qed.

Lemma clsys_sf_update_eq (t k1 k2 x0 x1 : R) :
  clsys_sf_update t [x0; x1] [0; 0] {[ "K" := AMat [[k1; k2]] ]} =
  Ok [x1; - (1 / 2) / 1 * x1
          + 1 * 1 / 1
            * sin (x0 + np_clip (- k1 * (x0 - 0) + (- k2 * (x1 - 0) + 0))
                          (- 1) 1 / 1)].
Proof.
  unfold clsys_sf_update.
  change (statefbk_output t [] [x0; x1; 0; 0] {[ "K" := AMat [[k1; k2]] ]})
    with (Ok [- k1 * (x0 - 0) + (- k2 * (x1 - 0) + 0)]).
  cbn [mbind result_bind index lookup list_lookup].
  unfold invpend_update, usat.
  change (get (clsys_params ∪ invpend_params) "umax" (VNum 1)) with (VNum 1).
  change (getitem (clsys_params ∪ invpend_params) "m")
    with (Ok (A:=pyval) (VNum 1)).
  change (getitem (clsys_params ∪ invpend_params) "l")
    with (Ok (A:=pyval) (VNum 1)).
  change (getitem (clsys_params ∪ invpend_params) "b")
    with (Ok (A:=pyval) (VNum (1 / 2))).
  change (getitem (clsys_params ∪ invpend_params) "g")
    with (Ok (A:=pyval) (VNum 1)).
  cbn. unfold div. destruct (Req_dec_T 1 0) as [E|E]; [lra|]. reflexivity.
Qed.

Lemma clip_small (v : R) : Rabs v <= 1 -> np_clip v (- 1) 1 = v.
Proof.
  intros Hv.
  assert (- 1 <= v <= 1) by (revert Hv; unfold Rabs; destruct Rcase_abs; lra).
  unfold np_clip, Rmin, Rmax. repeat destruct Rle_dec; lra.
Qed.

Lemma small_product (k h : R) : Rabs h < / (Rabs k + 1) -> Rabs (k * h) <= 1.
Proof.
  intros Hh.
  assert (Hk : 0 < Rabs k + 1) by (pose proof (Rabs_pos k); lra).
  rewrite Rabs_mult.
  assert (H1 : (Rabs k + 1) * / (Rabs k + 1) = 1) by (field; lra).
  pose proof (Rabs_pos h). pose proof (Rabs_pos k).
  assert ((Rabs k + 1) * Rabs h < 1) by nra.
  nra.
Qed.

(** The state matrix of the closed loop with state feedback. *)
Lemma clsys_sf_state_matrix (k1 k2 : R) :
  is_state_matrix (clsys_sf_rhs (AMat [[k1; k2]])) 0 0
    ((0, 1), (1 - k1, - (1 / 2) - k2)).
Proof.
  assert (E0 : forall y0 y1, clsys_sf_rhs (AMat [[k1; k2]]) 0 y0 y1 = y1).
  { intros. unfold clsys_sf_rhs. now rewrite clsys_sf_update_eq. }
  assert (E1 : forall y0 y1, clsys_sf_rhs (AMat [[k1; k2]]) 1 y0 y1 =
    - (1 / 2) / 1 * y1
    + 1 * 1 / 1
      * sin (y0 + np_clip (- k1 * (y0 - 0) + (- k2 * (y1 - 0) + 0))
                    (- 1) 1 / 1)).
  { intros. unfold clsys_sf_rhs. now rewrite clsys_sf_update_eq. }
  unfold is_state_matrix. repeat split.
  - apply (derivable_pt_lim_ext _ (fun _ => 0)); [intros; apply E0|].
    apply derivable_pt_lim_const.
  - apply (derivable_pt_lim_ext _ id); [intros; apply E0|].
    apply derivable_pt_lim_id.
  - assert (Hk : 0 < Rabs k1 + 1) by (pose proof (Rabs_pos k1); lra).
    apply (derivable_pt_lim_local _ (fun h => sin ((1 - k1) * h)) _ _
             (/ (Rabs k1 + 1))).
    + apply Rinv_0_lt_compat, Hk.
    + intros y Hy. rewrite Rminus_0_r in Hy. rewrite E1.
      replace (- k1 * (y - 0) + (- k2 * (0 - 0) + 0)) with (- (k1 * y))
        by ring.
      rewrite clip_small
        by (rewrite Rabs_Ropp; apply small_product, Hy).
      replace (y + - (k1 * y) / 1) with ((1 - k1) * y) by field. field.
    + apply derivable_pt_lim_sin_linear.
  - assert (Hk : 0 < Rabs k2 + 1) by (pose proof (Rabs_pos k2); lra).
    apply (derivable_pt_lim_local _
             (fun h => - (1 / 2) * h + sin (- k2 * h)) _ _
             (/ (Rabs k2 + 1))).
    + apply Rinv_0_lt_compat, Hk.
    + intros y Hy. rewrite Rminus_0_r in Hy. rewrite E1.
      replace (- k1 * (0 - 0) + (- k2 * (y - 0) + 0)) with (- (k2 * y))
        by ring.
      rewrite clip_small
        by (rewrite Rabs_Ropp; apply small_product, Hy).
      replace (0 + - (k2 * y) / 1) with (- k2 * y) by field. field.
    + apply (derivable_pt_lim_plus (fun h => - (1 / 2) * h)
               (fun h => sin (- k2 * h)) 0 (- (1 / 2)) (- k2)).
      * apply (derivable_pt_lim_ext _ (fun h => 0 + - (1 / 2) * h));
          [intros; ring | apply derivable_pt_lim_affine].
      * apply derivable_pt_lim_sin_linear.
Qed.

(** A nonnegative damping entry: there is a pole in the closed right half
    plane. *)
Lemma pole_not_left (a b : R) :
  0 <= b -> exists s, is_pole ((0, 1), (a, b)) s /\ 0 <= fst s.
Proof.
  intros Hb. destruct (Rle_dec 0 (b * b + 4 * a)) as [Hd|Hd].
  - pose proof (sqrt_sqrt _ Hd) as Hsq.
    pose proof (sqrt_pos (b * b + 4 * a)) as Hpos.
    set (d := sqrt (b * b + 4 * a)) in *.
    exists ((b + d) / 2, 0). split.
    + unfold is_pole, char_poly, Cmul, Csub, Creal. cbn. f_equal; nra.
    + cbn. lra.
  - assert (Hd' : 0 <= - (b * b + 4 * a)) by lra.
    pose proof (sqrt_sqrt _ Hd') as Hsq.
    set (d := sqrt (- (b * b + 4 * a))) in *.
    exists (b / 2, d / 2). split.
    + unfold is_pole, char_poly, Cmul, Csub, Creal. cbn. f_equal; nra.
    + cbn. lra.
Qed.

(** X29.  The closed loop with state feedback [K = [[k1, k2]]], linearized
    at the origin, has the state matrix [[0, 1], [1 - k1, -1/2 - k2]].  All
    its poles have negative real part exactly when [k1 > 1] and
    [k2 > -1/2], and with the gain [K = [[2.01, 1.5]]] its poles are exactly
    [-1 + 0.1j] and [-1 - 0.1j], the locations that the notebook passes to
    [place]. *)
Theorem state_feedback_poles (k1 k2 : R) :
  is_state_matrix (clsys_sf_rhs (AMat [[k1; k2]])) 0 0
    ((0, 1), (1 - k1, - (1 / 2) - k2)) /\
  ((forall s, is_pole ((0, 1), (1 - k1, - (1 / 2) - k2)) s -> fst s < 0)
   <-> 1 < k1 /\ - (1 / 2) < k2) /\
  (forall s,
      is_pole ((0, 1), (1 - 201 / 100, - (1 / 2) - 3 / 2)) s <->
      s = (- 1, 1 / 10) \/ s = (- 1, - (1 / 10))).
Proof.
  split; [apply clsys_sf_state_matrix|]. split.
  - split.
    + intros Hall. split.
      * destruct (Rlt_dec 1 k1) as [H|H]; [exact H|]. exfalso.
        destruct (Req_dec k1 1) as [->|Hne].
        -- assert (Hp : is_pole ((0, 1), (1 - 1, - (1 / 2) - k2)) (0, 0)).
           { replace (1 - 1) with 0 by ring. apply pole_origin. }
           apply Hall in Hp. cbn in Hp. lra.
        -- destruct (pole_right (1 - k1) (- (1 / 2) - k2)) as (s & Hs & Hpos);
             [lra|].
           apply Hall in Hs. lra.
      * destruct (Rlt_dec (- (1 / 2)) k2) as [H|H]; [exact H|]. exfalso.
        destruct (pole_not_left (1 - k1) (- (1 / 2) - k2)) as (s & Hs & Hpos);
          [lra|].
        apply Hall in Hs. lra.
    + intros [H1 H2] s. apply poles_left; lra.
  - intros [re im]. unfold is_pole, char_poly, Cmul, Csub, Creal. cbn.
    split.
    + intros H. injection H as Hre Him.
      assert (Hre' : (re + 1) * (re + 1) - im * im + 1 / 100 = 0)
        by (etransitivity; [|exact Hre]; field).
      assert (E : im * (re + 1) = 0)
        by (apply (Rmult_eq_reg_l 2); [|lra];
            etransitivity; [|rewrite Rmult_0_r; exact Him]; field).
      clear Hre Him.
      apply Rmult_integral in E as [E|E].
      * subst im. exfalso. pose proof (Rle_0_sqr (re + 1)) as Hsq.
        unfold Rsqr in Hsq. lra.
      * assert (Ere : re = - 1) by lra. subst re.
        assert (E2 : (im - 1 / 10) * (im + 1 / 10) = 0).
        { replace ((im - 1 / 10) * (im + 1 / 10))
            with (- ((- 1 + 1) * (- 1 + 1) - im * im + 1 / 100)) by field.
          rewrite Hre'. ring. }
        apply Rmult_integral in E2 as [E2|E2]; [left|right]; f_equal; lra.
    + intros [[= -> ->] | [= -> ->]]; f_equal; field.
Qed.

Lemma state_feedback_poles_witness :
  is_pole ((0, 1), (1 - 2, - (1 / 2) - 1)) (- (3 / 4), sqrt 7 / 4) /\
  fst (- (3 / 4), sqrt 7 / 4) < 0.
Proof.
  assert (H : is_pole ((0, 1), (1 - 2, - (1 / 2) - 1))
                (- (3 / 4), sqrt 7 / 4)).
  { unfold is_pole, char_poly, Cmul, Csub, Creal. cbn.
    assert (Hs : sqrt 7 * sqrt 7 = 7) by (apply sqrt_sqrt; lra).
    f_equal; nra. }
  split; [exact H|].
  refine (proj2 (proj1 (proj2 (state_feedback_poles 2 1))) _ _ H). lra.
Defined.

End StateFeedbackFacts.
